(** * uFAT: the block-cached FAT access layer of [ufat.c]

    A shallow embedding of [ufat.c] (BPB parser, block cache, FAT decoder
    and the open/sync lifecycle) and the properties of it that the
    specification states.

    Conventions of the embedding.
    - C integers are [Z].  An [unsigned int] / [uint32_t] expression is
      wrapped with [u32] wherever the C operation can leave the range; an
      [int] return value is a plain [Z] (error codes are small).
    - A byte buffer is a [list byte]; reading past its end yields [x00].
    - The volume [struct ufat] is a record that is passed through every
      operation.  Indexing [cache_desc] outside the array is undefined
      behaviour in C and makes the embedded operation return [None].
    - The device is an external collaborator reached through the function
      pointers [dev->read] and [dev->write].  It is modelled as a
      deterministic function of the history of all earlier device calls;
      that history ([io_log]) is kept in the volume record and is also what
      the theorems inspect to say which blocks were read and written. *)

From Stdlib Require Import ZArith Lia List Bool.
From Stdlib.Strings Require Import Byte.
From Stdlib.Strings Require String.
From stdpp Require Import base option list.
Import String.StringSyntax.
Delimit Scope string_scope with string.

Open Scope Z_scope.

(** ** Machine integers and bytes *)

Definition u32 (x : Z) : Z := x mod 2 ^ 32.

Definition byte_val (b : byte) : Z := Z.of_N (Byte.to_N b).

(** [p[off]] for a byte pointer [p] into a buffer. *)
Definition byte_at (p : list byte) (off : Z) : Z :=
  if off <? 0 then 0 else byte_val (nth (Z.to_nat off) p x00).

(** Modelled from the spec: [r16] and [r32] are accessors of
    [ufat_internal.h], which is not among the sources; the spec says that
    all on-disk fields are little-endian. *)
Definition r16 (p : list byte) (off : Z) : Z :=
  Z.lor (byte_at p off) (Z.shiftl (byte_at p (off + 1)) 8).

Definition r32 (p : list byte) (off : Z) : Z :=
  Z.lor (Z.lor (byte_at p off) (Z.shiftl (byte_at p (off + 1)) 8))
        (Z.lor (Z.shiftl (byte_at p (off + 2)) 16)
               (Z.shiftl (byte_at p (off + 3)) 24)).

(** ** Constants of [ufat.h] that the spec fixes *)

(** Modelled from the spec: the error codes are an enum in the order
    OK, IO, BLOCK_SIZE, INVALID_BPB, BLOCK_ALIGNMENT, INVALID_CLUSTER,
    NAME_TOO_LONG, NOT_DIRECTORY, NOT_FILE ([ufat.h] is not among the
    sources). *)
Definition UFAT_OK : Z := 0.
Definition UFAT_ERR_IO : Z := 1.
Definition UFAT_ERR_BLOCK_SIZE : Z := 2.
Definition UFAT_ERR_INVALID_BPB : Z := 3.
Definition UFAT_ERR_BLOCK_ALIGNMENT : Z := 4.
Definition UFAT_ERR_INVALID_CLUSTER : Z := 5.

(** Modelled from the spec: the two tunables whose value the spec gives. *)
Definition UFAT_DIRENT_SIZE : Z := 32.
Definition UFAT_CLUSTER_MASK : Z := 0x0FFFFFFF.

Inductive ufat_type : Type :=
  | UFAT_TYPE_FAT12
  | UFAT_TYPE_FAT16
  | UFAT_TYPE_FAT32.

(** ** The geometry record, [struct ufat_bpb] *)

Record ufat_bpb : Type := mk_bpb {
  type : ufat_type;
  log2_blocks_per_cluster : Z;
  fat_start : Z;
  fat_size : Z;
  fat_count : Z;
  cluster_start : Z;
  num_clusters : Z;
  root_start : Z;
  root_size : Z;
  root_cluster : Z
}.

Definition set_type (v : ufat_type) (b : ufat_bpb) : ufat_bpb :=
  mk_bpb v (log2_blocks_per_cluster b) (fat_start b) (fat_size b)
         (fat_count b) (cluster_start b) (num_clusters b) (root_start b)
         (root_size b) (root_cluster b).
Definition set_log2_blocks_per_cluster (v : Z) (b : ufat_bpb) : ufat_bpb :=
  mk_bpb (type b) v (fat_start b) (fat_size b)
         (fat_count b) (cluster_start b) (num_clusters b) (root_start b)
         (root_size b) (root_cluster b).
Definition set_fat_start (v : Z) (b : ufat_bpb) : ufat_bpb :=
  mk_bpb (type b) (log2_blocks_per_cluster b) v (fat_size b)
         (fat_count b) (cluster_start b) (num_clusters b) (root_start b)
         (root_size b) (root_cluster b).
Definition set_fat_size (v : Z) (b : ufat_bpb) : ufat_bpb :=
  mk_bpb (type b) (log2_blocks_per_cluster b) (fat_start b) v
         (fat_count b) (cluster_start b) (num_clusters b) (root_start b)
         (root_size b) (root_cluster b).
Definition set_fat_count (v : Z) (b : ufat_bpb) : ufat_bpb :=
  mk_bpb (type b) (log2_blocks_per_cluster b) (fat_start b) (fat_size b)
         v (cluster_start b) (num_clusters b) (root_start b)
         (root_size b) (root_cluster b).
Definition set_cluster_start (v : Z) (b : ufat_bpb) : ufat_bpb :=
  mk_bpb (type b) (log2_blocks_per_cluster b) (fat_start b) (fat_size b)
         (fat_count b) v (num_clusters b) (root_start b)
         (root_size b) (root_cluster b).
Definition set_num_clusters (v : Z) (b : ufat_bpb) : ufat_bpb :=
  mk_bpb (type b) (log2_blocks_per_cluster b) (fat_start b) (fat_size b)
         (fat_count b) (cluster_start b) v (root_start b)
         (root_size b) (root_cluster b).
Definition set_root_start (v : Z) (b : ufat_bpb) : ufat_bpb :=
  mk_bpb (type b) (log2_blocks_per_cluster b) (fat_start b) (fat_size b)
         (fat_count b) (cluster_start b) (num_clusters b) v
         (root_size b) (root_cluster b).
Definition set_root_size (v : Z) (b : ufat_bpb) : ufat_bpb :=
  mk_bpb (type b) (log2_blocks_per_cluster b) (fat_start b) (fat_size b)
         (fat_count b) (cluster_start b) (num_clusters b) (root_start b)
         v (root_cluster b).
Definition set_root_cluster (v : Z) (b : ufat_bpb) : ufat_bpb :=
  mk_bpb (type b) (log2_blocks_per_cluster b) (fat_start b) (fat_size b)
         (fat_count b) (cluster_start b) (num_clusters b) (root_start b)
         (root_size b) v.

(** ** [log2_exact]

    The loop [while (e > 1) { if (e & 1) return -1; e >>= 1; count++; }]
    walks the binary digits of [e] from the least significant one, which is
    the structure of [positive]: [xH] is [e = 1] (the loop ends), [xO e'] is
    an even [e > 1] (shift and count), [xI e'] is an odd [e > 1] (fail).
    The result is the pair of the return value and the value of [*ret],
    which is left alone on failure. *)
Fixpoint log2_exact_loop (e : positive) (count : Z) : option Z :=
  match e with
  | xH => Some count
  | xO e' => log2_exact_loop e' (count + 1)
  | xI _ => None
  end.

Definition log2_exact (e : Z) (ret : Z) : Z * Z :=
  match e with
  | Zpos p =>
      match log2_exact_loop p 0 with
      | Some count => (0, count)
      | None => (-1, ret)
      end
  | _ => (-1, ret)
  end.

(** ** [parse_bpb]

    The result is [None] when the C function divides by zero while it
    initialises [root_sectors] (a boot sector whose bytes-per-sector field
    is 0: the division comes before every check), and otherwise the return
    value together with the geometry record as the function leaves it; the
    record is written field by field, also on the error paths.

    [ufat_block_t] is declared in the missing header; the block-valued
    fields are not wrapped here.  The 32-bit values ([sectors_per_fat],
    [total_logical_sectors], [root_sectors], [num_clusters]) wrap. *)
Definition parse_bpb (log2_bytes_per_block : Z) (ufb : ufat_bpb)
    (bpb : list byte) : option (Z * ufat_bpb) :=
  let bytes_per_sector := r16 bpb 0x00b in
  let sectors_per_cluster := byte_at bpb 0x00d in
  let reserved_sector_count := r16 bpb 0x00e in
  let root_entries := r16 bpb 0x011 in
  let sectors_per_fat := r16 bpb 0x016 in
  let total_logical_sectors := r16 bpb 0x013 in
  let number_of_fats := byte_at bpb 0x010 in
  let root_cluster := r32 bpb 0x02c in
  let log2_bytes_per_sector := 0 in
  let log2_sectors_per_cluster := 0 in
  if bytes_per_sector =? 0 then None else
  let root_sectors :=
    (root_entries * UFAT_DIRENT_SIZE + bytes_per_sector - 1)
      / bytes_per_sector in
  Some (
  (* Read and check BPB values *)
  if log2_bytes_per_block <? 9 then (- UFAT_ERR_BLOCK_SIZE, ufb) else
  let total_logical_sectors :=
    if total_logical_sectors =? 0 then r32 bpb 0x020
    else total_logical_sectors in
  let sectors_per_fat :=
    if sectors_per_fat =? 0 then r32 bpb 0x024 else sectors_per_fat in
  let '(e1, log2_bytes_per_sector) :=
    log2_exact bytes_per_sector log2_bytes_per_sector in
  if e1 <? 0 then (- UFAT_ERR_INVALID_BPB, ufb) else
  let '(e2, log2_sectors_per_cluster) :=
    log2_exact sectors_per_cluster log2_sectors_per_cluster in
  if e2 <? 0 then (- UFAT_ERR_INVALID_BPB, ufb) else
  if negb (r16 bpb 0x1fe =? 0xaa55) then (- UFAT_ERR_INVALID_BPB, ufb) else
  (* Convert sectors to blocks *)
  let converted : Z * ufat_bpb :=
    if log2_bytes_per_block >? log2_bytes_per_sector then
      let shift := log2_bytes_per_block - log2_bytes_per_sector in
      if log2_sectors_per_cluster <? shift then
        (- UFAT_ERR_BLOCK_ALIGNMENT, ufb)
      else
        let ufb :=
          set_log2_blocks_per_cluster (log2_sectors_per_cluster - shift) ufb in
        if negb (Z.land (Z.lor (Z.lor reserved_sector_count sectors_per_fat)
                               root_sectors)
                        (Z.shiftl 1 shift - 1) =? 0) then
          (- UFAT_ERR_BLOCK_ALIGNMENT, ufb)
        else
          let ufb := set_fat_start (Z.shiftr reserved_sector_count shift) ufb in
          let ufb := set_fat_size (Z.shiftr sectors_per_fat shift) ufb in
          let ufb := set_root_size (Z.shiftr root_sectors shift) ufb in
          (0, ufb)
    else
      let shift := log2_bytes_per_sector - log2_bytes_per_block in
      let ufb :=
        set_log2_blocks_per_cluster (log2_sectors_per_cluster + shift) ufb in
      let ufb := set_fat_start (Z.shiftl reserved_sector_count shift) ufb in
      let ufb := set_fat_size (u32 (Z.shiftl sectors_per_fat shift)) ufb in
      let ufb := set_root_size (u32 (Z.shiftl root_sectors shift)) ufb in
      (0, ufb) in
  let '(e3, ufb) := converted in
  if e3 <? 0 then (e3, ufb) else
  if number_of_fats =? 0 then (- UFAT_ERR_INVALID_BPB, ufb) else
  (* Various block-size independent values *)
  let ufb := set_fat_count number_of_fats ufb in
  let ufb :=
    set_num_clusters
      (u32 (Z.shiftr
              (u32 (u32 (u32 (total_logical_sectors - reserved_sector_count)
                         - u32 (sectors_per_fat * number_of_fats))
                    - root_sectors))
              log2_sectors_per_cluster
            + 2)) ufb in
  let ufb := set_root_cluster (Z.land root_cluster UFAT_CLUSTER_MASK) ufb in
  let ufb :=
    set_root_start (fat_start ufb + fat_size ufb * fat_count ufb) ufb in
  let ufb := set_cluster_start (root_start ufb + root_size ufb) ufb in
  (* Figure out filesystem type *)
  if root_sectors =? 0 then
    (0, set_type UFAT_TYPE_FAT32 ufb)
  else
    let ufb := set_root_cluster 0 ufb in
    if num_clusters ufb <? 4085 then (0, set_type UFAT_TYPE_FAT12 ufb)
    else (0, set_type UFAT_TYPE_FAT16 ufb)).

(** ** The device adapter, [struct ufat_device]

    An [io_event] records one call of a device function pointer: the block,
    the count, the buffer contents (after the call for a read, as passed for
    a write) and the value returned. *)
Inductive io_event : Type :=
  | IoRead (block count : Z) (data : list byte) (ret : Z)
  | IoWrite (block count : Z) (data : list byte) (ret : Z).

(** [dev_read] is [dev->read] and [dev_write] is [dev->write].  Each gets
    the history of the earlier calls, the first block, the count and the
    buffer; [dev_read] gives back the return value and the buffer as the
    call leaves it, [dev_write] the return value. *)
Record ufat_device : Type := mk_device {
  log2_block_size : Z;
  dev_read : list io_event -> Z -> Z -> list byte -> Z * list byte;
  dev_write : list io_event -> Z -> Z -> list byte -> Z
}.

(** ** The volume, [struct ufat]

    Modelled from the spec: the struct declarations are in the missing
    [ufat.h].  The statistics are the six counters the spec lists; they
    are taken to be unsigned 32-bit integers, like [next_seq], so that
    [++] on a counter that holds [0xFFFFFFFF] leaves 0.  A cache slot has
    the fields [index], [seq] and [flags]; the slot buffers are reached
    through [ufat_cache_data]. *)
Record ufat_cache_desc : Type := mk_desc {
  flags : Z;
  seq : Z;
  index : Z
}.

Record ufat_stat : Type := mk_stat {
  stat_read : Z;
  stat_write : Z;
  read_blocks : Z;
  write_blocks : Z;
  cache_hit : Z;
  cache_miss : Z
}.

Record ufat : Type := mk_ufat {
  dev : ufat_device;
  bpb : ufat_bpb;
  stat : ufat_stat;
  next_seq : Z;
  cache_size : Z;
  cache_desc : list ufat_cache_desc;
  cache_data : list (list byte);
  io_log : list io_event
}.

Definition set_dev (v : ufat_device) (uf : ufat) : ufat :=
  mk_ufat v (bpb uf) (stat uf) (next_seq uf) (cache_size uf)
          (cache_desc uf) (cache_data uf) (io_log uf).
Definition set_bpb (v : ufat_bpb) (uf : ufat) : ufat :=
  mk_ufat (dev uf) v (stat uf) (next_seq uf) (cache_size uf)
          (cache_desc uf) (cache_data uf) (io_log uf).
Definition set_stat (v : ufat_stat) (uf : ufat) : ufat :=
  mk_ufat (dev uf) (bpb uf) v (next_seq uf) (cache_size uf)
          (cache_desc uf) (cache_data uf) (io_log uf).
Definition set_next_seq (v : Z) (uf : ufat) : ufat :=
  mk_ufat (dev uf) (bpb uf) (stat uf) v (cache_size uf)
          (cache_desc uf) (cache_data uf) (io_log uf).
Definition set_cache_size (v : Z) (uf : ufat) : ufat :=
  mk_ufat (dev uf) (bpb uf) (stat uf) (next_seq uf) v
          (cache_desc uf) (cache_data uf) (io_log uf).
Definition set_cache_desc (v : list ufat_cache_desc) (uf : ufat) : ufat :=
  mk_ufat (dev uf) (bpb uf) (stat uf) (next_seq uf) (cache_size uf)
          v (cache_data uf) (io_log uf).
Definition set_cache_data (v : list (list byte)) (uf : ufat) : ufat :=
  mk_ufat (dev uf) (bpb uf) (stat uf) (next_seq uf) (cache_size uf)
          (cache_desc uf) v (io_log uf).
Definition set_io_log (v : list io_event) (uf : ufat) : ufat :=
  mk_ufat (dev uf) (bpb uf) (stat uf) (next_seq uf) (cache_size uf)
          (cache_desc uf) (cache_data uf) v.

(** [uf->cache_desc[i]], [None] outside the array. *)
Definition desc_at (uf : ufat) (i : Z) : option ufat_cache_desc :=
  if i <? 0 then None else cache_desc uf !! Z.to_nat i.

(** [uf->cache_desc[i] = d]. *)
Definition set_desc (i : Z) (d : ufat_cache_desc) (uf : ufat) : ufat :=
  set_cache_desc (<[Z.to_nat i := d]> (cache_desc uf)) uf.

(** The buffer of slot [i]. *)
Definition ufat_cache_data (uf : ufat) (i : Z) : list byte :=
  default [] (cache_data uf !! Z.to_nat i).

(** [uf->dev->write(uf->dev, blk, 1, buf)]. *)
Definition call_write (uf : ufat) (blk : Z) (buf : list byte) : Z * ufat :=
  let r := dev_write (dev uf) (io_log uf) blk 1 buf in
  (r, set_io_log (io_log uf ++ [IoWrite blk 1 buf r]) uf).

(** [uf->dev->read(uf->dev, blk, 1, ufat_cache_data(uf, i))]. *)
Definition call_read (uf : ufat) (blk : Z) (i : Z) : Z * ufat :=
  let '(r, buf) := dev_read (dev uf) (io_log uf) blk 1 (ufat_cache_data uf i) in
  (r, set_io_log (io_log uf ++ [IoRead blk 1 buf r])
        (set_cache_data (<[Z.to_nat i := buf]> (cache_data uf)) uf)).

(** [c++] on a counter of [struct ufat_stat]: unsigned, modulo [2 ^ 32]. *)
Definition stat_incr (c : Z) : Z := u32 (c + 1).

(** [uf->stat.write++; uf->stat.write_blocks++]. *)
Definition bump_write (uf : ufat) : ufat :=
  let s := stat uf in
  set_stat (mk_stat (stat_read s) (stat_incr (stat_write s)) (read_blocks s)
                    (stat_incr (write_blocks s)) (cache_hit s)
                    (cache_miss s)) uf.

(** [uf->stat.cache_hit++]. *)
Definition bump_hit (uf : ufat) : ufat :=
  let s := stat uf in
  set_stat (mk_stat (stat_read s) (stat_write s) (read_blocks s)
                    (write_blocks s) (stat_incr (cache_hit s))
                    (cache_miss s)) uf.

(** [uf->stat.cache_miss++; uf->stat.read++; uf->stat.read_blocks++]. *)
Definition bump_miss (uf : ufat) : ufat :=
  let s := stat uf in
  set_stat (mk_stat (stat_incr (stat_read s)) (stat_write s)
                    (stat_incr (read_blocks s)) (write_blocks s)
                    (cache_hit s) (stat_incr (cache_miss s))) uf.

Definition zero_stat : ufat_stat := mk_stat 0 0 0 0 0 0.
Definition zero_desc : ufat_cache_desc := mk_desc 0 0 0.

(** The outcome of the scan loop of [ufat_cache_open]: either it returned
    from inside the loop (a hit), or it ran to the end and left [oldest],
    [free] and [oldest_age]. *)
Inductive scan_result : Type :=
  | ScanHit (i : Z) (uf : ufat)
  | ScanMiss (oldest free oldest_age : Z).

(** A boot sector is built from an all-zero 512-byte block by storing
    little-endian fields into it. *)
Definition byte_of_Z (v : Z) : byte :=
  match Byte.of_N (Z.to_N (v mod 256)) with
  | Some b => b
  | None => x00
  end.

Definition w8 (off : nat) (v : Z) (p : list byte) : list byte :=
  <[off := byte_of_Z v]> p.
Definition w16 (off : nat) (v : Z) (p : list byte) : list byte :=
  w8 (off + 1) (Z.shiftr v 8) (w8 off v p).
Definition w32 (off : nat) (v : Z) (p : list byte) : list byte :=
  w16 (off + 2) (Z.shiftr v 16) (w16 off v p).

Definition zero_block (n : nat) : list byte := replicate n x00.

Definition zero_bpb : ufat_bpb :=
  mk_bpb UFAT_TYPE_FAT12 0 0 0 0 0 0 0 0 0.

(** The boot sector of scenario S1: 65536 sectors of 512 bytes.  The 16-bit
    total-sectors field at 0x013 cannot hold 65536, so, as the format
    prescribes, it is 0 and the count is in the 32-bit field at 0x020. *)
Definition s1_boot_sector : list byte :=
  w16 0x1fe 0xaa55
  (w32 0x020 65536
  (w16 0x016 64
  (w16 0x011 512
  (w8 0x010 2
  (w16 0x00e 4
  (w8 0x00d 4
  (w16 0x00b 512 (zero_block 512)))))))).

(** ** Simulated devices, to run the code on concrete inputs *)

(** The data of the last successful write of [blk] in a history. *)
Fixpoint last_write (log : list io_event) (blk : Z) (dflt : list byte)
    : list byte :=
  match log with
  | [] => dflt
  | IoWrite b _ data r :: log' =>
      last_write log' blk (if (b =? blk) && (0 <=? r) then data else dflt)
  | _ :: log' => last_write log' blk dflt
  end.

(** A disk with the initial contents [image]; a read of [blk] fails with
    [read_err blk] when that is negative, and likewise for writes. *)
Definition sim_device (l2 : Z) (image : Z -> list byte)
    (read_err write_err : Z -> Z) : ufat_device :=
  mk_device l2
    (fun log blk _ buf =>
       if read_err blk <? 0 then (read_err blk, buf)
       else (0, last_write log blk (image blk)))
    (fun _ blk _ _ => if write_err blk <? 0 then write_err blk else 0).

Definition no_err (blk : Z) : Z := 0.

(** An unmounted volume with room for [n] cache slots. *)
Definition blank_ufat (n : nat) : ufat :=
  mk_ufat (sim_device 9 (fun _ => []) no_err no_err) zero_bpb zero_stat 0 0
          (replicate n zero_desc) (replicate n []) [].

Definition s1_image (blk : Z) : list byte :=
  if blk =? 0 then s1_boot_sector else zero_block 512.


Definition always_err (err : Z) (blk : Z) : Z := err.
Definition fail_block (bad err : Z) (blk : Z) : Z :=
  if blk =? bad then err else 0.

(** The S1 disk, and the same disk with an unreadable block 9. *)
Definition s1_device : ufat_device := sim_device 9 s1_image no_err no_err.
Definition s1_flaky_device : ufat_device :=
  sim_device 9 s1_image (fail_block 9 (-1)) no_err.

(** The geometry of the S1 volume and the volume as [ufat_open] leaves it
    on [s1_device] (flag bits DIRTY = 1 and PRESENT = 2, a cache of 16
    slots): the boot sector sits in the last slot. *)
Definition s1_geometry : ufat_bpb :=
  mk_bpb UFAT_TYPE_FAT16 2 4 64 2 164 16345 132 32 0.

Definition s1_mounted : ufat :=
  mk_ufat s1_device s1_geometry (mk_stat 1 0 1 0 0 1) 1 16
          (replicate 15 zero_desc ++ [mk_desc 2 0 0])
          (replicate 15 [] ++ [s1_boot_sector])
          [IoRead 0 1 s1_boot_sector 0].

(** Geometries of a FAT32 and of a FAT12 volume. *)
Definition fat32_geometry : ufat_bpb :=
  mk_bpb UFAT_TYPE_FAT32 0 32 1024 2 2080 130000 2080 0 2.
Definition fat12_geometry : ufat_bpb :=
  mk_bpb UFAT_TYPE_FAT12 0 1 9 2 33 2849 19 14 0.

(** A FAT block whose entry for [cluster] is [entry]. *)
Definition fat_block16 (cluster : nat) (entry : Z) : list byte :=
  w16 (2 * cluster) entry (zero_block 512).
Definition fat_block32 (cluster : nat) (entry : Z) : list byte :=
  w32 (4 * cluster) entry (zero_block 512).

Definition fat_image (fat_blk : Z) (data : list byte) (blk : Z) : list byte :=
  if blk =? fat_blk then data else zero_block 512.

(** A volume with the given geometry, device and cache descriptors, one
    512-byte buffer per slot. *)
Definition test_volume (g : ufat_bpb) (d : ufat_device)
    (slots : list ufat_cache_desc) (buf : list byte) : ufat :=
  mk_ufat d g zero_stat 0 (Z.of_nat (length slots)) slots
          (replicate (length slots) buf) [].

(** S1 geometry, one cache slot that is PRESENT and DIRTY (flags 2 | 1) and
    holds block 4, the first block of the primary FAT. *)
Definition dirty_fat_block : list byte := fat_block16 5 0x1234.
Definition dirty_fat_volume (d : ufat_device) : ufat :=
  test_volume s1_geometry d [mk_desc 3 0 4] dirty_fat_block.

(** S1 with 100 in the 16-bit total-sectors field: fewer sectors than the
    164 that the reserved area, the two FATs and the root directory take. *)
Definition short_boot_sector : list byte :=
  w16 0x1fe 0xaa55
  (w16 0x016 64
  (w16 0x013 100
  (w16 0x011 512
  (w8 0x010 2
  (w16 0x00e 4
  (w8 0x00d 4
  (w16 0x00b 512 (zero_block 512)))))))).

(** A volume with an empty cache of two slots. *)
Definition empty_volume (g : ufat_bpb) (d : ufat_device) : ufat :=
  test_volume g d [zero_desc; zero_desc] (zero_block 512).

(** Devices: one that cannot write, one that cannot read, one whose reads
    fail with -5 (for instance a driver that returns [-EIO]), and disks
    whose FAT has a given entry. *)
Definition write_fail_device : ufat_device :=
  sim_device 9 s1_image no_err (always_err (-1)).
Definition read_fail_device : ufat_device :=
  sim_device 9 s1_image (always_err (-1)) no_err.
Definition fat16_device (cluster : nat) (entry : Z) : ufat_device :=
  sim_device 9 (fat_image 4 (fat_block16 cluster entry)) no_err no_err.
Definition fat32_device (cluster : nat) (entry : Z) : ufat_device :=
  sim_device 9 (fat_image 32 (fat_block32 cluster entry)) no_err no_err.

(** The S1 boot sector with nothing in the 32-bit total-sectors field, as
    it comes out when 65536 is stored into the 16-bit field and cut to 0. *)
Definition s1_cut_boot_sector : list byte :=
  w16 0x1fe 0xaa55
  (w16 0x016 64
  (w16 0x011 512
  (w8 0x010 2
  (w16 0x00e 4
  (w8 0x00d 4
  (w16 0x00b 512 (zero_block 512))))))).

(** A full cache of two slots: block 10 in slot 0, stamped 0 and with the
    flags [f0], and block 20 in slot 1, stamped 1; the next sequence
    number is 2. *)
Definition full_volume (d : ufat_device) (f0 : Z) : ufat :=
  mk_ufat d s1_geometry zero_stat 2 2
          [mk_desc f0 0 10; mk_desc 2 1 20]
          [zero_block 512; zero_block 512] [].

(** Statistics with every counter at its greatest value. *)
Definition full_stat : ufat_stat :=
  mk_stat 0xFFFFFFFF 0xFFFFFFFF 0xFFFFFFFF 0xFFFFFFFF 0xFFFFFFFF 0xFFFFFFFF.

(** A device on which every call fails, one with blocks of 16384 bytes,
    the S1 boot sector with one sector per cluster (scenario S3), and a
    boot sector without a signature. *)
Definition dead_device : ufat_device :=
  mk_device 9 (fun _ _ _ _ => (-1, [])) (fun _ _ _ _ => -1).
Definition big_block_device : ufat_device :=
  sim_device 14 s1_image no_err no_err.
Definition s3_boot_sector : list byte := w8 0x00d 1 s1_boot_sector.
Definition unsigned_boot_sector : list byte :=
  w16 0x00b 512 (zero_block 512).

(** No two PRESENT slots of a concrete two-slot cache carry one block. *)
Ltac two_slots_unique :=
  let i := fresh "i" in
  let j := fresh "j" in
  intros i j ? ? Hi Hj Hdi Hdj Hpi Hpj Hidx;
  simpl in Hi, Hj;
  assert (i = 0 \/ i = 1) as [-> | ->] by lia;
  assert (j = 0 \/ j = 1) as [-> | ->] by lia;
  try reflexivity;
  vm_compute in Hdi, Hdj; inversion Hdi; inversion Hdj; subst;
  vm_compute in Hpi, Hpj, Hidx; congruence.

Section Cache.

(** The constants of [ufat.h] whose value the spec does not give are
    parameters: the two flag bits, the two cache tunables and the two
    sentinel cluster values. *)
Variables UFAT_CACHE_FLAG_DIRTY UFAT_CACHE_FLAG_PRESENT : Z.
Variables UFAT_CACHE_BYTES UFAT_CACHE_MAX_BLOCKS : Z.
Variables UFAT_CLUSTER_EOC UFAT_CLUSTER_BAD : Z.

Definition is_present (d : ufat_cache_desc) : bool :=
  negb (Z.land (flags d) UFAT_CACHE_FLAG_PRESENT =? 0).
Definition is_dirty (d : ufat_cache_desc) : bool :=
  negb (Z.land (flags d) UFAT_CACHE_FLAG_DIRTY =? 0).

(** The mirror loop of [cache_flush], with [n] iterations left:
    [for (i = 1; i < fat_count; i++) { b += fat_size; write(d->index); ... }]. *)
Fixpoint mirror_loop (n : nat) (i b : Z) (d_index cache_index : Z)
    (uf : ufat) : ufat :=
  match n with
  | O => uf
  | S n' =>
      let b := b + fat_size (bpb uf) in
      let '(_, uf) :=
        call_write uf d_index (ufat_cache_data uf cache_index) in
      let uf := bump_write uf in
      mirror_loop n' (i + 1) b d_index cache_index uf
  end.

Definition cache_flush (uf : ufat) (cache_index : Z) : option (Z * ufat) :=
  d ← desc_at uf cache_index;
  if negb (is_dirty d) || negb (is_present d) then Some (0, uf) else
  let '(r, uf) :=
    call_write uf (index d) (ufat_cache_data uf cache_index) in
  if r <? 0 then Some (- UFAT_ERR_IO, uf) else
  let uf := bump_write uf in
  (* If this block is part of the FAT, mirror it to the other FATs. *)
  let uf :=
    if (index d >=? fat_start (bpb uf)) &&
       (index d <? fat_start (bpb uf) + fat_size (bpb uf)) then
      mirror_loop (Z.to_nat (fat_count (bpb uf) - 1)) 1 (index d)
                  (index d) cache_index uf
    else uf in
  Some (0, set_desc cache_index
             (mk_desc (Z.land (flags d) (Z.lnot UFAT_CACHE_FLAG_DIRTY))
                      (seq d) (index d)) uf).

(** The scan loop of [ufat_cache_open] at slot [i], with [n] iterations
    left. *)
Fixpoint scan_loop (n : nat) (i : Z) (oldest free oldest_age : Z)
    (uf : ufat) (blk_index : Z) : option scan_result :=
  match n with
  | O => Some (ScanMiss oldest free oldest_age)
  | S n' =>
      d ← desc_at uf i;
      let age := u32 (next_seq uf - seq d) in
      if is_present d && (index d =? blk_index) then
        let uf := set_desc i (mk_desc (flags d) (next_seq uf) (index d)) uf in
        let uf := set_next_seq (u32 (next_seq uf + 1)) uf in
        Some (ScanHit i (bump_hit uf))
      else
        let free := if negb (is_present d) then i else free in
        let '(oldest, oldest_age) :=
          if (oldest <? 0) || (age >? oldest_age) then (i, age)
          else (oldest, oldest_age) in
        scan_loop n' (i + 1) oldest free oldest_age uf blk_index
  end.

(** The tail of [ufat_cache_open] from the comment "Read it in" on, for the
    slot [i] that was chosen. *)
Definition read_in (uf : ufat) (blk_index i : Z) : option (Z * ufat) :=
  let '(err, uf) := call_read uf blk_index i in
  d ← desc_at uf i;
  if err <? 0 then
    Some (err, set_desc i (mk_desc 0 (seq d) (index d)) uf)
  else
    let uf :=
      set_desc i (mk_desc UFAT_CACHE_FLAG_PRESENT (next_seq uf) blk_index)
               uf in
    let uf := set_next_seq (u32 (next_seq uf + 1)) uf in
    Some (i, bump_miss uf).

Definition ufat_cache_open (uf : ufat) (blk_index : Z) : option (Z * ufat) :=
  r ← scan_loop (Z.to_nat (cache_size uf)) 0 (-1) (-1) 0 uf blk_index;
  match r with
  | ScanHit i uf => Some (i, uf)
  | ScanMiss oldest free _ =>
      (* We don't have the item. Find a place to put it. *)
      if free >=? 0 then
        read_in uf blk_index free
      else
        '(err, uf) ← cache_flush uf oldest;
        if err <? 0 then Some (err, uf) else
        read_in uf blk_index oldest
  end.

Definition read_bpb (uf : ufat) : option (Z * ufat) :=
  '(idx, uf) ← ufat_cache_open uf 0;
  if idx <? 0 then Some (idx, uf) else
  '(ret, ufb) ← parse_bpb (log2_block_size (dev uf)) (bpb uf)
                          (ufat_cache_data uf idx);
  Some (ret, set_bpb ufb uf).

(** [memset(&uf->cache_desc, 0, sizeof(uf->cache_desc))] clears every
    descriptor of the array. *)
Definition ufat_open (uf : ufat) (d : ufat_device) : option (Z * ufat) :=
  let uf := set_dev d uf in
  let uf := set_next_seq 0 uf in
  let uf :=
    set_cache_size (Z.shiftr UFAT_CACHE_BYTES (log2_block_size d)) uf in
  let uf :=
    if cache_size uf >? UFAT_CACHE_MAX_BLOCKS then
      set_cache_size UFAT_CACHE_MAX_BLOCKS uf
    else uf in
  if cache_size uf =? 0 then Some (- UFAT_ERR_BLOCK_SIZE, uf) else
  let uf := set_stat zero_stat uf in
  let uf :=
    set_cache_desc (replicate (length (cache_desc uf)) zero_desc) uf in
  read_bpb uf.

(** The loop of [ufat_sync] at slot [i], with [n] iterations left; it gives
    the final value of the local [ret]. *)
Fixpoint sync_loop (n : nat) (i : Z) (ret : Z) (uf : ufat)
    : option (Z * ufat) :=
  match n with
  | O => Some (ret, uf)
  | S n' =>
      '(err, uf) ← cache_flush uf i;
      let ret := if negb (err =? 0) then err else ret in
      sync_loop n' (i + 1) ret uf
  end.

Definition ufat_sync (uf : ufat) : option (Z * ufat) :=
  '(ret, uf) ← sync_loop (Z.to_nat (cache_size uf)) 0 0 uf;
  Some (0, uf).

Definition ufat_close (uf : ufat) : option ufat :=
  '(_, uf) ← ufat_sync uf; Some uf.

(** ** The FAT decoder

    [out] is the value of [*out] before the call; the result carries the
    return value, the value of [*out] after the call and the volume. *)
Definition read_fat12 (uf : ufat) (index out : Z) : option (Z * Z * ufat) :=
  Some (-1, out, uf).

Definition read_fat16 (uf : ufat) (index out : Z) : option (Z * Z * ufat) :=
  let shift := log2_block_size (dev uf) - 1 in
  let b := Z.shiftr index shift in
  let r := Z.land index (Z.shiftl 1 shift - 1) in
  '(i, uf) ← ufat_cache_open uf (fat_start (bpb uf) + b);
  if i <? 0 then Some (i, out, uf) else
  let raw := r16 (ufat_cache_data uf i) (r * 2) in
  if raw >=? 0xfff8 then Some (0, UFAT_CLUSTER_EOC, uf) else
  if raw >=? 0xfff0 then Some (0, UFAT_CLUSTER_BAD, uf) else
  Some (0, raw, uf).

Definition read_fat32 (uf : ufat) (index out : Z) : option (Z * Z * ufat) :=
  let shift := log2_block_size (dev uf) - 2 in
  let b := Z.shiftr index shift in
  let r := Z.land index (Z.shiftl 1 shift - 1) in
  '(i, uf) ← ufat_cache_open uf (fat_start (bpb uf) + b);
  if i <? 0 then Some (i, out, uf) else
  let raw := Z.land (r32 (ufat_cache_data uf i) (r * 4)) UFAT_CLUSTER_MASK in
  if raw >=? 0xffffff8 then Some (0, UFAT_CLUSTER_EOC, uf) else
  if raw >=? 0xffffff0 then Some (0, UFAT_CLUSTER_BAD, uf) else
  Some (0, raw, uf).

Definition ufat_read_fat (uf : ufat) (index out : Z)
    : option (Z * Z * ufat) :=
  if index >=? num_clusters (bpb uf) then
    Some (- UFAT_ERR_INVALID_CLUSTER, out, uf)
  else
    match type (bpb uf) with
    | UFAT_TYPE_FAT12 => read_fat12 uf index out
    | UFAT_TYPE_FAT16 => read_fat16 uf index out
    | UFAT_TYPE_FAT32 => read_fat32 uf index out
    end.

(** ** Sequences of cache opens *)

(** [run_opens uf bs] calls [ufat_cache_open] for the blocks [bs] in turn
    and collects the returned values. *)
Fixpoint run_opens (uf : ufat) (bs : list Z)
    : option (list Z * ufat) :=
  match bs with
  | [] => Some ([], uf)
  | b :: bs' =>
      '(r, uf) ← ufat_cache_open uf b;
      '(rs, uf) ← run_opens uf bs';
      Some (r :: rs, uf)
  end.


(** ** Predicates on the cache *)

(** The cache has at least one slot, and the descriptor array and the slot
    buffers cover [cache_size] slots (what [ufat_open] establishes). *)
Definition cache_wf (uf : ufat) : Prop :=
  0 < cache_size uf /\
  cache_size uf <= Z.of_nat (length (cache_desc uf)) /\
  cache_size uf <= Z.of_nat (length (cache_data uf)).

(** The descriptors of the [cache_size] slots in use. *)
Definition cache_slots (uf : ufat) : list ufat_cache_desc :=
  take (Z.to_nat (cache_size uf)) (cache_desc uf).

(** No slot is PRESENT. *)
Definition cache_empty (uf : ufat) : bool :=
  forallb (fun d => negb (is_present d)) (cache_slots uf).

(** Slot [i] is PRESENT and carries block [b]. *)
Definition block_present_at (uf : ufat) (b i : Z) : Prop :=
  0 <= i < cache_size uf /\
  exists d, desc_at uf i = Some d /\ is_present d = true /\ index d = b.

(** Some slot is PRESENT and carries block [b]. *)
Definition holds_block (uf : ufat) (b : Z) : bool :=
  existsb (fun d => is_present d && (index d =? b)) (cache_slots uf).

(** No two PRESENT slots carry the same block index. *)
Definition unique_present (uf : ufat) : Prop :=
  forall i j di dj,
    0 <= i < cache_size uf -> 0 <= j < cache_size uf ->
    desc_at uf i = Some di -> desc_at uf j = Some dj ->
    is_present di = true -> is_present dj = true ->
    index di = index dj -> i = j.

(** The block indices of the PRESENT slots, and how many different ones
    there are. *)
Definition present_indices (uf : ufat) : list Z :=
  index <$> filter (fun d => is_present d = true) (cache_slots uf).

Definition distinct_present (uf : ufat) : Z :=
  Z.of_nat (length (remove_dups (present_indices uf))).

(** The number of calls that returned a slot index. *)
Definition count_ok (rets : list Z) : Z :=
  Z.of_nat (length (filter (fun r => 0 <= r) rets)).

Definition hit_plus_miss (uf : ufat) : Z :=
  cache_hit (stat uf) + cache_miss (stat uf).

(** What a call that returned [r] did to the two cache counters: it
    incremented one of them when it returned a slot index, and neither
    when it returned an error. *)
Definition counted (uf : ufat) (r : Z) (uf' : ufat) : Prop :=
  if 0 <=? r then
    (cache_hit (stat uf') = stat_incr (cache_hit (stat uf)) /\
     cache_miss (stat uf') = cache_miss (stat uf)) \/
    (cache_hit (stat uf') = cache_hit (stat uf) /\
     cache_miss (stat uf') = stat_incr (cache_miss (stat uf)))
  else
    cache_hit (stat uf') = cache_hit (stat uf) /\
    cache_miss (stat uf') = cache_miss (stat uf).

(** The counters [cache_hit] and [cache_miss] hold the numbers [h] and [m]
    modulo [2 ^ 32]. *)
Definition tally (uf : ufat) (h m : Z) : Prop :=
  0 <= h /\ 0 <= m /\
  cache_hit (stat uf) = u32 h /\ cache_miss (stat uf) = u32 m.

(** The total sector count as [parse_bpb] takes it from a boot sector: the
    16-bit field, or the 32-bit one when the 16-bit field is 0. *)
Definition bpb_total_sectors (sector : list byte) : Z :=
  if r16 sector 0x013 =? 0 then r32 sector 0x020 else r16 sector 0x013.

(** The other sector counts as [parse_bpb] takes them from a boot sector,
    and the number of sectors that the reserved area, the FATs and the root
    directory take together. *)
Definition bpb_sectors_per_fat (sector : list byte) : Z :=
  if r16 sector 0x016 =? 0 then r32 sector 0x024 else r16 sector 0x016.

Definition bpb_root_sectors (sector : list byte) : Z :=
  (r16 sector 0x011 * UFAT_DIRENT_SIZE + r16 sector 0x00b - 1)
    / r16 sector 0x00b.

Definition bpb_used_sectors (sector : list byte) : Z :=
  r16 sector 0x00e + bpb_sectors_per_fat sector * byte_at sector 0x010 +
  bpb_root_sectors sector.

(** The decoding of a FAT16 entry and of a masked FAT32 entry. *)
Definition decode16 (raw : Z) : Z :=
  if raw >=? 0xfff8 then UFAT_CLUSTER_EOC
  else if raw >=? 0xfff0 then UFAT_CLUSTER_BAD else raw.

Definition decode32 (masked : Z) : Z :=
  if masked >=? 0xffffff8 then UFAT_CLUSTER_EOC
  else if masked >=? 0xffffff0 then UFAT_CLUSTER_BAD else masked.

(** What a flush leaves alone: everything but the write counters, the
    device history and the flags of the flushed slot. *)
Definition flush_frame (uf uf' : ufat) : Prop :=
  dev uf' = dev uf /\ bpb uf' = bpb uf /\ next_seq uf' = next_seq uf /\
  cache_size uf' = cache_size uf /\ cache_data uf' = cache_data uf /\
  cache_hit (stat uf') = cache_hit (stat uf) /\
  cache_miss (stat uf') = cache_miss (stat uf) /\
  length (cache_desc uf') = length (cache_desc uf).

(** A descriptor after a flush: at most its DIRTY bit was cleared. *)
Definition slot_kept (d d' : ufat_cache_desc) : Prop :=
  index d' = index d /\ seq d' = seq d /\
  (flags d' = flags d \/
   flags d' = Z.land (flags d) (Z.lnot UFAT_CACHE_FLAG_DIRTY)).

(** The writes in a device history. *)
Definition is_write_to (blk : Z) (e : io_event) : Prop :=
  match e with
  | IoWrite b _ _ _ => b = blk
  | IoRead _ _ _ _ => False
  end.

(** What [ufat_cache_open] leaves alone. *)
Definition open_frame (uf uf' : ufat) : Prop :=
  dev uf' = dev uf /\ bpb uf' = bpb uf /\
  cache_size uf' = cache_size uf /\
  length (cache_desc uf') = length (cache_desc uf) /\
  length (cache_data uf') = length (cache_data uf).

(** The ways a call [ufat_cache_open uf b] that returned [r] can have left
    the slot [k] it worked on ([dk] before, [dk'] after): a hit, a failed
    flush of the victim, a failed device read, or a fill. *)
Definition slot_outcome (uf : ufat) (b r : Z) (dk dk' : ufat_cache_desc)
    : Prop :=
  (0 <= r /\ is_present dk = true /\ index dk = b /\
   flags dk' = flags dk /\ index dk' = index dk) \/
  (r < 0 /\ slot_kept dk dk') \/
  (r < 0 /\ flags dk' = 0) \/
  (0 <= r /\ flags dk' = UFAT_CACHE_FLAG_PRESENT /\ index dk' = b /\
   forall j dj, 0 <= j < cache_size uf -> desc_at uf j = Some dj ->
                is_present dj = true -> index dj <> b).

Definition open_post (uf : ufat) (b r : Z) (uf' : ufat) : Prop :=
  open_frame uf uf' /\
  counted uf r uf' /\
  (r < 0 ->
   r = - UFAT_ERR_IO \/
   exists pre data, io_log uf' = pre ++ [IoRead b 1 data r]) /\
  exists k dk dk',
    0 <= k < cache_size uf /\ (0 <= r -> r = k) /\
    desc_at uf k = Some dk /\ desc_at uf' k = Some dk' /\
    (forall j, j <> k ->
               option_Forall2 slot_kept (desc_at uf j) (desc_at uf' j)) /\
    slot_outcome uf b r dk dk'.

(** The reads and writes of the device do not fail: every call of
    [dev->read] and of [dev->write] returns a value that is not negative. *)
Definition device_ok (d : ufat_device) : Prop :=
  forall log blk count buf,
    0 <= (dev_read d log blk count buf).1 /\
    0 <= dev_write d log blk count buf.

(** The number of PRESENT slots. *)
Definition present_count (uf : ufat) : Z :=
  Z.of_nat (length (filter (fun d => is_present d = true) (cache_slots uf))).

(** ** Further notions, for the properties of the cache and the parser *)

Definition is_write (e : io_event) : bool :=
  match e with
  | IoWrite _ _ _ _ => true
  | IoRead _ _ _ _ => false
  end.

(** The value a device call returned. *)
Definition event_ret (e : io_event) : Z :=
  match e with
  | IoWrite _ _ _ r => r
  | IoRead _ _ _ r => r
  end.

(** The test of [cache_flush] for a block of the primary FAT. *)
Definition in_fat (uf : ufat) (blk : Z) : bool :=
  (blk >=? fat_start (bpb uf)) &&
  (blk <? fat_start (bpb uf) + fat_size (bpb uf)).

(** The slot is both DIRTY and PRESENT: [cache_flush] has work to do. *)
Definition needs_flush (d : ufat_cache_desc) : bool :=
  is_dirty d && is_present d.

(** The age of a slot as the scan loop computes it. *)
Definition slot_age (uf : ufat) (d : ufat_cache_desc) : Z :=
  u32 (next_seq uf - seq d).

(** Every slot in use is PRESENT. *)
Definition cache_full (uf : ufat) : bool :=
  forallb is_present (cache_slots uf).

(** The flags and the block index of a descriptor are the same. *)
Definition same_block (d d' : ufat_cache_desc) : Prop :=
  flags d' = flags d /\ index d' = index d.

(** The read counters agree with the miss counter and the write counters
    with each other. *)
Definition stat_coherent (uf : ufat) : Prop :=
  stat_read (stat uf) = cache_miss (stat uf) /\
  read_blocks (stat uf) = cache_miss (stat uf) /\
  write_blocks (stat uf) = stat_write (stat uf).

(** What the scan loop knows about [free] and [oldest] when it is about to
    look at slot [i]: [free] is the last slot below [i] that is not
    PRESENT (-1 if there is none), and [oldest] is a slot below [i] of the
    greatest age, [a] (-1 before the first slot). *)
Definition free_inv (uf : ufat) (i f : Z) : Prop :=
  (f = -1 /\
   forall j d, 0 <= j < i -> desc_at uf j = Some d -> is_present d = true) \/
  (0 <= f < i /\
   (exists d, desc_at uf f = Some d /\ is_present d = false) /\
   forall j d, f < j < i -> desc_at uf j = Some d -> is_present d = true).

Definition oldest_inv (uf : ufat) (i o a : Z) : Prop :=
  (o = -1 /\ i <= 0) \/
  (0 <= o < i /\
   (exists d, desc_at uf o = Some d /\ a = slot_age uf d) /\
   forall j d, 0 <= j < i -> desc_at uf j = Some d -> slot_age uf d <= a).

(** The volume after [dev->read] of [blk] into the buffer of slot [i] has
    returned [ret] and left [buf] in the buffer; after a hit on slot [k]
    (descriptor [d]); and after slot [i] has been filled with [blk]. *)
Definition after_read (uf : ufat) (blk i ret : Z) (buf : list byte) : ufat :=
  set_io_log (io_log uf ++ [IoRead blk 1 buf ret])
    (set_cache_data (<[Z.to_nat i := buf]> (cache_data uf)) uf).

Definition after_hit (uf : ufat) (k : Z) (d : ufat_cache_desc) : ufat :=
  bump_hit
    (set_next_seq (u32 (next_seq uf + 1))
       (set_desc k (mk_desc (flags d) (next_seq uf) (index d)) uf)).

Definition after_fill (uf : ufat) (blk i : Z) : ufat :=
  bump_miss
    (set_next_seq (u32 (next_seq uf + 1))
       (set_desc i (mk_desc UFAT_CACHE_FLAG_PRESENT (next_seq uf) blk) uf)).

(** Slot [v] is the one a miss puts the block in: the last slot that is
    not PRESENT, or, when every slot is PRESENT, a slot of the greatest
    age. *)
Definition is_victim (uf : ufat) (v : Z) : Prop :=
  0 <= v < cache_size uf /\
  exists dv, desc_at uf v = Some dv /\
    ((is_present dv = false /\
      forall j dj, v < j < cache_size uf -> desc_at uf j = Some dj ->
                   is_present dj = true) \/
     (cache_full uf = true /\
      forall j dj, 0 <= j < cache_size uf -> desc_at uf j = Some dj ->
                   slot_age uf dj <= slot_age uf dv)).

(** The buffer a device call carried. *)
Definition event_data (e : io_event) : list byte :=
  match e with
  | IoWrite _ _ data _ => data
  | IoRead _ _ data _ => data
  end.

(** The device call did not fail. *)
Definition event_ok (e : io_event) : bool := 0 <=? event_ret e.

(** [e] is the write of the buffer of a slot in use that is PRESENT and
    DIRTY, to the block that slot carries. *)
Definition flushable_write (uf : ufat) (lo hi : Z) (e : io_event) : Prop :=
  exists j d ret,
    lo <= j < hi /\ desc_at uf j = Some d /\ needs_flush d = true /\
    e = IoWrite (index d) 1 (ufat_cache_data uf j) ret.

(** No slot in use is both PRESENT and DIRTY. *)
Definition cache_clean (uf : ufat) : Prop :=
  forall j d, 0 <= j < cache_size uf -> desc_at uf j = Some d ->
              needs_flush d = false.

(** The facts [parse_bpb] has checked and the fields it has derived when
    it returns 0 on [sector], for a block of [2 ^ l2] bytes; [lbps] and
    [lspc] are the logarithms of the bytes per sector and the sectors per
    cluster. *)
Definition bpb_parsed (l2 : Z) (sector : list byte) (ufb' : ufat_bpb)
    (lbps lspc : Z) : Prop :=
  0 <= lbps /\ 0 <= lspc /\
  r16 sector 0x00b = 2 ^ lbps /\ byte_at sector 0x00d = 2 ^ lspc /\
  9 <= l2 /\ r16 sector 0x1fe = 0xaa55 /\ byte_at sector 0x010 <> 0 /\
  fat_count ufb' = byte_at sector 0x010 /\
  root_start ufb' = fat_start ufb' + fat_size ufb' * fat_count ufb' /\
  cluster_start ufb' = root_start ufb' + root_size ufb' /\
  (lbps < l2 ->
   l2 - lbps <= lspc /\
   Z.land (Z.lor (Z.lor (r16 sector 0x00e) (bpb_sectors_per_fat sector))
                 (bpb_root_sectors sector))
          (Z.shiftl 1 (l2 - lbps) - 1) = 0 /\
   log2_blocks_per_cluster ufb' = lspc - (l2 - lbps) /\
   fat_start ufb' = Z.shiftr (r16 sector 0x00e) (l2 - lbps) /\
   fat_size ufb' = Z.shiftr (bpb_sectors_per_fat sector) (l2 - lbps) /\
   root_size ufb' = Z.shiftr (bpb_root_sectors sector) (l2 - lbps)) /\
  (l2 <= lbps ->
   log2_blocks_per_cluster ufb' = lspc + (lbps - l2) /\
   fat_start ufb' = Z.shiftl (r16 sector 0x00e) (lbps - l2) /\
   fat_size ufb' = u32 (Z.shiftl (bpb_sectors_per_fat sector) (lbps - l2)) /\
   root_size ufb' = u32 (Z.shiftl (bpb_root_sectors sector) (lbps - l2))) /\
  (bpb_root_sectors sector = 0 ->
   type ufb' = UFAT_TYPE_FAT32 /\
   root_cluster ufb' = Z.land (r32 sector 0x02c) UFAT_CLUSTER_MASK) /\
  (bpb_root_sectors sector <> 0 ->
   root_cluster ufb' = 0 /\
   type ufb' = if num_clusters ufb' <? 4085 then UFAT_TYPE_FAT12
               else UFAT_TYPE_FAT16).

(** The first reserved FAT entry value of a volume type: plain cluster
    numbers read from the FAT are below it. *)
Definition first_reserved (t : ufat_type) : Z :=
  match t with
  | UFAT_TYPE_FAT12 => 0xFF0
  | UFAT_TYPE_FAT16 => 0xFFF0
  | UFAT_TYPE_FAT32 => 0x0FFFFFF0
  end.

(** ** [ufat_strerror]

    Modelled from the spec: the last three error codes of the enum, in its
    order.  [UFAT_MAX_ERR], the size of the table, is a parameter. *)
Definition UFAT_ERR_NAME_TOO_LONG : Z := 6.
Definition UFAT_ERR_NOT_DIRECTORY : Z := 7.
Definition UFAT_ERR_NOT_FILE : Z := 8.

Variable UFAT_MAX_ERR : Z.

(** The table [text]: the entries with a designated initialiser; every
    other entry of the array is a null pointer, [None]. *)
Definition strerror_text (err : Z) : option String.string :=
  if err =? UFAT_OK then Some "No error"%string
  else if err =? UFAT_ERR_IO then Some "IO error"%string
  else if err =? UFAT_ERR_BLOCK_SIZE then Some "Invalid block size"%string
  else if err =? UFAT_ERR_INVALID_BPB then Some "Invalid BPB"%string
  else if err =? UFAT_ERR_BLOCK_ALIGNMENT then
    Some "Filesystem is not aligned for this block size"%string
  else if err =? UFAT_ERR_INVALID_CLUSTER then
    Some "Invalid cluster index"%string
  else if err =? UFAT_ERR_NAME_TOO_LONG then Some "Filename too long"%string
  else if err =? UFAT_ERR_NOT_DIRECTORY then Some "Not a directory"%string
  else if err =? UFAT_ERR_NOT_FILE then Some "Not a file"%string
  else None.

(** [err] is an [int].  The result is [None] for [INT_MIN], whose negation
    overflows (undefined behaviour), and otherwise the pointer returned. *)
Definition ufat_strerror (err : Z) : option (option String.string) :=
  if err =? - 2 ^ 31 then None else
  let err := if err <? 0 then - err else err in
  if err >=? UFAT_MAX_ERR then Some (Some "Invalid error code"%string)
  else Some (strerror_text err).

(** * Properties *)

(** ** Bytes and fields *)

Lemma byte_val_range (b : byte) : 0 <= byte_val b < 256.
Proof.
  unfold byte_val. pose proof (Byte.to_N_bounded b). lia.
Qed.

Lemma byte_at_range (p : list byte) (off : Z) : 0 <= byte_at p off < 256.
Proof.
  unfold byte_at. destruct (off <? 0); [lia | apply byte_val_range].
Qed.

(** ** Descriptor access *)

Lemma desc_at_Some uf i d :
  desc_at uf i = Some d ->
  0 <= i /\ cache_desc uf !! Z.to_nat i = Some d /\
  i < Z.of_nat (length (cache_desc uf)).
Proof.
  unfold desc_at. destruct (Z.ltb_spec i 0); [discriminate |].
  intros H'. split; [lia |]. split; [done |].
  apply lookup_lt_Some in H'. lia.
Qed.

Lemma desc_at_in_range uf i :
  0 <= i < Z.of_nat (length (cache_desc uf)) -> is_Some (desc_at uf i).
Proof.
  intros [H0 H1]. unfold desc_at.
  destruct (Z.ltb_spec i 0); [lia |].
  apply lookup_lt_is_Some. lia.
Qed.

Lemma desc_at_set_desc_eq uf i d :
  0 <= i < Z.of_nat (length (cache_desc uf)) ->
  desc_at (set_desc i d uf) i = Some d.
Proof.
  intros [H0 H1]. unfold desc_at, set_desc. simpl.
  destruct (Z.ltb_spec i 0); [lia |].
  apply list_lookup_insert_eq. lia.
Qed.

Lemma desc_at_set_desc_ne uf i j d :
  0 <= i -> i <> j -> desc_at (set_desc i d uf) j = desc_at uf j.
Proof.
  intros H0 Hne. unfold desc_at, set_desc. simpl.
  destruct (Z.ltb_spec j 0); [done |].
  apply list_lookup_insert_ne. lia.
Qed.

Lemma cache_slots_lookup uf i d :
  0 <= i < cache_size uf -> desc_at uf i = Some d -> d ∈ cache_slots uf.
Proof.
  intros Hi Hd. apply desc_at_Some in Hd as (_ & Hd & _).
  unfold cache_slots. apply list_elem_of_lookup. exists (Z.to_nat i).
  rewrite lookup_take_lt by lia. done.
Qed.

Lemma cache_slots_elem uf d :
  d ∈ cache_slots uf ->
  exists i, 0 <= i < cache_size uf /\ desc_at uf i = Some d.
Proof.
  unfold cache_slots. intros Hin.
  apply list_elem_of_lookup in Hin as [n Hn].
  pose proof (lookup_lt_Some _ _ _ Hn) as Hlt.
  rewrite length_take in Hlt.
  rewrite lookup_take_lt in Hn by lia.
  exists (Z.of_nat n). split; [lia |].
  unfold desc_at. destruct (Z.ltb_spec (Z.of_nat n) 0); [lia |].
  by rewrite Nat2Z.id.
Qed.

Lemma cache_empty_spec uf :
  cache_empty uf = true <->
  forall d, d ∈ cache_slots uf -> is_present d = false.
Proof.
  unfold cache_empty. rewrite forallb_forall. split.
  - intros H d Hd. apply negb_true_iff, H, list_elem_of_In, Hd.
  - intros H d Hd. apply negb_true_iff, H, list_elem_of_In, Hd.
Qed.

Lemma block_present_holds uf b i :
  block_present_at uf b i -> holds_block uf b = true.
Proof.
  intros (Hi & d & Hd & Hp & Hb). unfold holds_block.
  apply existsb_exists. exists d. split.
  - apply list_elem_of_In. by apply (cache_slots_lookup uf i).
  - rewrite Hp. simpl. lia.
Qed.


(** ** The scan loop of [ufat_cache_open] *)

Lemma scan_loop_total uf b n :
  forall i oldest free age,
    0 <= i -> i + Z.of_nat n <= Z.of_nat (length (cache_desc uf)) ->
    is_Some (scan_loop n i oldest free age uf b).
Proof.
  induction n as [|n IH]; intros i oldest free age Hi Hlen; simpl.
  - by eexists.
  - destruct (desc_at_in_range uf i) as [d Hd]; [lia |].
    rewrite Hd. simpl.
    destruct (is_present d && (index d =? b)); [by eexists |].
    destruct ((oldest <? 0) || (u32 (next_seq uf - seq d) >? age));
      apply IH; lia.
Qed.

Lemma scan_loop_hit uf b n :
  forall i oldest free age k uf',
    scan_loop n i oldest free age uf b = Some (ScanHit k uf') ->
    i <= k < i + Z.of_nat n /\
    exists d, desc_at uf k = Some d /\ is_present d = true /\ index d = b /\
      uf' = bump_hit
              (set_next_seq (u32 (next_seq uf + 1))
                 (set_desc k (mk_desc (flags d) (next_seq uf) (index d)) uf)).
Proof.
  induction n as [|n IH]; intros i oldest free age k uf' H; simpl in H.
  - discriminate.
  - destruct (desc_at uf i) as [d|] eqn:Hd; [|discriminate]. simpl in H.
    destruct (is_present d && (index d =? b)) eqn:Hhit.
    + inversion H; subst k uf'. clear H.
      apply andb_true_iff in Hhit as [Hp Hb]. apply Z.eqb_eq in Hb.
      split; [lia |]. exists d. done.
    + destruct ((oldest <? 0) || (u32 (next_seq uf - seq d) >? age));
        apply IH in H as [Hk Hrest]; (split; [lia | exact Hrest]).
Qed.

Lemma scan_loop_miss uf b n :
  forall i oldest free age o f a,
    0 <= i -> -1 <= free < i -> -1 <= oldest < i -> (0 < i -> 0 <= oldest) ->
    scan_loop n i oldest free age uf b = Some (ScanMiss o f a) ->
    -1 <= f < i + Z.of_nat n /\
    -1 <= o < i + Z.of_nat n /\
    (0 < i + Z.of_nat n -> 0 <= o) /\
    (forall j dj, i <= j < i + Z.of_nat n -> desc_at uf j = Some dj ->
                  is_present dj = true -> index dj <> b).
Proof.
  induction n as [|n IH]; intros i oldest free age o f a Hi Hf Ho Hpos H;
    simpl in H.
  - inversion H; subst. repeat split; try lia.
  - destruct (desc_at uf i) as [d|] eqn:Hd; [|discriminate]. simpl in H.
    destruct (is_present d && (index d =? b)) eqn:Hhit; [discriminate |].
    assert (Hstep : forall o1 f1 a1,
               -1 <= f1 < i + 1 -> -1 <= o1 < i + 1 -> 0 <= o1 ->
               scan_loop n (i + 1) o1 f1 a1 uf b = Some (ScanMiss o f a) ->
               -1 <= f < i + Z.of_nat (S n) /\
               -1 <= o < i + Z.of_nat (S n) /\
               (0 < i + Z.of_nat (S n) -> 0 <= o) /\
               (forall j dj, i <= j < i + Z.of_nat (S n) ->
                  desc_at uf j = Some dj ->
                  is_present dj = true -> index dj <> b)).
    { intros o1 f1 a1 Hf1 Ho1 Ho1' Hrun.
      apply IH in Hrun as (Hf' & Ho' & Hpos' & Hall); try lia.
      repeat split; try lia.
      intros j dj Hj Hdj Hp.
      destruct (Z.eq_dec j i) as [->|Hne].
      - rewrite Hd in Hdj. inversion Hdj; subst dj.
        rewrite Hp in Hhit. simpl in Hhit. apply Z.eqb_neq in Hhit. done.
      - apply (Hall j dj); [lia | done | done]. }
    destruct (Z.ltb_spec oldest 0) as [Hneg|Hnonneg]; simpl in H.
    + eapply Hstep; [| | | exact H]; destruct (negb (is_present d)); lia.
    + destruct (u32 (next_seq uf - seq d) >? age);
        (eapply Hstep; [| | | exact H]); destruct (negb (is_present d)); lia.
Qed.


(** ** [cache_flush] *)

Lemma mirror_loop_frame n :
  forall i b di ci uf,
    flush_frame uf (mirror_loop n i b di ci uf) /\
    cache_desc (mirror_loop n i b di ci uf) = cache_desc uf /\
    exists evs, io_log (mirror_loop n i b di ci uf) = io_log uf ++ evs /\
                Forall (is_write_to di) evs.
Proof.
  induction n as [|n IH]; intros i b di ci uf; simpl.
  - split; [by repeat split |]. split; [done |].
    exists []. by rewrite app_nil_r.
  - destruct (IH (i + 1) (b + fat_size (bpb uf)) di ci
                (bump_write
                   (set_io_log
                      (io_log uf ++
                       [IoWrite di 1 (ufat_cache_data uf ci)
                          (dev_write (dev uf) (io_log uf) di 1
                             (ufat_cache_data uf ci))]) uf)))
      as (Hfr & Hdesc & evs & Hlog & Hev).
    simpl in *. split; [exact Hfr |]. split; [exact Hdesc |].
    eexists. rewrite Hlog, <- app_assoc. split; [reflexivity |].
    simpl. constructor; [reflexivity | exact Hev].
Qed.

Lemma cache_flush_total uf k :
  is_Some (desc_at uf k) -> is_Some (cache_flush uf k).
Proof.
  intros [d Hd]. unfold cache_flush. rewrite Hd. simpl.
  destruct (negb (is_dirty d) || negb (is_present d)); [by eexists |].
  destruct (_ <? 0); by eexists.
Qed.

Lemma cache_flush_spec uf k r uf' :
  cache_flush uf k = Some (r, uf') ->
  flush_frame uf uf' /\
  (r = 0 \/ r = - UFAT_ERR_IO) /\
  (forall j, option_Forall2 slot_kept (desc_at uf j) (desc_at uf' j)) /\
  exists d evs, desc_at uf k = Some d /\
                io_log uf' = io_log uf ++ evs /\
                Forall (is_write_to (index d)) evs.
Proof.
  unfold cache_flush. intros H.
  destruct (desc_at uf k) as [d|] eqn:Hd; [|discriminate]. simpl in H.
  assert (Hrefl : forall u j, option_Forall2 slot_kept (desc_at u j) (desc_at u j)).
  { intros u j. destruct (desc_at u j); constructor.
    unfold slot_kept. auto. }
  destruct (negb (is_dirty d) || negb (is_present d)).
  { inversion H; subst. split; [by repeat split |]. split; [by left |].
    split; [apply Hrefl |]. exists d, []. by rewrite app_nil_r. }
  unfold call_write in H.
  set (w := dev_write (dev uf) (io_log uf) (index d) 1 (ufat_cache_data uf k)) in *.
  destruct (w <? 0).
  { inversion H; subst. simpl. split; [by repeat split |].
    split; [by right |]. split; [intros j; exact (Hrefl uf j) |].
    exists d. eexists. split; [done |]. split; [reflexivity |].
    constructor; [reflexivity | constructor]. }
  inversion H; subst r uf'. clear H.
  match goal with
  | |- context [set_desc k ?d' ?u] => set (u1 := u); set (d1 := d')
  end.
  assert (Hu1 : flush_frame uf u1 /\ cache_desc u1 = cache_desc uf /\
                exists evs, io_log u1 = io_log uf ++ evs /\
                            Forall (is_write_to (index d)) evs).
  { subst u1. simpl.
    destruct ((index d >=? fat_start (bpb uf)) &&
              (index d <? fat_start (bpb uf) + fat_size (bpb uf))).
    - match goal with
      | |- context [mirror_loop ?n ?i ?b ?di ?ci ?u] =>
          destruct (mirror_loop_frame n i b di ci u)
            as (Hfr & Hdesc & evs & Hlog & Hev)
      end.
      simpl in *. split; [exact Hfr |]. split; [exact Hdesc |].
      eexists. rewrite Hlog, <- app_assoc. split; [reflexivity |].
      simpl. constructor; [reflexivity | exact Hev].
    - simpl. split; [by repeat split |]. split; [done |].
      eexists. split; [reflexivity |].
      constructor; [reflexivity | constructor]. }
  destruct Hu1 as (Hfr & Hdesc & evs & Hlog & Hev).
  apply desc_at_Some in Hd as Hd'. destruct Hd' as (Hk0 & Hlk & Hklen).
  split.
  { destruct Hfr as (? & ? & ? & ? & ? & ? & ? & ?).
    unfold flush_frame, set_desc. simpl. rewrite length_insert.
    by repeat split. }
  split; [by left |]. split.
  - intros j. destruct (Z.eq_dec j k) as [->|Hne].
    + rewrite desc_at_set_desc_eq by (rewrite Hdesc; lia).
      rewrite Hd. constructor. subst d1. unfold slot_kept. simpl. auto.
    + rewrite desc_at_set_desc_ne by lia.
      unfold desc_at. rewrite Hdesc. apply Hrefl.
  - exists d, evs. done.
Qed.


(** Once the primary write has succeeded the flush returns 0 whatever the
    mirror writes return: their results are dropped. *)
Lemma cache_flush_mirror_result_ignored uf k d :
  desc_at uf k = Some d ->
  is_dirty d = true -> is_present d = true ->
  0 <= dev_write (dev uf) (io_log uf) (index d) 1 (ufat_cache_data uf k) ->
  exists uf', cache_flush uf k = Some (0, uf').
Proof.
  intros Hd Hdirty Hpresent Hw. unfold cache_flush, call_write.
  rewrite Hd. simpl. rewrite Hdirty, Hpresent. simpl.
  destruct (Z.ltb_spec (dev_write (dev uf) (io_log uf) (index d) 1
                          (ufat_cache_data uf k)) 0); [lia |].
  by eexists.
Qed.

(** ** [ufat_cache_open] *)

Lemma slot_kept_refl d : slot_kept d d.
Proof. unfold slot_kept. auto. Qed.

Lemma slots_kept_refl uf j :
  option_Forall2 slot_kept (desc_at uf j) (desc_at uf j).
Proof. destruct (desc_at uf j); constructor. apply slot_kept_refl. Qed.

Lemma read_in_total uf b i :
  is_Some (desc_at uf i) -> is_Some (read_in uf b i).
Proof.
  intros [d Hd]. unfold read_in, call_read.
  destruct (dev_read _ _ _ _ _) as [err buf].
  change (desc_at (set_io_log _ (set_cache_data _ uf)) i) with (desc_at uf i).
  rewrite Hd. simpl. destruct (err <? 0); by eexists.
Qed.

Lemma read_in_spec uf b i r uf' :
  read_in uf b i = Some (r, uf') ->
  open_frame uf uf' /\
  counted uf r uf' /\
  (r < 0 -> exists pre data, io_log uf' = pre ++ [IoRead b 1 data r]) /\
  (0 <= r -> r = i) /\
  (forall j, j <> i -> desc_at uf' j = desc_at uf j) /\
  exists d d', desc_at uf i = Some d /\ desc_at uf' i = Some d' /\
    ((r < 0 /\ flags d' = 0) \/
     (0 <= r /\ flags d' = UFAT_CACHE_FLAG_PRESENT /\ index d' = b)).
Proof.
  unfold read_in, call_read. intros H.
  destruct (dev_read _ _ _ _ _) as [err buf].
  change (desc_at (set_io_log _ (set_cache_data _ uf)) i)
    with (desc_at uf i) in H.
  destruct (desc_at uf i) as [d|] eqn:Hd; [|discriminate]. simpl in H.
  apply desc_at_Some in Hd as Hd'. destruct Hd' as (Hi0 & Hlk & Hilen).
  destruct (Z.ltb_spec err 0) as [Herr|Herr]; inversion H; subst r uf'; clear H.
  - split.
    { unfold open_frame, set_desc. simpl. rewrite !length_insert. done. }
    split.
    { unfold counted. destruct (Z.leb_spec 0 err); [lia |]. done. }
    split; [intros _; by eexists _, _ |].
    split; [lia |]. split.
    { intros j Hj. by rewrite desc_at_set_desc_ne. }
    exists d. eexists. split; [done |]. split.
    { apply desc_at_set_desc_eq. simpl. lia. }
    left. done.
  - split.
    { unfold open_frame, set_desc. simpl. rewrite !length_insert. done. }
    split.
    { unfold counted. destruct (Z.leb_spec 0 i); [| lia]. right. done. }
    split; [lia |]. split; [done |]. split.
    { intros j Hj.
      unfold desc_at, bump_miss, set_next_seq, set_desc. simpl.
      destruct (Z.ltb_spec j 0); [done |]. apply list_lookup_insert_ne. lia. }
    exists d. eexists. split; [done |]. split.
    { unfold desc_at, bump_miss, set_next_seq, set_desc. simpl.
      destruct (Z.ltb_spec i 0); [lia |].
      apply list_lookup_insert_eq. lia. }
    right. simpl. done.
Qed.

Lemma ufat_cache_open_total uf b :
  cache_wf uf -> is_Some (ufat_cache_open uf b).
Proof.
  intros (Hpos & Hdesc & Hdata). unfold ufat_cache_open.
  destruct (scan_loop_total uf b (Z.to_nat (cache_size uf)) 0 (-1) (-1) 0)
    as [res Hres]; [lia | lia |].
  rewrite Hres. simpl. destruct res as [k uf1 | o f a]; [by eexists |].
  apply scan_loop_miss in Hres as (Hf & Ho & Hopos & _); try lia.
  destruct (Z.geb_spec f 0) as [Hf0|Hf0].
  - apply read_in_total, desc_at_in_range. lia.
  - destruct (cache_flush_total uf o) as [[err uf1] Hfl].
    { apply desc_at_in_range. lia. }
    rewrite Hfl. simpl. destruct (err <? 0); [by eexists |].
    apply cache_flush_spec in Hfl as (Hfr & _).
    apply read_in_total, desc_at_in_range.
    destruct Hfr as (_ & _ & _ & _ & _ & _ & _ & Hlen). rewrite Hlen. lia.
Qed.


Lemma ufat_cache_open_spec uf b r uf' :
  ufat_cache_open uf b = Some (r, uf') -> open_post uf b r uf'.
Proof.
  unfold ufat_cache_open. intros H.
  destruct (scan_loop _ _ _ _ _ _ _) as [res|] eqn:Hscan; [|discriminate].
  simpl in H. destruct res as [k uf1 | o f a].
  - (* the block is in the cache *)
    inversion H; subst k uf1. clear H.
    apply scan_loop_hit in Hscan as (Hr & d & Hd & Hp & Hb & ->).
    apply desc_at_Some in Hd as Hd'. destruct Hd' as (_ & _ & Hlen).
    split.
    { unfold open_frame, set_desc. simpl. by rewrite length_insert. }
    split.
    { unfold counted. destruct (Z.leb_spec 0 r); [| lia]. left. done. }
    split; [lia |].
    exists r, d, (mk_desc (flags d) (next_seq uf) (index d)).
    split; [lia |]. split; [done |]. split; [done |]. split.
    { unfold desc_at, set_desc. simpl.
      destruct (Z.ltb_spec r 0); [lia |]. apply list_lookup_insert_eq. lia. }
    split.
    { intros j Hj.
      match goal with
      | |- option_Forall2 _ _ ?x =>
          assert (Heq : x = desc_at uf j)
      end.
      { unfold desc_at, set_desc. simpl.
        destruct (Z.ltb_spec j 0); [done |].
        apply list_lookup_insert_ne. lia. }
      rewrite Heq. apply slots_kept_refl. }
    left. simpl. repeat split; [lia | done | done].
  - apply scan_loop_miss in Hscan as (Hf & Ho & Hopos & Hnone); try lia.
    rewrite Z.add_0_l in Hf, Ho, Hopos.
    assert (Hfresh : Z.of_nat (Z.to_nat (cache_size uf)) > 0 ->
              forall j dj, 0 <= j < cache_size uf -> desc_at uf j = Some dj ->
                           is_present dj = true -> index dj <> b).
    { intros _ j dj Hj. apply Hnone. lia. }
    clear Hnone.
    destruct (Z.geb_spec f 0) as [Hf0|Hf0].
    + (* a free slot *)
      apply read_in_spec in H as (Hfr & Hst & Herr & Hri & Hoth & d & d' &
                                  Hd & Hd' & Hout).
      split; [done |]. split; [done |]. split; [auto |].
      exists f, d, d'. split; [lia |]. split; [done |].
      split; [done |]. split; [done |]. split.
      { intros j Hj. rewrite Hoth by done. apply slots_kept_refl. }
      destruct Hout as [[Hneg Hfl] | (Hpos & Hfl & Hidx)].
      * right. right. left. done.
      * right. right. right. repeat split; try done. apply Hfresh. lia.
    + (* the oldest slot is flushed and reused *)
      destruct (cache_flush uf o) as [[err uf1]|] eqn:Hflush; [|discriminate].
      simpl in H.
      apply cache_flush_spec in Hflush
        as (Hfr1 & Herr1 & Hkept & d & evs & Hd & _).
      destruct Hfr1 as (Hdev & Hbpb & Hseq & Hsize & Hdata & Hhit & Hmiss & Hlen).
      apply desc_at_Some in Hd as Hd0. destruct Hd0 as (Ho0 & _ & _).
      pose proof (Hkept o) as Hko. rewrite Hd in Hko.
      destruct (desc_at uf1 o) as [d1|] eqn:Hd1; [| inversion Hko].
      assert (Hk1 : slot_kept d d1) by (inversion Hko; done).
      destruct (Z.ltb_spec err 0) as [Hneg|Hnonneg].
      * inversion H; subst r uf'. clear H.
        split.
        { unfold open_frame. rewrite Hdev, Hbpb, Hsize, Hlen, Hdata. done. }
        split.
        { unfold counted. destruct (Z.leb_spec 0 err); [lia |]. done. }
        split.
        { intros _. left. unfold UFAT_ERR_IO in *. lia. }
        exists o, d, d1. split; [lia |]. split; [lia |].
        split; [done |]. split; [done |]. split; [auto |].
        right. left. done.
      * apply read_in_spec in H as (Hfr & Hst & Herr & Hri & Hoth & d2 & d' &
                                    Hd2 & Hd' & Hout).
        destruct Hfr as (Hdev' & Hbpb' & Hsize' & Hlen' & Hdata').
        split.
        { unfold open_frame.
          rewrite Hdev', Hbpb', Hsize', Hlen', Hdata'.
          rewrite Hdev, Hbpb, Hsize, Hlen, Hdata. done. }
        split.
        { unfold counted in *. by rewrite Hhit, Hmiss in Hst. }
        split; [auto |].
        exists o, d, d'. split; [lia |]. split; [done |].
        split; [done |]. split; [done |]. split.
        { intros j Hj. rewrite Hoth by done. apply Hkept. }
        destruct Hout as [[Hneg Hfl] | (Hpos & Hfl & Hidx)].
        -- right. right. left. done.
        -- right. right. right. repeat split; try done. apply Hfresh. lia.
Qed.


Lemma open_post_wf uf b r uf' :
  open_post uf b r uf' -> cache_wf uf -> cache_wf uf'.
Proof.
  intros ((_ & _ & Hsize & Hlen & Hdata) & _) (H0 & H1 & H2).
  unfold cache_wf. rewrite Hsize, Hlen, Hdata. done.
Qed.

(** ** Sequences of opens *)

Lemma count_ok_cons r rets :
  count_ok (r :: rets) = (if 0 <=? r then 1 else 0) + count_ok rets.
Proof.
  unfold count_ok. rewrite filter_cons.
  destruct (decide (0 <= r)) as [Hr|Hr].
  - destruct (Z.leb_spec 0 r); [| lia]. simpl. lia.
  - destruct (Z.leb_spec 0 r); [lia |]. lia.
Qed.

Lemma stat_incr_u32 c : stat_incr (u32 c) = u32 (c + 1).
Proof. unfold stat_incr, u32. by rewrite Zplus_mod_idemp_l. Qed.

Lemma counted_tally uf r uf' h m :
  counted uf r uf' -> tally uf h m ->
  exists h' m',
    tally uf' h' m' /\ h' + m' = h + m + (if 0 <=? r then 1 else 0).
Proof.
  unfold counted, tally. intros Hc (Hh & Hm & Hhit & Hmiss).
  destruct (0 <=? r).
  - destruct Hc as [[Hh' Hm'] | [Hh' Hm']].
    + exists (h + 1), m. rewrite Hh', Hm', Hhit, stat_incr_u32.
      repeat split; (done || lia).
    + exists h, (m + 1). rewrite Hh', Hm', Hmiss, stat_incr_u32.
      repeat split; (done || lia).
  - destruct Hc as [Hh' Hm']. exists h, m. rewrite Hh', Hm'.
    repeat split; (done || lia).
Qed.

Lemma run_opens_inv (Inv : ufat -> Prop) :
  (forall uf b r uf',
      cache_wf uf -> Inv uf -> ufat_cache_open uf b = Some (r, uf') ->
      Inv uf') ->
  forall bs uf,
    cache_wf uf -> Inv uf ->
    exists rets uf',
      run_opens uf bs = Some (rets, uf') /\ cache_wf uf' /\ Inv uf' /\
      (forall h m, tally uf h m ->
         exists h' m', tally uf' h' m' /\ h' + m' = h + m + count_ok rets) /\
      cache_size uf' = cache_size uf /\ length rets = length bs.
Proof.
  intros Hstep bs. induction bs as [|b bs IH]; intros uf Hwf Hinv; simpl.
  - exists [], uf. split; [done |]. split; [done |]. split; [done |].
    split; [| done]. intros h m Ht. exists h, m. split; [done |].
    unfold count_ok. rewrite filter_nil. simpl. lia.
  - destruct (ufat_cache_open_total uf b Hwf) as [[r uf1] Hopen].
    rewrite Hopen. simpl.
    pose proof (ufat_cache_open_spec _ _ _ _ Hopen) as Hpost.
    pose proof (open_post_wf _ _ _ _ Hpost Hwf) as Hwf1.
    pose proof (Hstep _ _ _ _ Hwf Hinv Hopen) as Hinv1.
    destruct (IH uf1 Hwf1 Hinv1)
      as (rets & uf' & Hrun & Hwf' & Hinv' & Hcnt & Hsize & Hlen).
    rewrite Hrun. simpl. exists (r :: rets), uf'.
    destruct Hpost as ((_ & _ & Hsize1 & _) & Hst & _).
    split; [done |]. split; [done |]. split; [done |]. split; [| split].
    + intros h m Ht.
      destruct (counted_tally _ _ _ _ _ Hst Ht) as (h1 & m1 & Ht1 & Hs1).
      destruct (Hcnt h1 m1 Ht1) as (h2 & m2 & Ht2 & Hs2).
      exists h2, m2. split; [done |]. rewrite count_ok_cons. lia.
    + congruence.
    + simpl. by rewrite Hlen.
Qed.

Lemma run_opens_snoc uf bs b :
  run_opens uf (bs ++ [b]) =
  '(rets, uf1) ← run_opens uf bs;
  '(r, uf2) ← ufat_cache_open uf1 b;
  Some (rets ++ [r], uf2).
Proof.
  revert uf. induction bs as [|b0 bs IH]; intros uf; simpl.
  - destruct (ufat_cache_open uf b) as [[r uf2]|]; done.
  - destruct (ufat_cache_open uf b0) as [[r0 uf0]|]; [|done]. simpl.
    rewrite IH. destruct (run_opens uf0 bs) as [[rets uf1]|]; [|done]. simpl.
    destruct (ufat_cache_open uf1 b) as [[r uf2]|]; done.
Qed.

Lemma length_remove_dups (l : list Z) :
  (length (remove_dups l) <= length l)%nat.
Proof.
  induction l as [|x l IH]; simpl; [lia |].
  destruct (decide_rel elem_of x l); simpl; lia.
Qed.

Lemma distinct_present_bound uf :
  0 <= cache_size uf -> distinct_present uf <= cache_size uf.
Proof.
  intros H. unfold distinct_present, present_indices, cache_slots.
  pose proof (length_remove_dups
    (index <$> filter (fun d => is_present d = true)
       (take (Z.to_nat (cache_size uf)) (cache_desc uf)))) as H1.
  rewrite length_fmap in H1.
  pose proof (length_filter (fun d => is_present d = true)
    (take (Z.to_nat (cache_size uf)) (cache_desc uf))) as H2.
  rewrite length_take in H2. lia.
Qed.

(** ** The invariant of the cache

    From here on the two flag bits are taken to be what the code relies
    on: PRESENT is not 0 and shares no bit with DIRTY. *)

Hypothesis present_nonzero : UFAT_CACHE_FLAG_PRESENT <> 0.
Hypothesis flags_disjoint :
  Z.land UFAT_CACHE_FLAG_PRESENT UFAT_CACHE_FLAG_DIRTY = 0.

Lemma clear_dirty_keeps_present f :
  Z.land (Z.land f (Z.lnot UFAT_CACHE_FLAG_DIRTY)) UFAT_CACHE_FLAG_PRESENT =
  Z.land f UFAT_CACHE_FLAG_PRESENT.
Proof.
  apply Z.bits_inj'. intros n Hn.
  rewrite !Z.land_spec, Z.lnot_spec by done.
  pose proof (f_equal (fun z => Z.testbit z n) flags_disjoint) as Hbit.
  simpl in Hbit. rewrite Z.land_spec, Z.bits_0 in Hbit.
  destruct (Z.testbit f n), (Z.testbit UFAT_CACHE_FLAG_DIRTY n),
    (Z.testbit UFAT_CACHE_FLAG_PRESENT n); simpl in *; congruence.
Qed.

Lemma slot_kept_present d d' :
  slot_kept d d' -> is_present d' = is_present d.
Proof.
  intros (_ & _ & [Hf|Hf]); unfold is_present; rewrite Hf; [done |].
  by rewrite clear_dirty_keeps_present.
Qed.

Lemma is_present_filled d :
  flags d = UFAT_CACHE_FLAG_PRESENT -> is_present d = true.
Proof.
  intros Hf. unfold is_present. rewrite Hf, Z.land_diag.
  apply negb_true_iff, Z.eqb_neq, present_nonzero.
Qed.

Lemma is_present_cleared d : flags d = 0 -> is_present d = false.
Proof. intros Hf. unfold is_present. by rewrite Hf, Z.land_0_l. Qed.

Lemma open_post_present uf b r uf' :
  open_post uf b r uf' -> 0 <= r -> block_present_at uf' b r.
Proof.
  intros ((_ & _ & Hsize & _) & _ & _ & k & dk & dk' & Hk & Hrk & Hdk & Hdk' &
          _ & Hout) Hr.
  specialize (Hrk Hr). subst k.
  split; [by rewrite Hsize |]. exists dk'. split; [done |].
  destruct Hout as [(_ & Hp & Hb & Hfl & Hidx) | [[Hneg _] | [[Hneg _] |
                    (_ & Hfl & Hidx & _)]]]; try lia.
  - split; [| congruence]. unfold is_present in *. by rewrite Hfl.
  - split; [by apply is_present_filled | done].
Qed.

Lemma open_post_unique uf b r uf' :
  open_post uf b r uf' -> unique_present uf -> unique_present uf'.
Proof.
  intros ((_ & _ & Hsize & _) & _ & _ & k & dk & dk' & Hk & _ & Hdk & Hdk' &
          Hoth & Hout) Huniq.
  (* a PRESENT slot other than [k] was PRESENT with the same index before *)
  assert (Hold : forall j dj', j <> k -> desc_at uf' j = Some dj' ->
            is_present dj' = true ->
            exists dj, desc_at uf j = Some dj /\ is_present dj = true /\
                       index dj = index dj').
  { intros j dj' Hj Hdj' Hp. pose proof (Hoth j Hj) as Hrel.
    rewrite Hdj' in Hrel. inversion Hrel as [dj ? Hkept |]; subst.
    exists dj. split; [done |]. split.
    - by rewrite <- (slot_kept_present _ _ Hkept).
    - destruct Hkept as (Hidx & _). done. }
  (* unless slot [k] was filled, the same holds for it *)
  assert (Hcases :
    (forall dj', desc_at uf' k = Some dj' -> is_present dj' = true ->
        exists dj, desc_at uf k = Some dj /\ is_present dj = true /\
                   index dj = index dj') \/
    (is_present dk' = true /\ index dk' = b /\
     forall j dj, 0 <= j < cache_size uf -> desc_at uf j = Some dj ->
                  is_present dj = true -> index dj <> b)).
  { destruct Hout as [(_ & Hp & Hb & Hfl & Hidx) | [[_ Hkept] | [[_ Hfl] |
                      (_ & Hfl & Hidx & Hfresh)]]].
    - left. intros dj' Hdj' _. rewrite Hdk' in Hdj'. inversion Hdj'; subst dj'.
      exists dk. done.
    - left. intros dj' Hdj' Hp. rewrite Hdk' in Hdj'. inversion Hdj'; subst dj'.
      exists dk. split; [done |]. split.
      + by rewrite <- (slot_kept_present _ _ Hkept).
      + destruct Hkept as (Hidx & _). done.
    - left. intros dj' Hdj' Hp. rewrite Hdk' in Hdj'. inversion Hdj'; subst dj'.
      rewrite (is_present_cleared _ Hfl) in Hp. discriminate.
    - right. split; [by apply is_present_filled | done]. }
  unfold unique_present. rewrite Hsize.
  intros i j di dj Hi Hj Hdi Hdj Hpi Hpj Heq.
  destruct Hcases as [Hk_old | (Hpk & Hbk & Hfresh)].
  - assert (Hall : forall x dx', desc_at uf' x = Some dx' ->
              is_present dx' = true ->
              exists dx, desc_at uf x = Some dx /\ is_present dx = true /\
                         index dx = index dx').
    { intros x dx' Hdx' Hpx. destruct (Z.eq_dec x k) as [->|Hne].
      - by apply Hk_old.
      - by apply Hold. }
    destruct (Hall i di Hdi Hpi) as (di0 & Hdi0 & Hpi0 & Hii).
    destruct (Hall j dj Hdj Hpj) as (dj0 & Hdj0 & Hpj0 & Hij).
    apply (Huniq i j di0 dj0); try done. congruence.
  - destruct (Z.eq_dec i k) as [->|Hik], (Z.eq_dec j k) as [->|Hjk]; try done.
    + rewrite Hdk' in Hdi. inversion Hdi; subst di.
      destruct (Hold j dj Hjk Hdj Hpj) as (dj0 & Hdj0 & Hpj0 & Hij).
      exfalso. apply (Hfresh j dj0 Hj Hdj0 Hpj0). congruence.
    + rewrite Hdk' in Hdj. inversion Hdj; subst dj.
      destruct (Hold i di Hik Hdi Hpi) as (di0 & Hdi0 & Hpi0 & Hii).
      exfalso. apply (Hfresh i di0 Hi Hdi0 Hpi0). congruence.
    + destruct (Hold i di Hik Hdi Hpi) as (di0 & Hdi0 & Hpi0 & Hii).
      destruct (Hold j dj Hjk Hdj Hpj) as (dj0 & Hdj0 & Hpj0 & Hij).
      apply (Huniq i j di0 dj0); try done. congruence.
Qed.

Lemma cache_empty_unique uf : cache_empty uf = true -> unique_present uf.
Proof.
  intros Hempty i j di dj Hi _ Hdi _ Hpi _ _.
  rewrite (proj1 (cache_empty_spec uf) Hempty di) in Hpi; [discriminate |].
  by apply (cache_slots_lookup uf i).
Qed.


(** ** Mounting *)

Lemma scan_loop_empty uf b n :
  forall i oldest free age,
    0 <= i -> i + Z.of_nat n <= Z.of_nat (length (cache_desc uf)) ->
    (forall j dj, i <= j < i + Z.of_nat n -> desc_at uf j = Some dj ->
                  is_present dj = false) ->
    exists o a,
      scan_loop n i oldest free age uf b =
      Some (ScanMiss o (if (n =? 0)%nat then free else i + Z.of_nat n - 1) a).
Proof.
  induction n as [|n IH]; intros i oldest free age Hi Hlen Hnone.
  - simpl. by eexists _, _.
  - cbn [scan_loop Nat.eqb].
    destruct (desc_at_in_range uf i) as [d Hd]; [lia |].
    rewrite Hd. simpl.
    rewrite (Hnone i d) by (done || lia). simpl.
    destruct ((oldest <? 0) || (u32 (next_seq uf - seq d) >? age)).
    + destruct (IH (i + 1) i i (u32 (next_seq uf - seq d)))
        as (o & a & Hrun); [lia | lia | |].
      { intros j dj Hj. apply Hnone. lia. }
      rewrite Hrun. exists o, a. destruct n; simpl; do 3 f_equal; lia.
    + destruct (IH (i + 1) oldest i age) as (o & a & Hrun); [lia | lia | |].
      { intros j dj Hj. apply Hnone. lia. }
      rewrite Hrun. exists o, a. destruct n; simpl; do 3 f_equal; lia.
Qed.

Lemma desc_at_zeroed uf n j dj :
  desc_at (set_cache_desc (replicate n zero_desc) uf) j = Some dj ->
  dj = zero_desc.
Proof.
  unfold desc_at. simpl. destruct (j <? 0); [discriminate |].
  intros H. apply lookup_replicate in H as [-> _]. done.
Qed.

Lemma is_present_zero_desc : is_present zero_desc = false.
Proof. unfold is_present. simpl. done. Qed.

Lemma ufat_open_mounted uf0 d uf :
  UFAT_CACHE_MAX_BLOCKS <= Z.of_nat (length (cache_desc uf0)) ->
  UFAT_CACHE_MAX_BLOCKS <= Z.of_nat (length (cache_data uf0)) ->
  ufat_open uf0 d = Some (0, uf) ->
  cache_wf uf /\ (exists h m, tally uf h m /\ h + m = 1) /\ dev uf = d.
Proof.
  intros Hdesc Hdata. unfold ufat_open.
  set (u0 := set_cache_size _ _).
  set (u1 := if cache_size u0 >? UFAT_CACHE_MAX_BLOCKS then _ else u0).
  assert (Hu1 : cache_size u1 <= UFAT_CACHE_MAX_BLOCKS /\
                cache_desc u1 = cache_desc uf0 /\
                cache_data u1 = cache_data uf0 /\ dev u1 = d).
  { subst u1. destruct (Z.gtb_spec (cache_size u0) UFAT_CACHE_MAX_BLOCKS);
      simpl; repeat split; (done || lia). }
  destruct Hu1 as (Hsz & Hcd & Hcdata & Hdev).
  destruct (cache_size u1 =? 0); [intros H; inversion H |].
  set (u2 := set_cache_desc _ _).
  unfold read_bpb.
  destruct (ufat_cache_open u2 0) as [[idx u3]|] eqn:Hopen; [|discriminate].
  simpl. apply ufat_cache_open_spec in Hopen
    as ((Hdev3 & _ & Hsize3 & Hlen3 & Hdata3) & Hst & _ & k & _ & _ & Hk & _).
  destruct (Z.ltb_spec idx 0) as [Hneg|Hnonneg].
  { intros H. inversion H. lia. }
  destruct (parse_bpb _ _ _) as [[ret ufb]|]; [|discriminate]. simpl.
  intros H. inversion H; subst ret uf. clear H.
  unfold cache_wf, tally, counted in *. simpl.
  rewrite Hsize3, Hlen3, Hdata3, Hdev3. subst u2. simpl in *.
  rewrite length_replicate, Hcd, Hcdata.
  destruct (Z.leb_spec 0 idx); [| lia].
  split; [repeat split; lia |]. split; [| done].
  destruct Hst as [[-> ->] | [-> ->]].
  - exists 1, 0. repeat split; (done || lia).
  - exists 0, 1. repeat split; (done || lia).
Qed.

(** C4 (amended).  On a mounted volume, after every sequence of
    [ufat_cache_open] calls, let [n] be the number of [ufat_cache_open]
    calls since the mount that returned a slot index, the call that the
    mount itself makes for block 0 included (calls that return an error
    are not counted).  The counters being unsigned 32-bit integers, the
    sum of [cache_hit] and [cache_miss] equals [n] modulo [2 ^ 32]; and as
    long as [n] is below [2 ^ 32], so that no counter has wrapped, the
    sum is [n] itself. *)
Theorem cache_hit_miss_counts (uf0 : ufat) (d : ufat_device) (uf : ufat)
    (bs : list Z) :
  UFAT_CACHE_MAX_BLOCKS <= Z.of_nat (length (cache_desc uf0)) ->
  UFAT_CACHE_MAX_BLOCKS <= Z.of_nat (length (cache_data uf0)) ->
  ufat_open uf0 d = Some (0, uf) ->
  exists rets uf',
    run_opens uf bs = Some (rets, uf') /\
    length rets = length bs /\
    u32 (hit_plus_miss uf') = u32 (1 + count_ok rets) /\
    (1 + count_ok rets < 2 ^ 32 -> hit_plus_miss uf' = 1 + count_ok rets).
Proof.
  intros Hdesc Hdata Hopen.
  destruct (ufat_open_mounted _ _ _ Hdesc Hdata Hopen)
    as (Hwf & (h & m & Ht & Hone) & _).
  destruct (run_opens_inv (fun _ => True) (fun _ _ _ _ _ _ _ => I) bs uf Hwf I)
    as (rets & uf' & Hrun & _ & _ & Hcnt & _ & Hlen).
  destruct (Hcnt h m Ht) as (h' & m' & (Hh & Hm & Hhit & Hmiss) & Hsum).
  exists rets, uf'. split; [done |]. split; [done |].
  unfold hit_plus_miss. rewrite Hhit, Hmiss. split.
  - unfold u32. rewrite <- Zplus_mod. f_equal. lia.
  - intros Hn. unfold u32. rewrite !Z.mod_small by lia. lia.
Qed.


Lemma parse_bpb_s1_geometry (ufb : ufat_bpb) (sector : list byte) :
  r16 sector 0x00b = 512 -> byte_at sector 0x00d = 4 ->
  r16 sector 0x00e = 4 -> byte_at sector 0x010 = 2 ->
  r16 sector 0x016 = 64 -> r16 sector 0x011 = 512 ->
  bpb_total_sectors sector = 65536 -> r16 sector 0x1fe = 0xaa55 ->
  exists ufb',
    parse_bpb 9 ufb sector = Some (0, ufb') /\
    type ufb' = UFAT_TYPE_FAT16 /\ root_size ufb' = 32 /\
    cluster_start ufb' = 164.
Proof.
  intros Hbps Hspc Hres Hnf Hspf Hroot Htot Hsig.
  unfold parse_bpb. rewrite Hbps, Hspc, Hres, Hnf, Hspf, Hroot, Hsig.
  change (if r16 sector 19 =? 0 then r32 sector 32 else r16 sector 19)
    with (bpb_total_sectors sector).
  rewrite Htot. eexists. split; [reflexivity |]. done.
Qed.


Lemma ufat_cache_open_empty uf b r buf :
  cache_wf uf -> cache_empty uf = true ->
  dev_read (dev uf) (io_log uf) b 1 (ufat_cache_data uf (cache_size uf - 1))
    = (r, buf) ->
  0 <= r ->
  exists uf',
    ufat_cache_open uf b = Some (cache_size uf - 1, uf') /\
    ufat_cache_data uf' (cache_size uf - 1) = buf /\
    dev uf' = dev uf /\ bpb uf' = bpb uf.
Proof.
  intros (Hpos & Hdesc & Hdata) Hempty Hread Hr. unfold ufat_cache_open.
  destruct (scan_loop_empty uf b (Z.to_nat (cache_size uf)) 0 (-1) (-1) 0)
    as (o & a & Hscan); [lia | lia | |].
  { intros j dj Hj Hdj.
    apply (proj1 (cache_empty_spec uf) Hempty), (cache_slots_lookup uf j);
      [lia | done]. }
  rewrite Hscan. simpl.
  destruct (Nat.eqb_spec (Z.to_nat (cache_size uf)) 0) as [Hz|_]; [lia |].
  replace (0 + Z.of_nat (Z.to_nat (cache_size uf)) - 1)
    with (cache_size uf - 1) by lia.
  destruct (Z.geb_spec (cache_size uf - 1) 0) as [_|Hlt]; [| lia].
  unfold read_in, call_read. rewrite Hread.
  change (desc_at (set_io_log _ (set_cache_data _ uf)) (cache_size uf - 1))
    with (desc_at uf (cache_size uf - 1)).
  destruct (desc_at_in_range uf (cache_size uf - 1)) as [d0 Hd0]; [lia |].
  rewrite Hd0. simpl.
  destruct (Z.ltb_spec r 0) as [Hneg|_]; [lia |].
  eexists. split; [reflexivity |].
  split; [| done].
  unfold ufat_cache_data. simpl.
  rewrite list_lookup_insert_eq by lia. done.
Qed.

(** C5.  Mounting a volume whose boot sector has bytes_per_sector = 512,
    sectors_per_cluster = 4, reserved_sector_count = 4, number_of_fats = 2,
    sectors_per_fat = 64, root_entries = 512, a total of 65536 sectors and
    the signature 0xAA55, on a device with log2_block_size = 9 whose read of
    block 0 delivers that sector, succeeds: [ufat_open] returns 0, the type
    is FAT16, [root_size] is 32 and [cluster_start] is 164.  (The cache
    tunables leave room for at least one 512-byte slot.) *)
Theorem mount_fat16_scenario (uf0 : ufat) (d : ufat_device)
    (sector : list byte) (r0 : Z) :
  log2_block_size d = 9 ->
  0 < Z.shiftr UFAT_CACHE_BYTES 9 ->
  0 < UFAT_CACHE_MAX_BLOCKS ->
  UFAT_CACHE_MAX_BLOCKS <= Z.of_nat (length (cache_desc uf0)) ->
  UFAT_CACHE_MAX_BLOCKS <= Z.of_nat (length (cache_data uf0)) ->
  (forall buf, dev_read d (io_log uf0) 0 1 buf = (r0, sector)) ->
  0 <= r0 ->
  r16 sector 0x00b = 512 -> byte_at sector 0x00d = 4 ->
  r16 sector 0x00e = 4 -> byte_at sector 0x010 = 2 ->
  r16 sector 0x016 = 64 -> r16 sector 0x011 = 512 ->
  bpb_total_sectors sector = 65536 -> r16 sector 0x1fe = 0xaa55 ->
  exists uf,
    ufat_open uf0 d = Some (0, uf) /\
    type (bpb uf) = UFAT_TYPE_FAT16 /\
    root_size (bpb uf) = 32 /\
    cluster_start (bpb uf) = 164.
Proof.
  intros Hl2 Hbytes Hmax Hdesc Hdata Hread Hr0
         Hbps Hspc Hres Hnf Hspf Hroot Htot Hsig.
  unfold ufat_open. rewrite Hl2.
  set (u0 := set_cache_size _ _).
  set (u1 := if cache_size u0 >? UFAT_CACHE_MAX_BLOCKS then _ else u0).
  assert (Hu1 : 0 < cache_size u1 <= UFAT_CACHE_MAX_BLOCKS /\
                cache_desc u1 = cache_desc uf0 /\
                cache_data u1 = cache_data uf0 /\ dev u1 = d /\
                io_log u1 = io_log uf0).
  { subst u1. destruct (Z.gtb_spec (cache_size u0) UFAT_CACHE_MAX_BLOCKS);
      subst u0; simpl in *; repeat split; (done || lia). }
  destruct Hu1 as (Hsz & Hcd & Hcdata & Hdev & Hlog).
  destruct (Z.eqb_spec (cache_size u1) 0) as [Hz|_]; [lia |].
  set (u2 := set_cache_desc _ _).
  destruct (ufat_cache_open_empty u2 0 r0 sector)
    as (u3 & Hopen & Hbuf & Hdev3 & Hbpb3).
  { unfold cache_wf. subst u2. simpl.
    rewrite length_replicate, Hcd, Hcdata. lia. }
  { apply cache_empty_spec. intros dj Hdj.
    apply cache_slots_elem in Hdj as (j & _ & Hdj).
    apply desc_at_zeroed in Hdj as ->. apply is_present_zero_desc. }
  { subst u2. simpl. rewrite Hdev, Hlog. apply Hread. }
  { done. }
  unfold read_bpb. rewrite Hopen. simpl.
  change (cache_size u2) with (cache_size u1).
  destruct (Z.ltb_spec (cache_size u1 - 1) 0) as [Hneg|_]; [lia |].
  change (cache_size u2) with (cache_size u1) in Hbuf.
  rewrite Hbuf, Hdev3. change (dev u2) with (dev u1). rewrite Hdev, Hl2.
  destruct (parse_bpb_s1_geometry (bpb u3) sector)
    as (ufb' & Hparse & Htype & Hrs & Hcs); try done.
  rewrite Hparse. simpl. eexists. split; [reflexivity |]. done.
Qed.


(** ** The FAT decoder *)

(** C6.  On a FAT32 volume, for an in-range cluster index whose FAT block
    the cache delivers (slot [i]), [ufat_read_fat] returns 0 and stores the
    decoding of the raw little-endian 32-bit entry masked with
    [UFAT_CLUSTER_MASK]: EOC when the masked value is at least 0x0FFFFFF8,
    BAD when it is at least 0x0FFFFFF0, and otherwise the masked value
    itself, which has no bit outside the mask; the raw entry
    0xF0000000 | 0x0000ABCD decodes to 0x0000ABCD. *)
Theorem read_fat32_masks (uf : ufat) (index out i : Z) (uf' : ufat) :
  type (bpb uf) = UFAT_TYPE_FAT32 ->
  index < num_clusters (bpb uf) ->
  ufat_cache_open uf
    (fat_start (bpb uf) + Z.shiftr index (log2_block_size (dev uf) - 2))
    = Some (i, uf') ->
  0 <= i ->
  let raw :=
    r32 (ufat_cache_data uf' i)
        (Z.land index (Z.shiftl 1 (log2_block_size (dev uf) - 2) - 1) * 4) in
  let masked := Z.land raw UFAT_CLUSTER_MASK in
  exists result,
    ufat_read_fat uf index out = Some (0, result, uf') /\
    (0x0FFFFFF8 <= masked -> result = UFAT_CLUSTER_EOC) /\
    (0x0FFFFFF0 <= masked < 0x0FFFFFF8 -> result = UFAT_CLUSTER_BAD) /\
    (masked < 0x0FFFFFF0 ->
     result = masked /\ Z.land result (Z.lnot UFAT_CLUSTER_MASK) = 0) /\
    (raw = Z.lor 0xF0000000 0x0000ABCD -> result = 0x0000ABCD).
Proof.
  intros Htype Hrange Hopen Hi raw masked.
  exists (decode32 masked).
  assert (Hmask : Z.land masked (Z.lnot UFAT_CLUSTER_MASK) = 0).
  { subst masked. rewrite <- Z.land_assoc, Z.land_lnot_diag.
    apply Z.land_0_r. }
  split.
  - unfold ufat_read_fat.
    destruct (Z.geb_spec index (num_clusters (bpb uf))) as [Hge|_]; [lia |].
    rewrite Htype. unfold read_fat32. rewrite Hopen. simpl.
    destruct (Z.ltb_spec i 0) as [Hneg|_]; [lia |].
    fold raw. fold masked. unfold decode32.
    destruct (masked >=? 268435448); [done |].
    destruct (masked >=? 268435440); done.
  - unfold decode32.
    destruct (Z.geb_spec masked 0xffffff8) as [H8|H8];
      [| destruct (Z.geb_spec masked 0xffffff0) as [H0|H0]].
    + repeat split; try lia. intros Hraw. exfalso.
      subst masked. rewrite Hraw in H8. vm_compute in H8. by apply H8.
    + repeat split; try lia. intros Hraw. exfalso.
      subst masked. rewrite Hraw in H0. vm_compute in H0. by apply H0.
    + repeat split; try lia; try done.
      intros Hraw. subst masked. rewrite Hraw. reflexivity.
Qed.

(** C7.  On a FAT16 volume, for an in-range cluster index whose FAT block
    the cache delivers (slot [i]), [ufat_read_fat] returns 0 and stores EOC
    when the raw little-endian 16-bit entry is at least 0xFFF8, BAD when it
    is at least 0xFFF0 and below 0xFFF8, and the raw value otherwise; so
    0xFFFF gives EOC, 0xFFF7 gives BAD and 0x1234 gives 0x1234. *)
Theorem read_fat16_decode (uf : ufat) (index out i : Z) (uf' : ufat) :
  type (bpb uf) = UFAT_TYPE_FAT16 ->
  index < num_clusters (bpb uf) ->
  ufat_cache_open uf
    (fat_start (bpb uf) + Z.shiftr index (log2_block_size (dev uf) - 1))
    = Some (i, uf') ->
  0 <= i ->
  let raw :=
    r16 (ufat_cache_data uf' i)
        (Z.land index (Z.shiftl 1 (log2_block_size (dev uf) - 1) - 1) * 2) in
  exists result,
    ufat_read_fat uf index out = Some (0, result, uf') /\
    (0xFFF8 <= raw -> result = UFAT_CLUSTER_EOC) /\
    (0xFFF0 <= raw < 0xFFF8 -> result = UFAT_CLUSTER_BAD) /\
    (raw < 0xFFF0 -> result = raw) /\
    (raw = 0xFFFF -> result = UFAT_CLUSTER_EOC) /\
    (raw = 0xFFF7 -> result = UFAT_CLUSTER_BAD) /\
    (raw = 0x1234 -> result = 0x1234).
Proof.
  intros Htype Hrange Hopen Hi raw.
  exists (decode16 raw). split.
  - unfold ufat_read_fat.
    destruct (Z.geb_spec index (num_clusters (bpb uf))) as [Hge|_]; [lia |].
    rewrite Htype. unfold read_fat16. rewrite Hopen. simpl.
    destruct (Z.ltb_spec i 0) as [Hneg|_]; [lia |].
    fold raw. unfold decode16.
    destruct (raw >=? 65528); [done |].
    destruct (raw >=? 65520); done.
  - unfold decode16.
    destruct (Z.geb_spec raw 0xfff8) as [H8|H8];
      [| destruct (Z.geb_spec raw 0xfff0) as [H0|H0]];
      repeat split; intros; lia.
Qed.



(** C9.  On a volume whose type is FAT12, [ufat_read_fat] with an in-range
    cluster index returns -1, which is [-UFAT_ERR_IO], and leaves the output
    parameter (and the volume) unchanged. *)
Theorem read_fat12_unimplemented (uf : ufat) (index out : Z) :
  type (bpb uf) = UFAT_TYPE_FAT12 ->
  index < num_clusters (bpb uf) ->
  ufat_read_fat uf index out = Some (-1, out, uf) /\
  -1 = - UFAT_ERR_IO.
Proof.
  intros Htype Hlt. unfold ufat_read_fat.
  destruct (Z.geb_spec index (num_clusters (bpb uf))) as [Hge|_]; [lia |].
  rewrite Htype. done.
Qed.

Lemma ufat_read_fat_total uf index out :
  cache_wf uf -> is_Some (ufat_read_fat uf index out).
Proof.
  intros Hwf. unfold ufat_read_fat.
  destruct (index >=? num_clusters (bpb uf)); [by eexists |].
  destruct (type (bpb uf)).
  - by eexists.
  - unfold read_fat16.
    match goal with
    | |- context [ufat_cache_open uf ?b] =>
        destruct (ufat_cache_open_total uf b Hwf) as [[i u] Hopen]
    end.
    rewrite Hopen. simpl. destruct (i <? 0); [by eexists |].
    destruct (_ >=? 65528); [by eexists |].
    destruct (_ >=? 65520); by eexists.
  - unfold read_fat32.
    match goal with
    | |- context [ufat_cache_open uf ?b] =>
        destruct (ufat_cache_open_total uf b Hwf) as [[i u] Hopen]
    end.
    rewrite Hopen. simpl. destruct (i <? 0); [by eexists |].
    destruct (_ >=? 268435448); [by eexists |].
    destruct (_ >=? 268435440); by eexists.
Qed.

(** ** [cache_flush] and [ufat_sync] as they are *)

Lemma sync_loop_total n :
  forall i ret uf,
    0 <= i -> i + Z.of_nat n <= Z.of_nat (length (cache_desc uf)) ->
    is_Some (sync_loop n i ret uf).
Proof.
  induction n as [|n IH]; intros i ret uf Hi Hlen; simpl; [by eexists |].
  destruct (cache_flush_total uf i) as [[err uf1] Hfl].
  { apply desc_at_in_range. lia. }
  rewrite Hfl. simpl.
  apply cache_flush_spec in Hfl as ((_ & _ & _ & _ & _ & _ & _ & Hl) & _).
  apply IH; [lia |]. rewrite Hl. lia.
Qed.

Lemma ufat_sync_returns_zero uf r uf' :
  ufat_sync uf = Some (r, uf') -> r = 0.
Proof.
  unfold ufat_sync.
  destruct (sync_loop _ _ _ _) as [[ret u]|]; [|discriminate].
  simpl. intros H. by inversion H.
Qed.

(** * Further properties of the code *)

(** ** [cache_flush] in full *)

Lemma mirror_loop_trace n :
  forall i b di ci uf,
    exists rets,
      length rets = n /\
      io_log (mirror_loop n i b di ci uf) =
        io_log uf ++ map (IoWrite di 1 (ufat_cache_data uf ci)) rets /\
      stat_write (stat (mirror_loop n i b di ci uf)) =
        Nat.iter n stat_incr (stat_write (stat uf)) /\
      write_blocks (stat (mirror_loop n i b di ci uf)) =
        Nat.iter n stat_incr (write_blocks (stat uf)) /\
      stat_read (stat (mirror_loop n i b di ci uf)) = stat_read (stat uf) /\
      read_blocks (stat (mirror_loop n i b di ci uf)) = read_blocks (stat uf).
Proof.
  induction n as [|n IH]; intros i b di ci uf.
  - exists []. simpl. rewrite app_nil_r. by repeat split.
  - cbn [mirror_loop]. unfold call_write.
    set (w := dev_write (dev uf) (io_log uf) di 1 (ufat_cache_data uf ci)).
    set (u1 := bump_write _).
    destruct (IH (i + 1) (b + fat_size (bpb uf)) di ci u1)
      as (rets & Hlen & Hlog & Hw & Hwb & Hr & Hrb).
    exists (w :: rets). rewrite Hlog, Hw, Hwb, Hr, Hrb, !Nat.iter_succ_r.
    subst u1. simpl. rewrite <- app_assoc. simpl.
    repeat split; (done || lia).
Qed.

Lemma iter_stat_incr n c :
  Nat.iter n stat_incr (stat_incr c) = u32 (c + 1 + Z.of_nat n).
Proof.
  induction n as [|n IH].
  - simpl. unfold stat_incr. f_equal. lia.
  - rewrite Nat.iter_succ, IH, stat_incr_u32. f_equal. lia.
Qed.

(** The three ways a flush ends: nothing to do; the primary write failed;
    the primary write succeeded, the mirror writes followed and DIRTY was
    cleared. *)
Lemma cache_flush_trace uf k r uf' :
  cache_flush uf k = Some (r, uf') ->
  exists d, desc_at uf k = Some d /\
    ((needs_flush d = false /\ r = 0 /\ uf' = uf) \/
     (needs_flush d = true /\ r = - UFAT_ERR_IO /\
      exists w, w < 0 /\
        uf' = set_io_log
                (io_log uf ++ [IoWrite (index d) 1 (ufat_cache_data uf k) w])
                uf) \/
     (needs_flush d = true /\ r = 0 /\
      exists w rets,
        0 <= w /\
        length rets =
          (if in_fat uf (index d) then Z.to_nat (fat_count (bpb uf) - 1)
           else 0%nat) /\
        io_log uf' =
          io_log uf ++
          map (IoWrite (index d) 1 (ufat_cache_data uf k)) (w :: rets) /\
        cache_desc uf' =
          <[Z.to_nat k :=
              mk_desc (Z.land (flags d) (Z.lnot UFAT_CACHE_FLAG_DIRTY))
                      (seq d) (index d)]> (cache_desc uf) /\
        stat_write (stat uf') =
          u32 (stat_write (stat uf) + 1 + Z.of_nat (length rets)) /\
        write_blocks (stat uf') =
          u32 (write_blocks (stat uf) + 1 + Z.of_nat (length rets)) /\
        stat_read (stat uf') = stat_read (stat uf) /\
        read_blocks (stat uf') = read_blocks (stat uf))).
Proof.
  unfold cache_flush. intros H.
  destruct (desc_at uf k) as [d|] eqn:Hd; [|discriminate]. simpl in H.
  exists d. split; [done |]. unfold needs_flush.
  destruct (is_dirty d), (is_present d); simpl in H;
    try (left; inversion H; done).
  right. unfold call_write in H.
  set (w := dev_write (dev uf) (io_log uf) (index d) 1 (ufat_cache_data uf k))
    in *.
  destruct (Z.ltb_spec w 0) as [Hneg|Hok].
  { left. inversion H; subst. split; [done |]. split; [done |].
    exists w. done. }
  right. inversion H; subst r uf'. clear H.
  split; [done |]. split; [done |]. unfold in_fat. simpl.
  destruct ((index d >=? fat_start (bpb uf)) &&
            (index d <? fat_start (bpb uf) + fat_size (bpb uf))).
  - match goal with
    | |- context [mirror_loop ?n ?i ?b ?di ?ci ?u] =>
        destruct (mirror_loop_trace n i b di ci u)
          as (rets & Hlen & Hlog & Hw & Hwb & Hr & Hrb);
        destruct (mirror_loop_frame n i b di ci u) as (_ & Hdesc & _)
    end.
    exists w, rets. simpl in *.
    rewrite Hlog, Hw, Hwb, Hr, Hrb, Hdesc, !iter_stat_incr, <- app_assoc.
    rewrite <- Hlen. simpl.
    repeat split; try done; lia.
  - exists w, []. simpl. unfold stat_incr.
    repeat split; try done; try lia; f_equal; lia.
Qed.

(** ** The scan loop in full *)

Lemma scan_loop_miss_inv uf b n :
  forall i oldest free age o f a,
    0 <= i -> free_inv uf i free -> oldest_inv uf i oldest age ->
    scan_loop n i oldest free age uf b = Some (ScanMiss o f a) ->
    free_inv uf (i + Z.of_nat n) f /\ oldest_inv uf (i + Z.of_nat n) o a.
Proof.
  induction n as [|n IH]; intros i oldest free age o f a Hi Hfree Hold H;
    simpl in H.
  - inversion H; subst. rewrite Z.add_0_r. done.
  - destruct (desc_at uf i) as [d|] eqn:Hd; [|discriminate]. simpl in H.
    destruct (is_present d && (index d =? b)) eqn:Hhit; [discriminate |].
    replace (i + Z.of_nat (S n)) with (i + 1 + Z.of_nat n) by lia.
    assert (Hfree' : free_inv uf (i + 1)
                       (if negb (is_present d) then i else free)).
    { destruct (is_present d) eqn:Hp; simpl.
      - destruct Hfree as [[-> Hall] | (Hf & Hnp & Hall)].
        + left. split; [done |]. intros j dj Hj Hdj.
          destruct (Z.eq_dec j i) as [->|Hne]; [congruence |].
          apply (Hall j); [lia | done].
        + right. split; [lia |]. split; [done |]. intros j dj Hj Hdj.
          destruct (Z.eq_dec j i) as [->|Hne]; [congruence |].
          apply (Hall j); [lia | done].
      - right. split; [lia |]. split; [by exists d |].
        intros j dj Hj. lia. }
    assert (Hage : slot_age uf d = u32 (next_seq uf - seq d)) by done.
    destruct (Z.ltb_spec oldest 0) as [Hneg|Hnonneg]; simpl in H.
    + eapply IH; [| exact Hfree' | | exact H]; [lia |].
      right. split; [lia |]. split; [by exists d |].
      intros j dj Hj Hdj.
      destruct Hold as [[_ Hi0] | (Ho & _)]; [| lia].
      assert (j = i) by lia. subst j. rewrite Hd in Hdj.
      inversion Hdj; subst dj. lia.
    + destruct Hold as [[Ho _] | (Ho & (dold & Hdold & Hage_old) & Hmax)];
        [lia |].
      destruct (Z.gtb_spec (u32 (next_seq uf - seq d)) age) as [Hgt|Hle].
      * eapply IH; [| exact Hfree' | | exact H]; [lia |].
        right. split; [lia |]. split; [by exists d |].
        intros j dj Hj Hdj.
        destruct (Z.eq_dec j i) as [->|Hne].
        -- rewrite Hd in Hdj. inversion Hdj; subst dj. lia.
        -- pose proof (Hmax j dj ltac:(lia) Hdj). lia.
      * eapply IH; [| exact Hfree' | | exact H]; [lia |].
        right. split; [lia |]. split; [by exists dold |].
        intros j dj Hj Hdj.
        destruct (Z.eq_dec j i) as [->|Hne].
        -- rewrite Hd in Hdj. inversion Hdj; subst dj. rewrite Hage. lia.
        -- apply (Hmax j dj); [lia | done].
Qed.

Lemma scan_loop_finds uf b k dk n :
  forall i oldest free age,
    0 <= i -> i <= k < i + Z.of_nat n ->
    desc_at uf k = Some dk -> is_present dk = true -> index dk = b ->
    (forall j dj, i <= j < k -> desc_at uf j = Some dj ->
                  is_present dj && (index dj =? b) = false) ->
    scan_loop n i oldest free age uf b =
    Some (ScanHit k
            (bump_hit
               (set_next_seq (u32 (next_seq uf + 1))
                  (set_desc k (mk_desc (flags dk) (next_seq uf) (index dk))
                     uf)))).
Proof.
  induction n as [|n IH]; intros i oldest free age Hi Hk Hdk Hp Hb Hbefore.
  - lia.
  - cbn [scan_loop].
    destruct (desc_at_in_range uf i) as [d Hd].
    { apply desc_at_Some in Hdk. lia. }
    rewrite Hd. simpl.
    destruct (Z.eq_dec i k) as [->|Hne].
    + rewrite Hd in Hdk. inversion Hdk; subst dk.
      rewrite Hp, Hb, Z.eqb_refl. simpl. done.
    + rewrite (Hbefore i d) by (done || lia).
      destruct ((oldest <? 0) || (u32 (next_seq uf - seq d) >? age));
        apply IH; try done; try lia;
        intros j dj Hj; apply Hbefore; lia.
Qed.

Lemma holds_block_false uf b :
  holds_block uf b = false <->
  forall j dj, 0 <= j < cache_size uf -> desc_at uf j = Some dj ->
               is_present dj && (index dj =? b) = false.
Proof.
  unfold holds_block. split.
  - intros H j dj Hj Hdj.
    destruct (is_present dj && (index dj =? b)) eqn:Hm; [| done].
    assert (existsb (fun d => is_present d && (index d =? b))
                    (cache_slots uf) = true) as Hex; [| congruence].
    apply existsb_exists. exists dj. split; [| done].
    apply list_elem_of_In. by apply (cache_slots_lookup uf j).
  - intros H.
    destruct (existsb _ (cache_slots uf)) eqn:Hex; [| done].
    apply existsb_exists in Hex as (d & Hin & Hm).
    apply list_elem_of_In, cache_slots_elem in Hin as (j & Hj & Hdj).
    rewrite (H j d Hj Hdj) in Hm. done.
Qed.

Lemma cache_full_spec uf :
  cache_full uf = true <->
  forall j dj, 0 <= j < cache_size uf -> desc_at uf j = Some dj ->
               is_present dj = true.
Proof.
  unfold cache_full. rewrite forallb_forall. split.
  - intros H j dj Hj Hdj.
    apply H, list_elem_of_In. by apply (cache_slots_lookup uf j).
  - intros H d Hin.
    apply list_elem_of_In, cache_slots_elem in Hin as (j & Hj & Hdj).
    by apply (H j).
Qed.

(** ** [ufat_cache_open] in full *)

Lemma read_in_explicit uf b v r uf' :
  read_in uf b v = Some (r, uf') ->
  exists d ret buf,
    desc_at uf v = Some d /\
    dev_read (dev uf) (io_log uf) b 1 (ufat_cache_data uf v) = (ret, buf) /\
    ((ret < 0 /\ r = ret /\
      uf' = set_desc v (mk_desc 0 (seq d) (index d))
              (after_read uf b v ret buf)) \/
     (0 <= ret /\ r = v /\ uf' = after_fill (after_read uf b v ret buf) b v)).
Proof.
  unfold read_in, call_read. intros H.
  destruct (dev_read _ _ _ _ _) as [ret buf].
  change (desc_at (set_io_log _ (set_cache_data _ uf)) v)
    with (desc_at uf v) in H.
  destruct (desc_at uf v) as [d|] eqn:Hd; [|discriminate]. simpl in H.
  exists d, ret, buf. split; [done |]. split; [done |].
  destruct (Z.ltb_spec ret 0); inversion H; subst; [left | right]; done.
Qed.

(** A call either hits the first PRESENT slot that carries the block, or
    the block is in no slot and the call works on the victim slot: when
    the cache is full the victim is flushed first, and the block is read
    in only if that flush did not fail. *)
Lemma ufat_cache_open_trace uf b r uf' :
  ufat_cache_open uf b = Some (r, uf') ->
  (exists d,
      0 <= r < cache_size uf /\ desc_at uf r = Some d /\
      is_present d = true /\ index d = b /\ uf' = after_hit uf r d) \/
  (holds_block uf b = false /\
   exists v rf u1,
     is_victim uf v /\
     ((cache_full uf = false /\ rf = 0 /\ u1 = uf) \/
      (cache_full uf = true /\ cache_flush uf v = Some (rf, u1))) /\
     ((rf < 0 /\ r = rf /\ uf' = u1) \/
      (0 <= rf /\ read_in u1 b v = Some (r, uf')))).
Proof.
  unfold ufat_cache_open. intros H.
  destruct (scan_loop _ _ _ _ _ _ _) as [res|] eqn:Hscan; [|discriminate].
  simpl in H. destruct res as [k uf1 | o f a].
  - left. inversion H; subst k uf1. clear H.
    apply scan_loop_hit in Hscan as (Hr & d & Hd & Hp & Hb & ->).
    exists d. split; [lia |]. done.
  - right.
    pose proof Hscan as Hbounds.
    apply scan_loop_miss in Hbounds as (Hf & Ho & Hopos & Hnone); try lia.
    apply scan_loop_miss_inv in Hscan as (Hfree & Hold); try lia.
    2:{ left. split; [done |]. intros; lia. }
    2:{ left. split; [done | lia]. }
    rewrite Z.add_0_l in *.
    assert (Hcs : Z.of_nat (Z.to_nat (cache_size uf)) > 0 ->
                  Z.of_nat (Z.to_nat (cache_size uf)) = cache_size uf) by lia.
    assert (Hmiss : 0 < cache_size uf -> holds_block uf b = false).
    { intros Hpos. apply holds_block_false. intros j dj Hj Hdj.
      destruct (is_present dj) eqn:Hp; [| done]. simpl.
      apply Z.eqb_neq, (Hnone j dj); [lia | done | done]. }
    destruct (Z.geb_spec f 0) as [Hf0|Hf0].
    + (* a free slot *)
      rewrite Hcs in * by lia.
      destruct Hfree as [[-> _] | (_ & (df & Hdf & Hnp) & Hlast)]; [lia |].
      split; [apply Hmiss; lia |].
      exists f, 0, uf. split.
      { split; [lia |]. exists df. split; [done |]. left. done. }
      split.
      { left. split; [| done].
        destruct (cache_full uf) eqn:Hfull; [| done].
        rewrite (proj1 (cache_full_spec uf) Hfull f df) in Hnp;
          [discriminate | lia | done]. }
      right. split; [lia | done].
    + (* the oldest slot *)
      destruct (cache_flush uf o) as [[err u1]|] eqn:Hflush; [|discriminate].
      simpl in H.
      pose proof (cache_flush_trace _ _ _ _ Hflush) as (d & Hd & _).
      apply desc_at_Some in Hd as Hd0. destruct Hd0 as (Ho0 & _ & _).
      rewrite Hcs in * by lia.
      destruct Hold as [[-> _] | (_ & (dv & Hdv & Hage) & Hmax)]; [lia |].
      destruct Hfree as [[_ Hall] | (Hfr & _)]; [| lia].
      assert (Hfull : cache_full uf = true) by (by apply cache_full_spec).
      split; [apply Hmiss; lia |].
      exists o, err, u1. split.
      { split; [lia |]. exists dv. split; [done |]. right.
        split; [done |]. intros j dj Hj Hdj. rewrite <- Hage.
        by apply (Hmax j). }
      split; [right; done |].
      destruct (Z.ltb_spec err 0).
      * left. inversion H; subst. done.
      * right. done.
Qed.

Lemma ufat_cache_open_hit_slot (uf : ufat) (b k : Z) :
  block_present_at uf b k ->
  (forall j dj, 0 <= j < k -> desc_at uf j = Some dj ->
                is_present dj = true -> index dj <> b) ->
  exists uf',
    ufat_cache_open uf b = Some (k, uf') /\
    io_log uf' = io_log uf /\
    cache_data uf' = cache_data uf /\
    cache_hit (stat uf') = u32 (cache_hit (stat uf) + 1) /\
    cache_miss (stat uf') = cache_miss (stat uf) /\
    stat_read (stat uf') = stat_read (stat uf) /\
    stat_write (stat uf') = stat_write (stat uf) /\
    read_blocks (stat uf') = read_blocks (stat uf) /\
    write_blocks (stat uf') = write_blocks (stat uf) /\
    forall j, option_Forall2 same_block (desc_at uf j) (desc_at uf' j).
Proof.
  intros (Hk & d & Hd & Hp & Hb) Hfirst.
  exists (after_hit uf k d). split.
  - unfold ufat_cache_open.
    rewrite (scan_loop_finds uf b k d); try done; try lia.
    intros j dj Hj Hdj.
    destruct (is_present dj) eqn:Hpj; [| done]. simpl.
    apply Z.eqb_neq. by apply (Hfirst j dj).
  - apply desc_at_Some in Hd as Hd'. destruct Hd' as (Hk0 & _ & Hlen).
    do 8 (split; [done |]).
    intros j. unfold after_hit.
    destruct (Z.eq_dec j k) as [->|Hne].
    + assert (Heq : desc_at
                (bump_hit
                   (set_next_seq (u32 (next_seq uf + 1))
                      (set_desc k (mk_desc (flags d) (next_seq uf) (index d))
                         uf))) k
              = Some (mk_desc (flags d) (next_seq uf) (index d))).
      { apply (desc_at_set_desc_eq uf k). lia. }
      rewrite Heq, Hd. constructor. done.
    + assert (Heq : desc_at
                (bump_hit
                   (set_next_seq (u32 (next_seq uf + 1))
                      (set_desc k (mk_desc (flags d) (next_seq uf) (index d))
                         uf))) j
              = desc_at uf j).
      { apply (desc_at_set_desc_ne uf k j); [lia | done]. }
      rewrite Heq. destruct (desc_at uf j); constructor. done.
Qed.

(** X1.  A block that is in the cache is served from it: when slot [k] is
    PRESENT with block [b] and no PRESENT slot before it carries [b] (so,
    in particular, when [k] is the only PRESENT slot that carries [b]),
    [ufat_cache_open] returns [k] without any device call; the buffers and
    every slot's flags and block index stay as they are; [cache_hit] is
    incremented, modulo [2 ^ 32] as the counter is an unsigned 32-bit
    integer, and the five other counters keep their values. *)
Theorem cache_open_hit (uf : ufat) (b k : Z) :
  block_present_at uf b k ->
  (forall j dj, 0 <= j < k -> desc_at uf j = Some dj ->
                is_present dj = true -> index dj <> b) ->
  exists uf',
    ufat_cache_open uf b = Some (k, uf') /\
    io_log uf' = io_log uf /\
    cache_data uf' = cache_data uf /\
    cache_hit (stat uf') = u32 (cache_hit (stat uf) + 1) /\
    cache_miss (stat uf') = cache_miss (stat uf) /\
    stat_read (stat uf') = stat_read (stat uf) /\
    stat_write (stat uf') = stat_write (stat uf) /\
    read_blocks (stat uf') = read_blocks (stat uf) /\
    write_blocks (stat uf') = write_blocks (stat uf) /\
    forall j, option_Forall2 same_block (desc_at uf j) (desc_at uf' j).
Proof. apply ufat_cache_open_hit_slot. Qed.

(** X2.  While some slot is not PRESENT, [ufat_cache_open] never writes to
    the device: it makes no device call at all (a hit) or exactly one, the
    read of the block asked for. *)
Theorem cache_open_free_slot_no_writeback (uf : ufat) (b r : Z) (uf' : ufat) :
  cache_full uf = false ->
  ufat_cache_open uf b = Some (r, uf') ->
  io_log uf' = io_log uf \/
  exists data ret, io_log uf' = io_log uf ++ [IoRead b 1 data ret].
Proof.
  intros Hfree Hopen.
  apply ufat_cache_open_trace in Hopen
    as [(d & _ & _ & _ & _ & ->) |
        (_ & v & rf & u1 & _ & [(_ & -> & ->) | (Hfull & _)] & Hrest)].
  - left. done.
  - destruct Hrest as [(Hneg & _) | (_ & Hread)]; [lia |].
    apply read_in_explicit in Hread
      as (d & ret & buf & _ & _ & [(_ & _ & ->) | (_ & _ & ->)]);
      right; by exists buf, ret.
  - congruence.
Qed.

(** X3.  Least recently used: when every slot is PRESENT and none carries
    the block, the slot that a successful [ufat_cache_open] returns, and
    thereby reuses, had the greatest age, ages being [next_seq - seq]
    modulo 2^32. *)
Theorem cache_open_evicts_oldest (uf : ufat) (b r : Z) (uf' : ufat) :
  cache_full uf = true -> holds_block uf b = false ->
  ufat_cache_open uf b = Some (r, uf') -> 0 <= r ->
  exists dr,
    desc_at uf r = Some dr /\
    forall j dj, 0 <= j < cache_size uf -> desc_at uf j = Some dj ->
                 slot_age uf dj <= slot_age uf dr.
Proof.
  intros Hfull Hmiss Hopen Hr.
  apply ufat_cache_open_trace in Hopen
    as [(d & Hrk & Hd & Hp & Hb & _) |
        (_ & v & rf & u1 & (Hv & dv & Hdv & Hvic) & _ & Hrest)].
  - rewrite (block_present_holds uf b r) in Hmiss; [discriminate |].
    split; [done |]. by exists d.
  - assert (r = v) as ->.
    { destruct Hrest as [(Hneg & -> & _) | (_ & Hread)]; [lia |].
      apply read_in_explicit in Hread
        as (d & ret & buf & _ & _ & [(? & ? & _) | (_ & ? & _)]); lia. }
    exists dv. split; [done |].
    destruct Hvic as [(Hnp & _) | (_ & Hmax)]; [| done].
    rewrite (proj1 (cache_full_spec uf) Hfull v dv) in Hnp;
      [discriminate | lia | done].
Qed.

Lemma cache_flush_keeps uf k r u1 :
  cache_flush uf k = Some (r, u1) ->
  dev u1 = dev uf /\ bpb u1 = bpb uf /\ next_seq u1 = next_seq uf /\
  cache_size u1 = cache_size uf /\ cache_data u1 = cache_data uf /\
  (exists n,
     stat u1 =
     mk_stat (stat_read (stat uf)) (Nat.iter n stat_incr (stat_write (stat uf)))
             (read_blocks (stat uf))
             (Nat.iter n stat_incr (write_blocks (stat uf)))
             (cache_hit (stat uf)) (cache_miss (stat uf))) /\
  exists evs, io_log u1 = io_log uf ++ evs /\ forallb is_write evs = true.
Proof.
  intros H.
  pose proof (cache_flush_spec _ _ _ _ H)
    as ((Hdev & Hbpb & Hseq & Hsize & Hdata & Hhit & Hmiss & _) & _).
  do 5 (split; [done |]).
  apply cache_flush_trace in H
    as (d & Hd & [(_ & _ & ->) | [(_ & _ & w & _ & ->) |
        (_ & _ & w & rets & _ & _ & Hlog & _ & Hw & Hwb & Hr & Hrb)]]).
  - split; [exists 0%nat; by destruct (stat uf) |].
    exists []. by rewrite app_nil_r.
  - split; [exists 0%nat; simpl; by destruct (stat uf) |].
    by eexists.
  - split.
    + exists (S (length rets)).
      rewrite !Nat.iter_succ_r, !iter_stat_incr.
      destruct (stat u1), (stat uf). simpl in *. congruence.
    + eexists. split; [exact Hlog |]. simpl.
      clear. induction rets; simpl; done.
Qed.

Lemma ufat_cache_open_rehit (uf : ufat) (b r : Z) (uf1 : ufat) :
  unique_present uf ->
  ufat_cache_open uf b = Some (r, uf1) -> 0 <= r ->
  exists uf2,
    ufat_cache_open uf1 b = Some (r, uf2) /\
    io_log uf2 = io_log uf1 /\
    cache_data uf2 = cache_data uf1.
Proof.
  intros Huniq Hopen Hr. apply ufat_cache_open_spec in Hopen.
  pose proof (open_post_present _ _ _ _ Hopen Hr) as Hpres.
  pose proof (open_post_unique _ _ _ _ Hopen Huniq) as Huniq1.
  destruct (ufat_cache_open_hit_slot uf1 b r)
    as (uf2 & Hopen2 & Hlog & Hdata & _).
  - done.
  - intros j dj Hj Hdj Hpj Hidx.
    destruct Hpres as (Hrk & d & Hd & Hp & Hb).
    assert (j = r); [| lia].
    apply (Huniq1 j r dj d); try done; try lia.
  - by exists uf2.
Qed.

(** X4.  Opening the same block twice: after a call that returned slot
    [r] for block [b], the next call for [b] returns [r] again and makes
    no device call; the buffers are untouched. *)
Theorem cache_open_again (uf : ufat) (b r : Z) (uf1 : ufat) :
  unique_present uf ->
  ufat_cache_open uf b = Some (r, uf1) -> 0 <= r ->
  exists uf2,
    ufat_cache_open uf1 b = Some (r, uf2) /\
    io_log uf2 = io_log uf1 /\
    cache_data uf2 = cache_data uf1.
Proof. apply ufat_cache_open_rehit. Qed.

(** X5.  A miss fills the slot from the device: when the block is in no
    slot and [ufat_cache_open] returns slot [r], the last device call was
    the read of the block, it did not fail, the buffer of slot [r] holds
    what that read delivered, no other buffer changed, and [read],
    [read_blocks] and [cache_miss] were each incremented once, modulo
    [2 ^ 32] as the counters are unsigned 32-bit integers, while
    [cache_hit] kept its value. *)
Theorem cache_open_miss_fills (uf : ufat) (b r : Z) (uf' : ufat) :
  cache_wf uf -> holds_block uf b = false ->
  ufat_cache_open uf b = Some (r, uf') -> 0 <= r ->
  exists pre data ret,
    io_log uf' = pre ++ [IoRead b 1 data ret] /\ 0 <= ret /\
    ufat_cache_data uf' r = data /\
    (forall j, 0 <= j -> j <> r ->
               ufat_cache_data uf' j = ufat_cache_data uf j) /\
    stat_read (stat uf') = u32 (stat_read (stat uf) + 1) /\
    read_blocks (stat uf') = u32 (read_blocks (stat uf) + 1) /\
    cache_miss (stat uf') = u32 (cache_miss (stat uf) + 1) /\
    cache_hit (stat uf') = cache_hit (stat uf).
Proof.
  intros (Hpos & Hdesc & Hdata) Hmiss Hopen Hr.
  apply ufat_cache_open_trace in Hopen
    as [(d & Hrk & Hd & Hp & Hb & _) |
        (_ & v & rf & u1 & (Hv & _) & Hplace & Hrest)].
  { rewrite (block_present_holds uf b r) in Hmiss; [discriminate |].
    split; [done |]. by exists d. }
  assert (Hu1 : cache_data u1 = cache_data uf /\
                stat_read (stat u1) = stat_read (stat uf) /\
                read_blocks (stat u1) = read_blocks (stat uf) /\
                cache_miss (stat u1) = cache_miss (stat uf) /\
                cache_hit (stat u1) = cache_hit (stat uf)).
  { destruct Hplace as [(_ & _ & ->) | (_ & Hflush)]; [done |].
    apply cache_flush_keeps in Hflush
      as (_ & _ & _ & _ & Hd1 & (w & Hst) & _).
    rewrite Hst. done. }
  destruct Hu1 as (Hd1 & Hr1 & Hrb1 & Hm1 & Hh1).
  destruct Hrest as [(Hneg & -> & _) | (_ & Hread)]; [lia |].
  apply read_in_explicit in Hread
    as (d & ret & buf & _ & _ & [(? & ? & _) | (Hret & -> & ->)]); [lia |].
  exists (io_log u1), buf, ret. split; [done |]. split; [done |].
  unfold ufat_cache_data. simpl. rewrite Hd1. split.
  { rewrite list_lookup_insert_eq by lia. done. }
  split.
  { intros j Hj Hne. rewrite list_lookup_insert_ne by lia. done. }
  rewrite Hr1, Hrb1, Hm1, Hh1. done.
Qed.

Lemma ufat_cache_open_failed (uf : ufat) (b r : Z) (uf' : ufat) :
  ufat_cache_open uf b = Some (r, uf') -> r < 0 ->
  exists v dv,
    is_victim uf v /\ desc_at uf v = Some dv /\
    ((r = - UFAT_ERR_IO /\ needs_flush dv = true /\
      cache_desc uf' = cache_desc uf /\ cache_data uf' = cache_data uf /\
      stat uf' = stat uf /\ next_seq uf' = next_seq uf /\
      exists w, w < 0 /\
        io_log uf' =
        io_log uf ++ [IoWrite (index dv) 1 (ufat_cache_data uf v) w]) \/
     (exists pre data dv',
        io_log uf' = pre ++ [IoRead b 1 data r] /\
        desc_at uf' v = Some dv' /\ flags dv' = 0 /\
        next_seq uf' = next_seq uf)).
Proof.
  intros Hopen Hr.
  apply ufat_cache_open_trace in Hopen
    as [(d & Hrk & _) |
        (_ & v & rf & u1 & Hvic & Hplace & Hrest)]; [lia |].
  pose proof Hvic as (Hv & dv & Hdv & _).
  exists v, dv. split; [done |]. split; [done |].
  assert (Hread_fail : forall u,
            read_in u b v = Some (r, uf') -> next_seq u = next_seq uf ->
            exists pre data dv',
              io_log uf' = pre ++ [IoRead b 1 data r] /\
              desc_at uf' v = Some dv' /\ flags dv' = 0 /\
              next_seq uf' = next_seq uf).
  { intros u Hread Hseq.
    apply read_in_explicit in Hread
      as (d & ret & buf & Hd & _ & [(Hret & -> & ->) | (_ & ? & _)]); [| lia].
    exists (io_log u), buf, (mk_desc 0 (seq d) (index d)).
    split; [done |]. split; [| done].
    apply desc_at_Some in Hd as (? & _ & ?).
    apply (desc_at_set_desc_eq (after_read u b v ret buf) v). simpl. lia. }
  destruct Hplace as [(_ & -> & ->) | (_ & Hflush)].
  - destruct Hrest as [(Hneg & _) | (_ & Hread)]; [lia |].
    right. by apply (Hread_fail uf).
  - destruct Hrest as [(Hneg & -> & ->) | (Hok & Hread)].
    + left.
      apply cache_flush_trace in Hflush
        as (d & Hd & [(_ & ? & _) | [(Hneed & Hio & w & Hw & ->) |
                                     (_ & ? & _)]]); try lia.
      rewrite Hdv in Hd. inversion Hd; subst d.
      do 6 (split; [done |]). by exists w.
    + right. apply (Hread_fail u1); [done |].
      by apply cache_flush_keeps in Hflush as (_ & _ & ? & _).
Qed.


(** ** The cache over a sequence of opens *)

Lemma cache_flush_device_failed uf k r uf' :
  cache_flush uf k = Some (r, uf') -> r < 0 ->
  exists blk buf, dev_write (dev uf) (io_log uf) blk 1 buf < 0.
Proof.
  unfold cache_flush, call_write. intros H Hr.
  destruct (desc_at uf k) as [d|]; [|discriminate]. simpl in H.
  destruct (negb (is_dirty d) || negb (is_present d)); [inversion H; lia |].
  destruct (Z.ltb_spec (dev_write (dev uf) (io_log uf) (index d) 1
                          (ufat_cache_data uf k)) 0) as [Hw|Hw].
  - by eexists _, _.
  - inversion H. lia.
Qed.

(** On a device that does not fail, every [ufat_cache_open] returns a slot
    index. *)
Lemma ufat_cache_open_device_ok uf b r uf' :
  device_ok (dev uf) -> ufat_cache_open uf b = Some (r, uf') -> 0 <= r.
Proof.
  intros Hok Hopen.
  apply ufat_cache_open_trace in Hopen
    as [(d & Hrk & _) | (_ & v & rf & u1 & (Hv & _) & Hplace & Hrest)];
    [lia |].
  assert (Hdev : dev u1 = dev uf).
  { destruct Hplace as [(_ & _ & ->) | (_ & Hflush)]; [done |].
    by apply cache_flush_keeps in Hflush as (Hdev & _). }
  destruct Hrest as [(Hneg & -> & _) | (_ & Hread)].
  - destruct Hplace as [(_ & -> & _) | (_ & Hflush)]; [lia |].
    destruct (cache_flush_device_failed _ _ _ _ Hflush Hneg)
      as (blk & buf & Hw).
    destruct (Hok (io_log uf) blk 1 buf) as [_ Hw']. lia.
  - apply read_in_explicit in Hread
      as (d & ret & buf & _ & Hdr & [(Hneg & -> & _) | (_ & -> & _)]).
    + destruct (Hok (io_log u1) b 1 (ufat_cache_data u1 v)) as [Hr' _].
      rewrite <- Hdev in Hr'. rewrite Hdr in Hr'. simpl in Hr'. lia.
    + lia.
Qed.

(** A call that returns an error made at least one device call, and the
    last one it made returned a negative value. *)
Lemma ufat_cache_open_fail_log uf b r uf' :
  ufat_cache_open uf b = Some (r, uf') -> r < 0 ->
  exists evs e, io_log uf' = io_log uf ++ evs ++ [e] /\ event_ret e < 0.
Proof.
  intros Hopen Hr.
  apply ufat_cache_open_trace in Hopen
    as [(d & Hrk & _) | (_ & v & rf & u1 & (Hv & _) & Hplace & Hrest)];
    [lia |].
  assert (Hlog1 : exists evs, io_log u1 = io_log uf ++ evs).
  { destruct Hplace as [(_ & _ & ->) | (_ & Hflush)].
    - exists []. by rewrite app_nil_r.
    - apply cache_flush_keeps in Hflush
        as (_ & _ & _ & _ & _ & _ & evs & Hlog & _).
      by exists evs. }
  destruct Hlog1 as (evs1 & Hlog1).
  destruct Hrest as [(Hneg & -> & ->) | (_ & Hread)].
  - destruct Hplace as [(_ & -> & _) | (_ & Hflush)]; [lia |].
    apply cache_flush_trace in Hflush
      as (d & _ & [(_ & ? & _) | [(_ & _ & w & Hw & ->) | (_ & ? & _)]]);
      try lia.
    exists [], (IoWrite (index d) 1 (ufat_cache_data uf v) w). done.
  - apply read_in_explicit in Hread
      as (d & ret & buf & _ & _ & [(Hneg & -> & ->) | (_ & -> & _)]).
    + exists evs1, (IoRead b 1 buf ret). simpl. rewrite Hlog1.
      by rewrite <- app_assoc.
    + lia.
Qed.

(** A block that is in the cache after a call was there before, or is the
    block the call asked for. *)
Lemma open_post_origin uf b r uf' x :
  open_post uf b r uf' ->
  holds_block uf' x = true -> holds_block uf x = true \/ x = b.
Proof.
  intros ((_ & _ & Hsize & _) & _ & _ & k & dk & dk' & Hk & _ & Hdk & Hdk' &
          Hoth & Hout) Hholds.
  unfold holds_block in Hholds. apply existsb_exists in Hholds
    as (d' & Hin & Hd').
  apply andb_true_iff in Hd' as [Hp Hidx]. apply Z.eqb_eq in Hidx.
  apply list_elem_of_In, cache_slots_elem in Hin as (j & Hj & Hdj).
  rewrite Hsize in Hj.
  destruct (Z.eq_dec j k) as [->|Hne].
  - rewrite Hdk' in Hdj. inversion Hdj; subst d'. clear Hdj.
    destruct Hout as [(_ & Hpk & Hb & Hfl & Hi) | [[_ Hkept] | [[_ Hfl] |
                      (_ & Hfl & Hi & _)]]].
    + left. apply (block_present_holds uf x k). split; [done |].
      exists dk. split; [done |]. split; [done |]. congruence.
    + left. apply (block_present_holds uf x k). split; [done |].
      exists dk. split; [done |]. split.
      * by rewrite <- (slot_kept_present _ _ Hkept).
      * destruct Hkept as (Hi & _). congruence.
    + rewrite (is_present_cleared _ Hfl) in Hp. discriminate.
    + right. congruence.
  - left. pose proof (Hoth j Hne) as Hrel. rewrite Hdj in Hrel.
    inversion Hrel as [dj ? Hkept |]; subst.
    apply (block_present_holds uf (index d') j). split; [done |].
    exists dj. split; [done |]. split.
    + by rewrite <- (slot_kept_present _ _ Hkept).
    + by destruct Hkept as (Hi & _).
Qed.

Lemma run_opens_origin bs :
  forall uf rets uf' x,
    run_opens uf bs = Some (rets, uf') ->
    holds_block uf' x = true -> holds_block uf x = true \/ x ∈ bs.
Proof.
  induction bs as [|b bs IH]; intros uf rets uf' x Hrun Hholds; simpl in Hrun.
  - inversion Hrun; subst. by left.
  - destruct (ufat_cache_open uf b) as [[r u1]|] eqn:Hopen; [|discriminate].
    simpl in Hrun.
    destruct (run_opens u1 bs) as [[rs u2]|] eqn:Hrest; [|discriminate].
    simpl in Hrun. inversion Hrun; subst rets uf'. clear Hrun.
    destruct (IH u1 rs u2 x Hrest Hholds) as [H1|Hin].
    + apply ufat_cache_open_spec in Hopen.
      destruct (open_post_origin _ _ _ _ x Hopen H1) as [H0| ->].
      * by left.
      * right. apply list_elem_of_here.
    + right. by apply list_elem_of_further.
Qed.

Lemma cache_empty_holds uf x :
  cache_empty uf = true -> holds_block uf x = false.
Proof.
  intros Hempty. unfold holds_block.
  destruct (existsb _ _) eqn:He; [| done].
  apply existsb_exists in He as (d & Hin & Hd).
  apply list_elem_of_In in Hin.
  rewrite (proj1 (cache_empty_spec uf) Hempty d Hin) in Hd. done.
Qed.

Lemma cache_slots_at uf n d :
  cache_slots uf !! n = Some d ->
  0 <= Z.of_nat n < cache_size uf /\ desc_at uf (Z.of_nat n) = Some d.
Proof.
  unfold cache_slots. intros Hn.
  pose proof (lookup_lt_Some _ _ _ Hn) as Hlt.
  rewrite length_take in Hlt.
  rewrite lookup_take_lt in Hn by lia.
  split; [lia |].
  unfold desc_at. destruct (Z.ltb_spec (Z.of_nat n) 0); [lia |].
  by rewrite Nat2Z.id.
Qed.

Lemma NoDup_present (l : list ufat_cache_desc) :
  (forall i j di dj,
      l !! i = Some di -> l !! j = Some dj ->
      is_present di = true -> is_present dj = true ->
      index di = index dj -> i = j) ->
  NoDup (index <$> filter (fun d => is_present d = true) l).
Proof.
  induction l as [|a l IH]; intros H.
  - constructor.
  - rewrite filter_cons.
    assert (Htail : NoDup (index <$> filter (fun d => is_present d = true) l)).
    { apply IH. intros i j di dj Hi Hj Hpi Hpj Heq.
      assert (S i = S j) by (by apply (H (S i) (S j) di dj)). lia. }
    destruct (decide (is_present a = true)) as [Hp|Hp]; [| done].
    rewrite fmap_cons. apply NoDup_cons. split; [| done].
    intros Hin. apply list_elem_of_fmap in Hin as (y & Hy & Hin).
    apply list_elem_of_filter in Hin as [Hpy Hin].
    apply list_elem_of_lookup in Hin as [n Hn].
    assert (0%nat = S n); [| lia].
    by apply (H 0%nat (S n) a y).
Qed.

Lemma remove_dups_NoDup_id (l : list Z) : NoDup l -> remove_dups l = l.
Proof.
  induction l as [|x l IH]; intros Hnd; [done |].
  apply NoDup_cons in Hnd as [Hx Hnd]. simpl.
  destruct (decide_rel elem_of x l); [done |]. by rewrite IH.
Qed.

(** When no two PRESENT slots carry the same block, there are as many
    different blocks in the cache as there are PRESENT slots. *)
Lemma unique_present_count uf :
  unique_present uf -> distinct_present uf = present_count uf.
Proof.
  intros Huniq. unfold distinct_present, present_count, present_indices.
  rewrite remove_dups_NoDup_id; [by rewrite length_fmap |].
  apply NoDup_present. intros i j di dj Hi Hj Hpi Hpj Heq.
  apply cache_slots_at in Hi as (Hi & Hdi).
  apply cache_slots_at in Hj as (Hj & Hdj).
  assert (Z.of_nat i = Z.of_nat j); [| lia].
  by apply (Huniq _ _ di dj).
Qed.

(** C3 (amended).  Starting from an empty cache, after every sequence of
    [ufat_cache_open] calls no two PRESENT slots carry the same block
    index; every block in the cache is one that a call asked for; there
    are as many different blocks in the cache as there are PRESENT slots,
    at most [cache_size].  The next call, for block [b], returns: if it
    returns a slot index [r] (a non-negative value), slot [r] is PRESENT
    and carries [b]; it returns an error only if it made a device call
    and the last device call it made returned a negative value, and then
    [b] need not be in the cache; on a device whose reads and writes do
    not fail it returns a slot index, so that [b] is PRESENT after the
    call. *)
Theorem cache_open_sequence_invariant (uf : ufat) (bs : list Z) (b : Z) :
  cache_wf uf -> cache_empty uf = true ->
  (exists rets uf',
      run_opens uf bs = Some (rets, uf') /\
      unique_present uf' /\
      (forall x, holds_block uf' x = true -> x ∈ bs) /\
      distinct_present uf' = present_count uf' /\
      distinct_present uf' <= cache_size uf' /\
      cache_size uf' = cache_size uf) /\
  (exists rets uf1 r uf',
      run_opens uf bs = Some (rets, uf1) /\
      ufat_cache_open uf1 b = Some (r, uf') /\
      run_opens uf (bs ++ [b]) = Some (rets ++ [r], uf') /\
      length rets = length bs /\
      (0 <= r -> block_present_at uf' b r /\ holds_block uf' b = true) /\
      (r < 0 ->
       exists evs e,
         io_log uf' = io_log uf1 ++ evs ++ [e] /\ event_ret e < 0) /\
      (device_ok (dev uf) ->
       0 <= r /\ block_present_at uf' b r /\ holds_block uf' b = true)).
Proof.
  intros Hwf Hempty.
  assert (Hstep : forall u x r u',
             cache_wf u -> unique_present u /\ dev u = dev uf ->
             ufat_cache_open u x = Some (r, u') ->
             unique_present u' /\ dev u' = dev uf).
  { intros u x r u' _ [Hu Hd] Hopen.
    apply ufat_cache_open_spec in Hopen.
    split; [by eapply open_post_unique |].
    destruct Hopen as ((Hdev & _) & _). congruence. }
  destruct (run_opens_inv (fun u => unique_present u /\ dev u = dev uf)
              Hstep bs uf Hwf (conj (cache_empty_unique uf Hempty) eq_refl))
    as (rets & uf1 & Hrun & Hwf1 & (Huniq1 & Hdev1) & _ & Hsize1 & Hlen1).
  split.
  - exists rets, uf1. split; [done |]. split; [done |]. split.
    { intros x Hx.
      destruct (run_opens_origin bs uf rets uf1 x Hrun Hx) as [H0|Hin];
        [| done].
      by rewrite (cache_empty_holds uf x Hempty) in H0. }
    split; [by apply unique_present_count |]. split; [| done].
    apply distinct_present_bound. destruct Hwf1. lia.
  - destruct (ufat_cache_open_total uf1 b Hwf1) as [[r uf2] Hopen].
    exists rets, uf1, r, uf2. rewrite run_opens_snoc, Hrun. simpl.
    rewrite Hopen. simpl. do 4 (split; [done |]).
    assert (Hpres : 0 <= r ->
              block_present_at uf2 b r /\ holds_block uf2 b = true).
    { intros Hr. pose proof (ufat_cache_open_spec _ _ _ _ Hopen) as Hpost.
      pose proof (open_post_present _ _ _ _ Hpost Hr) as Hpres.
      split; [done |]. by apply (block_present_holds uf2 b r). }
    split; [done |]. split.
    + intros Hr. by apply (ufat_cache_open_fail_log uf1 b r uf2).
    + intros Hok.
      assert (Hr : 0 <= r).
      { apply (ufat_cache_open_device_ok uf1 b r uf2); [| done].
        by rewrite Hdev1. }
      split; [done |]. by apply Hpres.
Qed.

(** X7.  Recency: a call that returns a slot stamps it with the current
    sequence number and advances [next_seq] by one modulo 2^32, so the
    slot's age is 1; a call that fails leaves [next_seq] alone. *)
Theorem cache_open_stamps_slot (uf : ufat) (b r : Z) (uf' : ufat) :
  ufat_cache_open uf b = Some (r, uf') ->
  (0 <= r ->
   next_seq uf' = u32 (next_seq uf + 1) /\
   exists d', desc_at uf' r = Some d' /\ seq d' = next_seq uf /\
              slot_age uf' d' = 1) /\
  (r < 0 -> next_seq uf' = next_seq uf).
Proof.
  intros Hopen.
  assert (Hage : u32 (u32 (next_seq uf + 1) - next_seq uf) = 1).
  { unfold u32. rewrite Zminus_mod_idemp_l.
    replace (next_seq uf + 1 - next_seq uf) with 1 by lia. done. }
  split.
  - intros Hr.
    apply ufat_cache_open_trace in Hopen
      as [(d & Hrk & Hd & _ & _ & ->) |
          (_ & v & rf & u1 & _ & Hplace & Hrest)].
    + split; [done |].
      exists (mk_desc (flags d) (next_seq uf) (index d)).
      apply desc_at_Some in Hd as (? & _ & ?).
      split; [apply (desc_at_set_desc_eq uf r); lia |]. done.
    + assert (Hseq : next_seq u1 = next_seq uf).
      { destruct Hplace as [(_ & _ & ->) | (_ & Hflush)]; [done |].
        by apply cache_flush_keeps in Hflush as (_ & _ & ? & _). }
      destruct Hrest as [(Hneg & -> & _) | (_ & Hread)]; [lia |].
      apply read_in_explicit in Hread
        as (d & ret & buf & Hd & _ & [(? & ? & _) | (_ & -> & ->)]); [lia |].
      simpl. rewrite Hseq. split; [done |].
      exists (mk_desc UFAT_CACHE_FLAG_PRESENT (next_seq uf) b).
      apply desc_at_Some in Hd as (? & _ & ?).
      split.
      { rewrite <- Hseq.
        apply (desc_at_set_desc_eq (after_read u1 b v ret buf) v).
        simpl. lia. }
      split; [done |]. unfold slot_age. simpl. by rewrite Hseq.
  - intros Hr.
    destruct (ufat_cache_open_failed uf b r uf' Hopen Hr)
      as (v & dv & _ & _ & [(_ & _ & _ & _ & _ & ? & _) |
                            (pre & data & dv' & _ & _ & _ & ?)]); done.
Qed.

(** ** More on [cache_flush] *)

Lemma clear_dirty_not_dirty f :
  Z.land (Z.land f (Z.lnot UFAT_CACHE_FLAG_DIRTY)) UFAT_CACHE_FLAG_DIRTY = 0.
Proof.
  rewrite <- Z.land_assoc, (Z.land_comm (Z.lnot _)), Z.land_lnot_diag.
  apply Z.land_0_r.
Qed.

(** X8.  A flush that returns 0 leaves the slot with nothing to flush, and
    flushing it again does nothing: no device call, the volume
    unchanged. *)
Theorem cache_flush_twice (uf : ufat) (k : Z) (uf1 : ufat) :
  cache_flush uf k = Some (0, uf1) ->
  (exists d1, desc_at uf1 k = Some d1 /\ needs_flush d1 = false) /\
  cache_flush uf1 k = Some (0, uf1).
Proof.
  intros H. pose proof H as Htrace.
  apply cache_flush_trace in Htrace
    as (d & Hd & [(Hneed & _ & ->) | [(_ & Hio & _) |
        (_ & _ & w & rets & _ & _ & _ & Hdesc & _)]]).
  - split; [by exists d | done].
  - unfold UFAT_ERR_IO in Hio. lia.
  - apply desc_at_Some in Hd as (Hk0 & _ & Hklen).
    assert (Hd1 : desc_at uf1 k =
                  Some (mk_desc (Z.land (flags d)
                                   (Z.lnot UFAT_CACHE_FLAG_DIRTY))
                                (seq d) (index d))).
    { unfold desc_at. rewrite Hdesc.
      destruct (Z.ltb_spec k 0); [lia |].
      apply list_lookup_insert_eq. lia. }
    assert (Hclean : needs_flush
                       (mk_desc (Z.land (flags d)
                                   (Z.lnot UFAT_CACHE_FLAG_DIRTY))
                                (seq d) (index d)) = false).
    { unfold needs_flush, is_dirty. simpl.
      by rewrite clear_dirty_not_dirty. }
    split; [by eexists |].
    unfold cache_flush. rewrite Hd1. simpl.
    unfold needs_flush in Hclean.
    destruct (is_dirty _), (is_present _); simpl in *; done.
Qed.

(** X9.  A flush that fails returns [-UFAT_ERR_IO] after a single write
    attempt, of the slot's buffer to the slot's block, and changes nothing
    else: the slot stays PRESENT and DIRTY, the buffers and the counters
    are as before, and no mirror write is tried. *)
Theorem cache_flush_failure (uf : ufat) (k r : Z) (uf' : ufat) :
  cache_flush uf k = Some (r, uf') -> r <> 0 ->
  r = - UFAT_ERR_IO /\
  cache_desc uf' = cache_desc uf /\ cache_data uf' = cache_data uf /\
  stat uf' = stat uf /\
  exists d w,
    desc_at uf k = Some d /\ needs_flush d = true /\ w < 0 /\
    io_log uf' = io_log uf ++ [IoWrite (index d) 1 (ufat_cache_data uf k) w].
Proof.
  intros H Hr.
  apply cache_flush_trace in H
    as (d & Hd & [(_ & ? & _) | [(Hneed & Hio & w & Hw & ->) |
                                 (_ & ? & _)]]); try lia.
  do 4 (split; [done |]). by exists d, w.
Qed.

(** X10.  A flush that succeeds on a PRESENT and DIRTY slot first writes
    the slot's buffer to the slot's block; every device call it makes is a
    write of that buffer; it makes one call, and [fat_count - 1] more when
    the block lies in the primary FAT; [write] and [write_blocks] grow by
    the number of calls, modulo [2 ^ 32] as the counters are unsigned
    32-bit integers; the buffers are unchanged; and the slot keeps its
    block, its sequence number and, DIRTY cleared, its other flags. *)
Theorem cache_flush_success (uf : ufat) (k : Z) (d : ufat_cache_desc)
    (uf' : ufat) :
  cache_flush uf k = Some (0, uf') ->
  desc_at uf k = Some d -> needs_flush d = true ->
  exists w evs,
    0 <= w /\
    io_log uf' =
      io_log uf ++ IoWrite (index d) 1 (ufat_cache_data uf k) w :: evs /\
    Forall (fun e => is_write e = true /\
                     event_data e = ufat_cache_data uf k) evs /\
    length evs =
      (if in_fat uf (index d) then Z.to_nat (fat_count (bpb uf) - 1)
       else 0%nat) /\
    stat_write (stat uf') =
      u32 (stat_write (stat uf) + 1 + Z.of_nat (length evs)) /\
    write_blocks (stat uf') =
      u32 (write_blocks (stat uf) + 1 + Z.of_nat (length evs)) /\
    cache_data uf' = cache_data uf /\
    desc_at uf' k =
      Some (mk_desc (Z.land (flags d) (Z.lnot UFAT_CACHE_FLAG_DIRTY))
                    (seq d) (index d)).
Proof.
  intros H Hd Hneed. pose proof (cache_flush_keeps _ _ _ _ H)
    as (_ & _ & _ & _ & Hdata & _).
  apply cache_flush_trace in H
    as (d0 & Hd0 & [(Hneed0 & _) | [(_ & Hio & _) |
        (_ & _ & w & rets & Hw & Hlen & Hlog & Hdesc & Hsw & Hwb & _)]]);
    rewrite Hd in Hd0; inversion Hd0; subst d0.
  - congruence.
  - unfold UFAT_ERR_IO in Hio. lia.
  - exists w, (map (IoWrite (index d) 1 (ufat_cache_data uf k)) rets).
    rewrite length_map. split; [done |]. split; [done |]. split.
    { clear. induction rets; simpl; constructor; done. }
    do 4 (split; [done |]).
    apply desc_at_Some in Hd as (Hk0 & _ & Hklen).
    unfold desc_at. rewrite Hdesc.
    destruct (Z.ltb_spec k 0); [lia |].
    apply list_lookup_insert_eq. lia.
Qed.

(** ** [ufat_sync] *)

Lemma slot_kept_trans d d1 d2 :
  slot_kept d d1 -> slot_kept d1 d2 -> slot_kept d d2.
Proof.
  intros (Hi1 & Hs1 & Hf1) (Hi2 & Hs2 & Hf2).
  split; [congruence |]. split; [congruence |].
  destruct Hf1 as [Hf1|Hf1], Hf2 as [Hf2|Hf2]; rewrite Hf2, Hf1; auto.
  right. rewrite <- Z.land_assoc, Z.land_diag. done.
Qed.

Lemma slots_kept_trans uf u1 u2 j :
  option_Forall2 slot_kept (desc_at uf j) (desc_at u1 j) ->
  option_Forall2 slot_kept (desc_at u1 j) (desc_at u2 j) ->
  option_Forall2 slot_kept (desc_at uf j) (desc_at u2 j).
Proof.
  intros H1 H2. inversion H1 as [d d1 Hk1 Ha Hb | Ha Hb];
    rewrite <- Hb in H2; inversion H2 as [? d2 Hk2 |]; constructor.
  by apply (slot_kept_trans d d1 d2).
Qed.

(** One flush, as a step of the sync loop. *)
Lemma cache_flush_step uf i r u1 :
  cache_flush uf i = Some (r, u1) ->
  (forall j, j <> i -> desc_at u1 j = desc_at uf j) /\
  exists d d1 evs,
    desc_at uf i = Some d /\ desc_at u1 i = Some d1 /\ slot_kept d d1 /\
    io_log u1 = io_log uf ++ evs /\
    Forall (fun e => needs_flush d = true /\
                     exists ret,
                       e = IoWrite (index d) 1 (ufat_cache_data uf i) ret)
           evs /\
    (forallb event_ok evs = true -> needs_flush d1 = false).
Proof.
  intros H.
  apply cache_flush_trace in H
    as (d & Hd & [(Hneed & _ & ->) | [(Hneed & _ & w & Hw & ->) |
        (Hneed & _ & w & rets & _ & _ & Hlog & Hdesc & _)]]).
  - split; [done |]. exists d, d, [].
    rewrite app_nil_r. repeat split; try done. apply slot_kept_refl.
  - split; [done |]. exists d, d. eexists.
    split; [done |]. split; [done |]. split; [apply slot_kept_refl |].
    split; [reflexivity |]. split.
    + constructor; [| constructor]. split; [done |]. by exists w.
    + simpl. unfold event_ok. simpl.
      destruct (Z.leb_spec 0 w); [lia | done].
  - apply desc_at_Some in Hd as Hd'. destruct Hd' as (Hi0 & _ & Hilen).
    split.
    { intros j Hj. unfold desc_at. rewrite Hdesc.
      destruct (Z.ltb_spec j 0); [done |].
      apply list_lookup_insert_ne. lia. }
    exists d. eexists. eexists.
    split; [done |]. split.
    { unfold desc_at. rewrite Hdesc.
      destruct (Z.ltb_spec i 0); [lia |].
      apply list_lookup_insert_eq. lia. }
    split; [unfold slot_kept; simpl; auto |].
    split; [exact Hlog |]. split.
    + clear -Hneed. generalize (w :: rets). intros l.
      induction l; simpl; constructor; [| done].
      split; [done |]. by eexists.
    + intros _. unfold needs_flush, is_dirty. simpl.
      by rewrite clear_dirty_not_dirty.
Qed.

Lemma sync_loop_spec n :
  forall i ret uf ret' uf',
    0 <= i ->
    sync_loop n i ret uf = Some (ret', uf') ->
    cache_data uf' = cache_data uf /\ cache_size uf' = cache_size uf /\
    next_seq uf' = next_seq uf /\
    cache_hit (stat uf') = cache_hit (stat uf) /\
    cache_miss (stat uf') = cache_miss (stat uf) /\
    stat_read (stat uf') = stat_read (stat uf) /\
    (forall j, option_Forall2 slot_kept (desc_at uf j) (desc_at uf' j)) /\
    (forall j, ~ i <= j < i + Z.of_nat n -> desc_at uf' j = desc_at uf j) /\
    exists evs,
      io_log uf' = io_log uf ++ evs /\
      Forall (flushable_write uf i (i + Z.of_nat n)) evs /\
      (forallb event_ok evs = true ->
       forall j d', i <= j < i + Z.of_nat n -> desc_at uf' j = Some d' ->
                    needs_flush d' = false).
Proof.
  induction n as [|n IH]; intros i ret uf ret' uf' Hi H; simpl in H.
  - inversion H; subst. do 6 (split; [done |]).
    split; [intros j; apply slots_kept_refl |]. split; [done |].
    exists []. rewrite app_nil_r. split; [done |]. split; [constructor |].
    intros _ j d' Hj. lia.
  - destruct (cache_flush uf i) as [[err u1]|] eqn:Hflush; [|discriminate].
    simpl in H.
    pose proof (cache_flush_keeps _ _ _ _ Hflush)
      as (_ & _ & Hseq1 & Hsize1 & Hdata1 & (w & Hst1) & _).
    pose proof (cache_flush_spec _ _ _ _ Hflush) as (_ & _ & Hkept1 & _).
    apply cache_flush_step in Hflush
      as (Hoth1 & d & d1 & evs1 & Hd & Hd1 & _ & Hlog1 & Hev1 & Hclean1).
    apply IH in H
      as (Hdata & Hsize & Hseq & Hhit & Hmiss & Hread & Hkept & Hout &
          evs2 & Hlog2 & Hev2 & Hclean2); [| lia].
    rewrite Hst1 in Hhit, Hmiss, Hread. simpl in Hhit, Hmiss, Hread.
    split; [congruence |]. split; [congruence |]. split; [congruence |].
    do 3 (split; [done |]).
    split.
    { intros j. apply (slots_kept_trans uf u1 uf'); [apply Hkept1 | apply Hkept]. }
    split.
    { intros j Hj. rewrite Hout by lia. apply Hoth1. lia. }
    exists (evs1 ++ evs2). split.
    { rewrite Hlog2, Hlog1, app_assoc. done. }
    split.
    { apply Forall_app. split.
      - eapply Forall_impl; [exact Hev1 |].
        intros e (Hneed & r0 & ->). exists i, d, r0.
        split; [lia |]. done.
      - eapply Forall_impl; [exact Hev2 |].
        intros e (j & dj & r0 & Hj & Hdj & Hneed & ->).
        exists j, dj, r0. split; [lia |].
        rewrite Hoth1 in Hdj by lia. split; [done |]. split; [done |].
        unfold ufat_cache_data. by rewrite Hdata1. }
    intros Hok j d' Hj Hd'.
    rewrite forallb_app in Hok. apply andb_true_iff in Hok as [Hok1 Hok2].
    destruct (Z.eq_dec j i) as [->|Hne].
    + rewrite Hout in Hd' by lia. rewrite Hd1 in Hd'.
      inversion Hd'; subst d'. by apply Hclean1.
    + apply (Hclean2 Hok2 j); [lia | done].
Qed.

Lemma sync_loop_clean n :
  forall i ret uf,
    0 <= i ->
    (forall j, i <= j < i + Z.of_nat n ->
               exists d, desc_at uf j = Some d /\ needs_flush d = false) ->
    sync_loop n i ret uf = Some (ret, uf).
Proof.
  induction n as [|n IH]; intros i ret uf Hi Hclean; simpl; [done |].
  destruct (Hclean i) as (d & Hd & Hneed); [lia |].
  unfold cache_flush. rewrite Hd. simpl.
  unfold needs_flush in Hneed.
  replace (negb (is_dirty d) || negb (is_present d)) with true
    by (destruct (is_dirty d), (is_present d); simpl in *; done).
  simpl. apply IH; [lia |]. intros j Hj. apply Hclean. lia.
Qed.

(** X11.  [ufat_sync] only writes, and only what is DIRTY: every device
    call it makes is a write of the buffer of a PRESENT and DIRTY slot to
    the block that slot carries; it never reads; the buffers, the block
    and sequence number of every slot and the read and cache counters are
    unchanged, and no flag other than DIRTY changes. *)
Theorem ufat_sync_writes_dirty_slots (uf : ufat) (r : Z) (uf' : ufat) :
  ufat_sync uf = Some (r, uf') ->
  cache_data uf' = cache_data uf /\
  cache_hit (stat uf') = cache_hit (stat uf) /\
  cache_miss (stat uf') = cache_miss (stat uf) /\
  stat_read (stat uf') = stat_read (stat uf) /\
  (forall j, option_Forall2 slot_kept (desc_at uf j) (desc_at uf' j)) /\
  exists evs,
    io_log uf' = io_log uf ++ evs /\
    Forall (flushable_write uf 0 (cache_size uf)) evs.
Proof.
  unfold ufat_sync. intros H.
  destruct (sync_loop _ _ _ _) as [[ret u]|] eqn:Hloop; [|discriminate].
  simpl in H. inversion H; subst r uf'. clear H.
  apply sync_loop_spec in Hloop
    as (Hdata & _ & _ & Hhit & Hmiss & Hread & Hkept & _ &
        evs & Hlog & Hev & _); [| lia].
  do 5 (split; [done |]). exists evs. split; [done |].
  eapply Forall_impl; [exact Hev |].
  intros e (j & d & r0 & Hj & Hd & Hneed & ->).
  exists j, d, r0. split; [lia |]. done.
Qed.

(** X12.  When none of the writes of a [ufat_sync] failed, no slot in use
    is left both PRESENT and DIRTY, and a second [ufat_sync] makes no
    device call and changes nothing. *)
Theorem ufat_sync_cleans (uf : ufat) (r : Z) (uf' : ufat) (evs : list io_event) :
  cache_size uf <= Z.of_nat (length (cache_desc uf)) ->
  ufat_sync uf = Some (r, uf') ->
  io_log uf' = io_log uf ++ evs ->
  forallb event_ok evs = true ->
  cache_clean uf' /\ ufat_sync uf' = Some (0, uf').
Proof.
  unfold ufat_sync. intros Hlen H Hlog Hok.
  destruct (sync_loop _ _ _ _) as [[ret u]|] eqn:Hloop; [|discriminate].
  simpl in H. inversion H; subst r uf'. clear H.
  apply sync_loop_spec in Hloop
    as (_ & Hsize & _ & _ & _ & _ & Hkept & _ &
        evs' & Hlog' & _ & Hclean); [| lia].
  rewrite Hlog' in Hlog. apply app_inv_head in Hlog. subst evs'.
  assert (Hc : cache_clean u).
  { intros j d Hj Hd. apply (Hclean Hok j); [| done]. lia. }
  split; [done |].
  rewrite (sync_loop_clean _ 0 0 u); [done | lia |].
  intros j Hj.
  destruct (desc_at_in_range uf j) as [d Hd]; [lia |].
  pose proof (Hkept j) as Hrel. rewrite Hd in Hrel.
  inversion Hrel as [? d' _ Ha Hb |]. exists d'. split; [done |].
  apply (Hc j); [lia | done].
Qed.

(** ** The statistics *)

Lemma ufat_cache_open_coherent uf b r uf' :
  ufat_cache_open uf b = Some (r, uf') ->
  stat_coherent uf -> stat_coherent uf'.
Proof.
  intros Hopen (Hr & Hrb & Hwb).
  apply ufat_cache_open_trace in Hopen
    as [(d & _ & _ & _ & _ & ->) |
        (_ & v & rf & u1 & _ & Hplace & Hrest)].
  { unfold stat_coherent. simpl. done. }
  assert (Hu1 : stat_coherent u1).
  { destruct Hplace as [(_ & _ & ->) | (_ & Hflush)]; [done |].
    apply cache_flush_keeps in Hflush
      as (_ & _ & _ & _ & _ & (w & Hst) & _).
    unfold stat_coherent. rewrite Hst. simpl. by rewrite Hwb. }
  destruct Hrest as [(_ & _ & ->) | (_ & Hread)]; [done |].
  destruct Hu1 as (Hr1 & Hrb1 & Hwb1).
  apply read_in_explicit in Hread
    as (d & ret & buf & _ & _ & [(_ & _ & ->) | (_ & _ & ->)]);
    unfold stat_coherent; simpl; [done |].
  by rewrite Hr1, Hrb1.
Qed.

(** X13.  On a mounted volume, after every sequence of [ufat_cache_open]
    calls the counters agree: [read] and [read_blocks] equal [cache_miss]
    (one single-block device read per miss) and [write_blocks] equals
    [write]. *)
Theorem mounted_stat_coherent (uf0 : ufat) (d : ufat_device) (uf : ufat)
    (bs : list Z) :
  UFAT_CACHE_MAX_BLOCKS <= Z.of_nat (length (cache_desc uf0)) ->
  UFAT_CACHE_MAX_BLOCKS <= Z.of_nat (length (cache_data uf0)) ->
  ufat_open uf0 d = Some (0, uf) ->
  exists rets uf',
    run_opens uf bs = Some (rets, uf') /\ stat_coherent uf'.
Proof.
  intros Hdesc Hdata Hopen.
  destruct (ufat_open_mounted _ _ _ Hdesc Hdata Hopen) as (Hwf & _ & _).
  assert (Hco : stat_coherent uf).
  { revert Hopen. unfold ufat_open.
    destruct (cache_size _ =? 0); [intros H; inversion H |].
    unfold read_bpb.
    destruct (ufat_cache_open _ 0) as [[idx u3]|] eqn:Ho; [|discriminate].
    simpl. apply ufat_cache_open_coherent in Ho; [| by unfold stat_coherent].
    destruct (idx <? 0); [intros H; inversion H; by subst |].
    destruct (parse_bpb _ _ _) as [[ret ufb]|]; [|discriminate]. simpl.
    intros H. inversion H. done. }
  destruct (run_opens_inv stat_coherent
              (fun u x r u' _ Hu Ho => ufat_cache_open_coherent u x r u' Ho Hu)
              bs uf Hwf Hco)
    as (rets & uf' & Hrun & _ & Hco' & _).
  by exists rets, uf'.
Qed.

(** ** More on mounting *)

Lemma ufat_cache_open_empty_explicit uf b r buf :
  cache_wf uf -> cache_empty uf = true ->
  dev_read (dev uf) (io_log uf) b 1 (ufat_cache_data uf (cache_size uf - 1))
    = (r, buf) ->
  exists d0,
    desc_at uf (cache_size uf - 1) = Some d0 /\
    ufat_cache_open uf b =
    Some (if r <? 0 then
            (r, set_desc (cache_size uf - 1) (mk_desc 0 (seq d0) (index d0))
                  (after_read uf b (cache_size uf - 1) r buf))
          else
            (cache_size uf - 1,
             after_fill (after_read uf b (cache_size uf - 1) r buf) b
                        (cache_size uf - 1))).
Proof.
  intros (Hpos & Hdesc & Hdata) Hempty Hread. unfold ufat_cache_open.
  destruct (scan_loop_empty uf b (Z.to_nat (cache_size uf)) 0 (-1) (-1) 0)
    as (o & a & Hscan); [lia | lia | |].
  { intros j dj Hj Hdj.
    apply (proj1 (cache_empty_spec uf) Hempty), (cache_slots_lookup uf j);
      [lia | done]. }
  rewrite Hscan. simpl.
  destruct (Nat.eqb_spec (Z.to_nat (cache_size uf)) 0) as [Hz|_]; [lia |].
  replace (0 + Z.of_nat (Z.to_nat (cache_size uf)) - 1)
    with (cache_size uf - 1) by lia.
  destruct (Z.geb_spec (cache_size uf - 1) 0) as [_|Hlt]; [| lia].
  unfold read_in, call_read. rewrite Hread.
  change (desc_at (set_io_log _ (set_cache_data _ uf)) (cache_size uf - 1))
    with (desc_at uf (cache_size uf - 1)).
  destruct (desc_at_in_range uf (cache_size uf - 1)) as [d0 Hd0]; [lia |].
  rewrite Hd0. simpl. exists d0. split; [done |].
  destruct (r <? 0); done.
Qed.

(** The state in which [ufat_open] calls [read_bpb]. *)
Lemma ufat_open_unfold uf0 d :
  0 < Z.shiftr UFAT_CACHE_BYTES (log2_block_size d) ->
  0 < UFAT_CACHE_MAX_BLOCKS ->
  exists u2,
    ufat_open uf0 d = read_bpb u2 /\
    dev u2 = d /\ bpb u2 = bpb uf0 /\ stat u2 = zero_stat /\
    next_seq u2 = 0 /\ io_log u2 = io_log uf0 /\
    cache_data u2 = cache_data uf0 /\
    cache_desc u2 = replicate (length (cache_desc uf0)) zero_desc /\
    cache_size u2 =
      Z.min (Z.shiftr UFAT_CACHE_BYTES (log2_block_size d))
            UFAT_CACHE_MAX_BLOCKS.
Proof.
  intros Hbytes Hmax. unfold ufat_open.
  set (u0 := set_cache_size _ _).
  set (u1 := if cache_size u0 >? UFAT_CACHE_MAX_BLOCKS then _ else u0).
  assert (Hu1 : cache_size u1 =
                Z.min (Z.shiftr UFAT_CACHE_BYTES (log2_block_size d))
                      UFAT_CACHE_MAX_BLOCKS /\
                cache_desc u1 = cache_desc uf0 /\
                cache_data u1 = cache_data uf0 /\ dev u1 = d /\
                io_log u1 = io_log uf0 /\ bpb u1 = bpb uf0 /\
                next_seq u1 = 0).
  { subst u1. destruct (Z.gtb_spec (cache_size u0) UFAT_CACHE_MAX_BLOCKS);
      subst u0; simpl in *; repeat split; (done || lia). }
  destruct Hu1 as (Hsz & Hcd & Hcdata & Hdev & Hlog & Hbpb & Hseq).
  destruct (Z.eqb_spec (cache_size u1) 0) as [Hz|_]; [lia |].
  eexists. split; [reflexivity |]. simpl.
  rewrite Hcd. done.
Qed.

(** X14.  When the device delivers block 0, mounting is parsing it:
    [ufat_open] returns what [parse_bpb] returns on that block, with the
    geometry [parse_bpb] produced.  The mount makes one device call, the
    read of block 0; it leaves the cache with
    [min (UFAT_CACHE_BYTES >> log2_block_size) UFAT_CACHE_MAX_BLOCKS]
    slots, block 0 in the last one, and the counters at one read and one
    miss. *)
Theorem ufat_open_parses_block0 (uf0 : ufat) (d : ufat_device)
    (sector : list byte) (r0 ret : Z) (ufb : ufat_bpb) :
  0 < Z.shiftr UFAT_CACHE_BYTES (log2_block_size d) ->
  0 < UFAT_CACHE_MAX_BLOCKS ->
  UFAT_CACHE_MAX_BLOCKS <= Z.of_nat (length (cache_desc uf0)) ->
  UFAT_CACHE_MAX_BLOCKS <= Z.of_nat (length (cache_data uf0)) ->
  (forall buf, dev_read d (io_log uf0) 0 1 buf = (r0, sector)) ->
  0 <= r0 ->
  parse_bpb (log2_block_size d) (bpb uf0) sector = Some (ret, ufb) ->
  exists uf,
    ufat_open uf0 d = Some (ret, uf) /\
    bpb uf = ufb /\ dev uf = d /\
    cache_size uf =
      Z.min (Z.shiftr UFAT_CACHE_BYTES (log2_block_size d))
            UFAT_CACHE_MAX_BLOCKS /\
    io_log uf = io_log uf0 ++ [IoRead 0 1 sector r0] /\
    stat uf = mk_stat 1 0 1 0 0 1 /\
    next_seq uf = 1 /\
    block_present_at uf 0 (cache_size uf - 1) /\
    ufat_cache_data uf (cache_size uf - 1) = sector /\
    forall j dj, 0 <= j < cache_size uf - 1 -> desc_at uf j = Some dj ->
                 is_present dj = false.
Proof.
  intros Hbytes Hmax Hdesc Hdata Hread Hr0 Hparse.
  destruct (ufat_open_unfold uf0 d Hbytes Hmax)
    as (u2 & -> & Hdev & Hbpb & Hst & Hseq & Hlog & Hcdata & Hcd & Hsz).
  assert (Hwf : cache_wf u2).
  { unfold cache_wf. rewrite Hcd, Hcdata, length_replicate. lia. }
  assert (Hempty : cache_empty u2 = true).
  { apply cache_empty_spec. intros dj Hdj.
    apply cache_slots_elem in Hdj as (j & _ & Hdj).
    unfold desc_at in Hdj. rewrite Hcd in Hdj.
    destruct (j <? 0); [discriminate |].
    apply lookup_replicate in Hdj as [-> _]. apply is_present_zero_desc. }
  destruct (ufat_cache_open_empty_explicit u2 0 r0 sector Hwf Hempty)
    as (d0 & Hd0 & Hopen).
  { rewrite Hdev, Hlog. apply Hread. }
  destruct Hwf as (Hpos & Hlen & Hdlen).
  unfold read_bpb. rewrite Hopen.
  destruct (Z.ltb_spec r0 0) as [Hneg|_]; [lia |]. simpl.
  destruct (Z.ltb_spec (cache_size u2 - 1) 0) as [Hneg|_]; [lia |].
  assert (Hbuf : ufat_cache_data
                   (after_fill (after_read u2 0 (cache_size u2 - 1) r0 sector)
                               0 (cache_size u2 - 1))
                   (cache_size u2 - 1) = sector).
  { unfold ufat_cache_data. simpl.
    rewrite list_lookup_insert_eq by lia. done. }
  rewrite Hbuf. simpl. rewrite Hdev, Hbpb, Hparse. simpl.
  eexists. split; [reflexivity |]. simpl.
  rewrite Hst, Hseq, Hlog, Hsz. do 6 (split; [done |]).
  rewrite <- Hsz.
  split.
  { unfold block_present_at. simpl. split; [lia |]. eexists. split.
    - apply (desc_at_set_desc_eq
               (after_read u2 0 (cache_size u2 - 1) r0 sector)).
      simpl. lia.
    - split; [by apply is_present_filled | done]. }
  split; [exact Hbuf |].
  intros j dj Hj Hdj.
  assert (Hj' : desc_at
                  (set_desc (cache_size u2 - 1)
                     (mk_desc UFAT_CACHE_FLAG_PRESENT (next_seq u2) 0)
                     (after_read u2 0 (cache_size u2 - 1) r0 sector)) j
                = Some dj) by exact Hdj.
  rewrite desc_at_set_desc_ne in Hj' by lia.
  unfold desc_at in Hj'. simpl in Hj'. rewrite Hcd in Hj'.
  destruct (j <? 0); [discriminate |].
  apply lookup_replicate in Hj' as [-> _]. apply is_present_zero_desc.
Qed.

(** X15.  When the device fails to deliver block 0, [ufat_open] returns
    the value the device's read returned; nothing is parsed, the geometry
    is as it was, no slot is PRESENT, and the counters are all 0: the
    failed read is not counted. *)
Theorem ufat_open_read_failure (uf0 : ufat) (d : ufat_device)
    (data : list byte) (r0 : Z) :
  0 < Z.shiftr UFAT_CACHE_BYTES (log2_block_size d) ->
  0 < UFAT_CACHE_MAX_BLOCKS ->
  UFAT_CACHE_MAX_BLOCKS <= Z.of_nat (length (cache_desc uf0)) ->
  UFAT_CACHE_MAX_BLOCKS <= Z.of_nat (length (cache_data uf0)) ->
  (forall buf, dev_read d (io_log uf0) 0 1 buf = (r0, data)) ->
  r0 < 0 ->
  exists uf,
    ufat_open uf0 d = Some (r0, uf) /\
    bpb uf = bpb uf0 /\
    cache_empty uf = true /\
    stat uf = zero_stat /\
    io_log uf = io_log uf0 ++ [IoRead 0 1 data r0].
Proof.
  intros Hbytes Hmax Hdesc Hdata Hread Hr0.
  destruct (ufat_open_unfold uf0 d Hbytes Hmax)
    as (u2 & -> & Hdev & Hbpb & Hst & Hseq & Hlog & Hcdata & Hcd & Hsz).
  assert (Hwf : cache_wf u2).
  { unfold cache_wf. rewrite Hcd, Hcdata, length_replicate. lia. }
  assert (Hempty : cache_empty u2 = true).
  { apply cache_empty_spec. intros dj Hdj.
    apply cache_slots_elem in Hdj as (j & _ & Hdj).
    unfold desc_at in Hdj. rewrite Hcd in Hdj.
    destruct (j <? 0); [discriminate |].
    apply lookup_replicate in Hdj as [-> _]. apply is_present_zero_desc. }
  destruct (ufat_cache_open_empty_explicit u2 0 r0 data Hwf Hempty)
    as (d0 & Hd0 & Hopen).
  { rewrite Hdev, Hlog. apply Hread. }
  unfold read_bpb. rewrite Hopen.
  destruct (Z.ltb_spec r0 0) as [_|Hge]; [| lia]. simpl.
  destruct (Z.ltb_spec r0 0) as [_|Hge]; [| lia].
  eexists. split; [reflexivity |]. simpl.
  rewrite Hlog. split; [done |]. split; [| done].
  apply cache_empty_spec. intros dj Hdj.
  apply cache_slots_elem in Hdj as (j & Hj & Hdj).
  destruct (Z.eq_dec j (cache_size u2 - 1)) as [->|Hne].
  - destruct Hwf as (? & ? & ?).
    rewrite desc_at_set_desc_eq in Hdj by (simpl; lia).
    inversion Hdj. by apply is_present_cleared.
  - rewrite desc_at_set_desc_ne in Hdj by (simpl in *; lia).
    apply (proj1 (cache_empty_spec u2) Hempty).
    apply (cache_slots_lookup u2 j); [exact Hj | exact Hdj].
Qed.

(** A block too large for the cache: when
    [UFAT_CACHE_BYTES >> log2_block_size] is 0, [ufat_open] returns
    [-UFAT_ERR_BLOCK_SIZE] before any device call, and before it clears
    the counters and the descriptors. *)
Lemma ufat_open_block_too_large (uf0 : ufat) (d : ufat_device) :
  Z.shiftr UFAT_CACHE_BYTES (log2_block_size d) = 0 ->
  0 <= UFAT_CACHE_MAX_BLOCKS ->
  exists uf,
    ufat_open uf0 d = Some (- UFAT_ERR_BLOCK_SIZE, uf) /\
    io_log uf = io_log uf0 /\ stat uf = stat uf0 /\
    cache_desc uf = cache_desc uf0 /\ cache_size uf = 0.
Proof.
  intros Hz Hmax. unfold ufat_open. simpl. rewrite Hz.
  destruct (Z.gtb_spec 0 UFAT_CACHE_MAX_BLOCKS); [lia |]. simpl.
  eexists. split; [reflexivity |]. done.
Qed.

(** ** [log2_exact] and [parse_bpb] *)

Lemma log2_exact_loop_sound p :
  forall c k, log2_exact_loop p c = Some k -> c <= k /\ Zpos p = 2 ^ (k - c).
Proof.
  induction p as [p IH | p IH |]; intros c k H; simpl in H.
  - discriminate.
  - apply IH in H as [Hle Hp]. split; [lia |].
    replace (k - c) with (Z.succ (k - (c + 1))) by lia.
    rewrite Z.pow_succ_r by lia. rewrite <- Hp. done.
  - inversion H; subst. split; [lia |]. by rewrite Z.sub_diag.
Qed.

Lemma log2_exact_loop_pow2 n :
  0 <= n ->
  exists p, 2 ^ n = Zpos p /\
            forall c, log2_exact_loop p c = Some (c + n).
Proof.
  revert n. apply natlike_ind.
  - exists xH. split; [done |]. intros c. simpl. f_equal. lia.
  - intros n Hn (p & Hp & Hloop). exists (xO p). split.
    + rewrite Z.pow_succ_r by lia. rewrite Hp. done.
    + intros c. simpl. rewrite Hloop. f_equal. lia.
Qed.

Lemma log2_exact_exact (e ret : Z) :
  (forall k, 0 <= k -> e = 2 ^ k -> log2_exact e ret = (0, k)) /\
  (forall r k, log2_exact e ret = (r, k) ->
     (r = 0 /\ 0 <= k /\ e = 2 ^ k) \/
     (r = -1 /\ k = ret /\ forall n, 0 <= n -> e <> 2 ^ n)).
Proof.
  assert (Hpow : forall k, 0 <= k -> e = 2 ^ k -> log2_exact e ret = (0, k)).
  { intros k Hk ->. destruct (log2_exact_loop_pow2 k Hk) as (p & Hp & Hloop).
    rewrite Hp. simpl. rewrite Hloop. done. }
  split; [exact Hpow |].
  intros r k H.
  assert (Hcases : (r = 0 /\ 0 <= k /\ e = 2 ^ k) \/ (r = -1 /\ k = ret)).
  { unfold log2_exact in H. destruct e as [|p|p].
    - inversion H. by right.
    - destruct (log2_exact_loop p 0) as [count|] eqn:Hloop.
      + inversion H; subst. apply log2_exact_loop_sound in Hloop as [Hle Hp].
        left. rewrite Z.sub_0_r in Hp. done.
      + inversion H. by right.
    - inversion H. by right. }
  destruct Hcases as [Hok | [-> ->]]; [by left |].
  right. split; [done |]. split; [done |].
  intros n Hn He. rewrite (Hpow n Hn He) in H. inversion H.
Qed.

(** X16.  [log2_exact] is an exact logarithm: on [2 ^ k] it returns 0 and
    stores [k]; on every other value, 0 included, it returns -1 and does
    not touch [*ret]. *)
Theorem log2_exact_spec (e ret : Z) :
  (forall k, 0 <= k -> e = 2 ^ k -> log2_exact e ret = (0, k)) /\
  (forall r k, log2_exact e ret = (r, k) ->
     (r = 0 /\ 0 <= k /\ e = 2 ^ k) \/
     (r = -1 /\ k = ret /\ forall n, 0 <= n -> e <> 2 ^ n)).
Proof. apply log2_exact_exact. Qed.

Lemma parse_bpb_success l2 ufb sector ufb' :
  parse_bpb l2 ufb sector = Some (0, ufb') ->
  exists lbps lspc, bpb_parsed l2 sector ufb' lbps lspc.
Proof.
  unfold parse_bpb, bpb_parsed, bpb_sectors_per_fat, bpb_root_sectors.
  destruct (r16 sector 11 =? 0); [discriminate |].
  destruct (Z.ltb_spec l2 9) as [_|Hl2]; [intros Hbad; inversion Hbad |].
  destruct (log2_exact (r16 sector 11) 0) as [e1 lbps] eqn:Hlog1.
  destruct (Z.ltb_spec e1 0) as [_|He1]; [intros Hbad; inversion Hbad |].
  destruct (log2_exact (byte_at sector 13) 0) as [e2 lspc] eqn:Hlog2.
  destruct (Z.ltb_spec e2 0) as [_|He2]; [intros Hbad; inversion Hbad |].
  destruct (Z.eqb_spec (r16 sector 510) 43605) as [Hsig|_];
    [| intros Hbad; inversion Hbad]. simpl negb. cbv iota.
  apply (proj2 (log2_exact_exact _ _)) in Hlog1
    as [(_ & Hlbps & Hbps) | (? & _)]; [| lia].
  apply (proj2 (log2_exact_exact _ _)) in Hlog2
    as [(_ & Hlspc & Hspc) | (? & _)]; [| lia].
  set (n := u32 (Z.shiftr (u32 _) lspc + 2)).
  destruct (Z.gtb_spec l2 lbps) as [Hgt|Hle]; cbv zeta.
  - destruct (Z.ltb_spec lspc (l2 - lbps)) as [_|Hshift];
      [intros Hbad; inversion Hbad |].
    match goal with
    | |- context [negb (?x =? 0)] =>
        destruct (Z.eqb_spec x 0) as [Halign|_]
    end; [| intros Hbad; inversion Hbad].
    simpl.
    destruct (Z.eqb_spec (byte_at sector 16) 0) as [_|Hnf];
      [intros Hbad; inversion Hbad |].
    match goal with
    | |- context [if ?x =? 0 then _ else _] =>
        destruct (Z.eqb_spec x 0) as [Hrs|Hrs]
    end; simpl.
    + intros H. inversion H; subst ufb'. exists lbps, lspc. simpl.
      repeat split; try done; try lia.
    + destruct (n <? 4085) eqn:Hn; intros H; inversion H; subst ufb';
        exists lbps, lspc; simpl; rewrite ?Hn;
        repeat split; try done; try lia.
  - simpl.
    destruct (Z.eqb_spec (byte_at sector 16) 0) as [_|Hnf];
      [intros Hbad; inversion Hbad |].
    match goal with
    | |- context [if ?x =? 0 then _ else _] =>
        destruct (Z.eqb_spec x 0) as [Hrs|Hrs]
    end; simpl.
    + intros H. inversion H; subst ufb'. exists lbps, lspc. simpl.
      repeat split; try done; try lia.
    + destruct (n <? 4085) eqn:Hn; intros H; inversion H; subst ufb';
        exists lbps, lspc; simpl; rewrite ?Hn;
        repeat split; try done; try lia.
Qed.

Lemma lor_lt_pow2 a b n :
  0 < n -> 0 <= a < 2 ^ n -> 0 <= b < 2 ^ n -> 0 <= Z.lor a b < 2 ^ n.
Proof.
  intros Hn Ha Hb. split; [apply Z.lor_nonneg; lia |].
  destruct (Z.eq_dec (Z.lor a b) 0) as [->|Hne]; [lia |].
  assert (0 <= Z.lor a b) by (apply Z.lor_nonneg; lia).
  apply Z.log2_lt_pow2; [lia |].
  rewrite Z.log2_lor by lia.
  assert (Z.log2 a < n).
  { destruct (Z.eq_dec a 0) as [->|]; [simpl; lia |].
    apply Z.log2_lt_pow2; lia. }
  assert (Z.log2 b < n).
  { destruct (Z.eq_dec b 0) as [->|]; [simpl; lia |].
    apply Z.log2_lt_pow2; lia. }
  lia.
Qed.

Lemma r16_range p off : 0 <= r16 p off < 2 ^ 16.
Proof.
  unfold r16.
  pose proof (byte_at_range p off). pose proof (byte_at_range p (off + 1)).
  apply lor_lt_pow2; [lia | lia |].
  rewrite Z.shiftl_mul_pow2 by lia. lia.
Qed.

Lemma r32_range p off : 0 <= r32 p off < 2 ^ 32.
Proof.
  unfold r32.
  pose proof (byte_at_range p off). pose proof (byte_at_range p (off + 1)).
  pose proof (byte_at_range p (off + 2)).
  pose proof (byte_at_range p (off + 3)).
  apply lor_lt_pow2; [lia | |]; apply lor_lt_pow2; try lia;
    rewrite Z.shiftl_mul_pow2 by lia; lia.
Qed.

Lemma bpb_sectors_per_fat_range sector :
  0 <= bpb_sectors_per_fat sector < 2 ^ 32.
Proof.
  unfold bpb_sectors_per_fat.
  pose proof (r16_range sector 22). pose proof (r32_range sector 36).
  destruct (_ =? 0); lia.
Qed.

Lemma bpb_root_sectors_range sector :
  0 < r16 sector 0x00b ->
  0 <= bpb_root_sectors sector /\
  bpb_root_sectors sector * r16 sector 0x00b < 2 ^ 22.
Proof.
  intros Hbps. unfold bpb_root_sectors, UFAT_DIRENT_SIZE.
  pose proof (r16_range sector 17). pose proof (r16_range sector 11).
  split; [apply Z.div_pos; lia |].
  pose proof (Z.mul_div_le (r16 sector 17 * 32 + r16 sector 11 - 1)
                           (r16 sector 11) Hbps).
  lia.
Qed.

Lemma land_mask_multiple x s :
  0 <= s -> Z.land x (Z.shiftl 1 s - 1) = 0 ->
  Z.shiftr x s * 2 ^ s = x.
Proof.
  intros Hs H.
  replace (Z.shiftl 1 s - 1) with (Z.ones s) in H
    by (rewrite Z.ones_equiv, Z.shiftl_1_l; lia).
  rewrite Z.land_ones in H by done.
  rewrite Z.shiftr_div_pow2 by done.
  pose proof (Z.div_mod x (2 ^ s)). lia.
Qed.

(** X17.  What a successful parse has checked: the block is at least 512
    bytes, the signature is 0xAA55, the bytes per sector and the sectors
    per cluster are powers of two, and there is at least one FAT, whose
    count is taken over as [fat_count]. *)
Theorem parse_bpb_validates (l2 : Z) (ufb : ufat_bpb) (sector : list byte)
    (ufb' : ufat_bpb) :
  parse_bpb l2 ufb sector = Some (0, ufb') ->
  9 <= l2 /\
  r16 sector 0x1fe = 0xaa55 /\
  (exists k, 0 <= k /\ r16 sector 0x00b = 2 ^ k) /\
  (exists k, 0 <= k /\ byte_at sector 0x00d = 2 ^ k) /\
  1 <= fat_count ufb' /\ fat_count ufb' = byte_at sector 0x010.
Proof.
  intros H. apply parse_bpb_success in H
    as (lbps & lspc & Hb & Hs & Hbps & Hspc & Hl2 & Hsig & Hnf & Hfc & _).
  split; [done |]. split; [done |].
  split; [by exists lbps |]. split; [by exists lspc |].
  pose proof (byte_at_range sector 16). lia.
Qed.

Lemma parse_bpb_bytes_kept (l2 : Z) (ufb : ufat_bpb)
    (sector : list byte) (ufb' : ufat_bpb) :
  parse_bpb l2 ufb sector = Some (0, ufb') ->
  fat_start ufb' * 2 ^ l2 = r16 sector 0x00e * r16 sector 0x00b /\
  root_size ufb' * 2 ^ l2 = bpb_root_sectors sector * r16 sector 0x00b /\
  0 <= log2_blocks_per_cluster ufb' /\
  2 ^ log2_blocks_per_cluster ufb' * 2 ^ l2 =
    byte_at sector 0x00d * r16 sector 0x00b /\
  (bpb_sectors_per_fat sector * r16 sector 0x00b < 2 ^ 32 * 2 ^ l2 ->
   fat_size ufb' * 2 ^ l2 = bpb_sectors_per_fat sector * r16 sector 0x00b).
Proof.
  intros H. apply parse_bpb_success in H
    as (lbps & lspc & Hb & Hs & Hbps & Hspc & Hl2 & _ & _ & _ & _ & _ &
        Hbig & Hsmall & _).
  pose proof (bpb_sectors_per_fat_range sector) as Hspf.
  assert (Hbpos : 0 < r16 sector 11) by (rewrite Hbps; lia).
  pose proof (bpb_root_sectors_range sector Hbpos) as [Hrs0 Hrs].
  rewrite Hbps, Hspc in *.
  destruct (Z_lt_le_dec lbps l2) as [Hlt|Hle].
  - destruct (Hbig Hlt) as (Hshift & Halign & -> & -> & -> & ->).
    rewrite Z.land_lor_distr_l in Halign.
    apply Z.lor_eq_0_iff in Halign as [Halign Hc].
    rewrite Z.land_lor_distr_l in Halign.
    apply Z.lor_eq_0_iff in Halign as [Ha Hbb].
    apply land_mask_multiple in Ha; [| lia].
    apply land_mask_multiple in Hbb; [| lia].
    apply land_mask_multiple in Hc; [| lia].
    replace l2 with ((l2 - lbps) + lbps) at 2 4 6 8 10 by lia.
    rewrite !(Z.pow_add_r 2 (l2 - lbps) lbps) by lia.
    rewrite !Z.mul_assoc, Ha, Hbb, Hc.
    split; [done |]. split; [done |]. split; [lia |]. split; [| done].
    rewrite <- Z.pow_add_r by lia. rewrite <- Z.pow_add_r by lia.
    f_equal. lia.
  - destruct (Hsmall Hle) as (-> & -> & -> & ->).
    assert (Hp : 2 ^ lbps = 2 ^ (lbps - l2) * 2 ^ l2).
    { rewrite <- Z.pow_add_r by lia. f_equal. lia. }
    assert (Hp2 : 0 < 2 ^ l2) by (apply Z.pow_pos_nonneg; lia).
    assert (Hp3 : 0 < 2 ^ (lbps - l2)) by (apply Z.pow_pos_nonneg; lia).
    rewrite !Z.shiftl_mul_pow2 by lia.
    split; [rewrite Hp; lia |].
    split.
    { unfold u32. rewrite Z.mod_small; [rewrite Hp; lia |].
      split; [lia |]. rewrite Hp in Hrs. nia. }
    split; [lia |]. split.
    { rewrite <- !Z.pow_add_r by lia. f_equal. lia. }
    intros Hfit. unfold u32. rewrite Z.mod_small; [rewrite Hp; lia |].
    split; [lia |]. rewrite Hp in Hfit. nia.
Qed.

(** X18.  The conversion from sectors to blocks is exact.  After a
    successful parse the start of the FAT, the size of the root directory
    and the size of a cluster are the same number of bytes whether counted
    in blocks of [2 ^ l2] bytes or in sectors, and so is the size of one
    FAT unless its block count leaves 32 bits. *)
Theorem parse_bpb_converts_exactly (l2 : Z) (ufb : ufat_bpb)
    (sector : list byte) (ufb' : ufat_bpb) :
  parse_bpb l2 ufb sector = Some (0, ufb') ->
  fat_start ufb' * 2 ^ l2 = r16 sector 0x00e * r16 sector 0x00b /\
  root_size ufb' * 2 ^ l2 = bpb_root_sectors sector * r16 sector 0x00b /\
  0 <= log2_blocks_per_cluster ufb' /\
  2 ^ log2_blocks_per_cluster ufb' * 2 ^ l2 =
    byte_at sector 0x00d * r16 sector 0x00b /\
  (bpb_sectors_per_fat sector * r16 sector 0x00b < 2 ^ 32 * 2 ^ l2 ->
   fat_size ufb' * 2 ^ l2 = bpb_sectors_per_fat sector * r16 sector 0x00b).
Proof. apply parse_bpb_bytes_kept. Qed.

(** X19.  The layout and the type after a successful parse: the root
    directory starts after the last FAT and the clusters after the root
    directory; the volume is FAT32 exactly when the root directory region
    is empty, and then the root cluster is the 32-bit field at 0x02c
    reduced to 28 bits; otherwise the root cluster is 0 and the volume is
    FAT12 exactly when there are fewer than 4085 clusters, FAT16 if not. *)
Theorem parse_bpb_layout (l2 : Z) (ufb : ufat_bpb) (sector : list byte)
    (ufb' : ufat_bpb) :
  parse_bpb l2 ufb sector = Some (0, ufb') ->
  root_start ufb' = fat_start ufb' + fat_size ufb' * fat_count ufb' /\
  cluster_start ufb' = root_start ufb' + root_size ufb' /\
  (type ufb' = UFAT_TYPE_FAT32 <-> root_size ufb' = 0) /\
  (type ufb' = UFAT_TYPE_FAT32 ->
   root_cluster ufb' = r32 sector 0x02c mod 2 ^ 28) /\
  (type ufb' <> UFAT_TYPE_FAT32 ->
   root_cluster ufb' = 0 /\
   (type ufb' = UFAT_TYPE_FAT12 <-> num_clusters ufb' < 4085) /\
   (type ufb' = UFAT_TYPE_FAT16 <-> 4085 <= num_clusters ufb')).
Proof.
  intros H.
  pose proof (parse_bpb_bytes_kept _ _ _ _ H) as (_ & Hroot & _).
  apply parse_bpb_success in H
    as (lbps & lspc & Hb & Hs & Hbps & Hspc & Hl2 & _ & _ & _ & Hrst & Hcst &
        _ & _ & H32 & H1216).
  split; [done |]. split; [done |].
  assert (Hbpos : 0 < r16 sector 11) by (rewrite Hbps; lia).
  assert (Hp2 : 0 < 2 ^ l2) by (apply Z.pow_pos_nonneg; lia).
  assert (Hzero : root_size ufb' = 0 <-> bpb_root_sectors sector = 0) by nia.
  assert (Hmask : Z.land (r32 sector 44) UFAT_CLUSTER_MASK =
                  r32 sector 44 mod 2 ^ 28).
  { change UFAT_CLUSTER_MASK with (Z.ones 28). by rewrite Z.land_ones. }
  destruct (Z.eq_dec (bpb_root_sectors sector) 0) as [Hrs|Hrs].
  - destruct (H32 Hrs) as (Ht & Hrc). rewrite Ht, Hrc, Hmask.
    split; [tauto |]. split; [done |]. intros Hne. done.
  - destruct (H1216 Hrs) as (Hrc & Ht). rewrite Ht, Hrc.
    destruct (Z.ltb_spec (num_clusters ufb') 4085).
    + split; [split; [discriminate | tauto] |].
      split; [discriminate |]. intros _. split; [done |].
      split; split; try done; try lia; discriminate.
    + split; [split; [discriminate | tauto] |].
      split; [discriminate |]. intros _. split; [done |].
      split; split; try done; try lia; discriminate.
Qed.

Lemma parse_bpb_returned (l2 : Z) (ufb : ufat_bpb) (sector : list byte)
    (r : Z) (ufb' : ufat_bpb) :
  parse_bpb l2 ufb sector = Some (r, ufb') ->
  (r = 0 \/ r = - UFAT_ERR_BLOCK_SIZE \/ r = - UFAT_ERR_INVALID_BPB \/
   r = - UFAT_ERR_BLOCK_ALIGNMENT) /\
  (r = - UFAT_ERR_BLOCK_SIZE <-> l2 < 9) /\
  (r = - UFAT_ERR_BLOCK_ALIGNMENT -> r16 sector 0x00b < 2 ^ l2) /\
  (r <> 0 ->
   type ufb' = type ufb /\ fat_count ufb' = fat_count ufb /\
   num_clusters ufb' = num_clusters ufb /\
   root_cluster ufb' = root_cluster ufb /\
   root_start ufb' = root_start ufb /\
   cluster_start ufb' = cluster_start ufb).
Proof.
  unfold parse_bpb, UFAT_ERR_BLOCK_SIZE, UFAT_ERR_INVALID_BPB,
    UFAT_ERR_BLOCK_ALIGNMENT.
  destruct (r16 sector 11 =? 0); [discriminate |].
  destruct (Z.ltb_spec l2 9) as [Hl2|Hl2].
  { intros H. inversion H; subst. repeat split; try done; try lia; try (intros; lia); tauto. }
  destruct (log2_exact (r16 sector 11) 0) as [e1 lbps] eqn:Hlog1.
  destruct (Z.ltb_spec e1 0) as [_|He1].
  { intros H. inversion H; subst. repeat split; try done; try lia; try (intros; lia); tauto. }
  destruct (log2_exact (byte_at sector 13) 0) as [e2 lspc] eqn:Hlog2.
  destruct (Z.ltb_spec e2 0) as [_|He2].
  { intros H. inversion H; subst. repeat split; try done; try lia; try (intros; lia); tauto. }
  destruct (negb (r16 sector 510 =? 43605)).
  { intros H. inversion H; subst. repeat split; try done; try lia; try (intros; lia); tauto. }
  apply (proj2 (log2_exact_exact _ _)) in Hlog1
    as [(_ & Hlbps & Hbps) | (? & _)]; [| lia].
  assert (Hsmall : l2 > lbps -> r16 sector 11 < 2 ^ l2).
  { intros Hgt. rewrite Hbps. apply Z.pow_lt_mono_r; lia. }
  set (n := u32 (Z.shiftr (u32 _) lspc + 2)).
  destruct (Z.gtb_spec l2 lbps) as [Hgt|Hle]; cbv zeta.
  - destruct (lspc <? l2 - lbps).
    { intros H. inversion H; subst.
      repeat split; try done; try lia; try (intros; lia); tauto. }
    destruct (negb (_ =? 0)).
    { intros H. inversion H; subst. simpl.
      repeat split; try done; try lia; try (intros; lia); tauto. }
    simpl. destruct (byte_at sector 16 =? 0).
    { intros H. inversion H; subst. simpl.
      repeat split; try done; try lia; try (intros; lia); tauto. }
    match goal with
    | |- context [if ?x =? 0 then _ else _] => destruct (x =? 0)
    end; simpl.
    + intros H. inversion H; subst.
      repeat split; try done; try lia; try (intros; lia); tauto.
    + destruct (n <? 4085); intros H; inversion H; subst;
        repeat split; try done; try lia; try (intros; lia); tauto.
  - simpl. destruct (byte_at sector 16 =? 0).
    { intros H. inversion H; subst. simpl.
      repeat split; try done; try lia; try (intros; lia); tauto. }
    match goal with
    | |- context [if ?x =? 0 then _ else _] => destruct (x =? 0)
    end; simpl.
    + intros H. inversion H; subst.
      repeat split; try done; try lia; try (intros; lia); tauto.
    + destruct (n <? 4085); intros H; inversion H; subst;
        repeat split; try done; try lia; try (intros; lia); tauto.
Qed.

(** X20.  The results of [parse_bpb].  The function divides by the
    bytes-per-sector field before it checks anything: on a sector where
    that field is 0 it has no defined result, whatever the block size.
    On every other sector it returns, and it returns 0,
    [-UFAT_ERR_BLOCK_SIZE], [-UFAT_ERR_INVALID_BPB] or
    [-UFAT_ERR_BLOCK_ALIGNMENT]; the block-size error is returned exactly
    when the block is smaller than 512 bytes, whatever else is wrong with
    the sector, and the alignment error only when the block is larger
    than the sector.  On an error the type, the FAT count, the cluster
    count, the root cluster and the two derived starts of the geometry
    are not written. *)
Theorem parse_bpb_results (l2 : Z) (ufb : ufat_bpb) (sector : list byte) :
  (r16 sector 0x00b = 0 -> parse_bpb l2 ufb sector = None) /\
  (r16 sector 0x00b <> 0 ->
   exists r ufb',
     parse_bpb l2 ufb sector = Some (r, ufb') /\
     (r = 0 \/ r = - UFAT_ERR_BLOCK_SIZE \/ r = - UFAT_ERR_INVALID_BPB \/
      r = - UFAT_ERR_BLOCK_ALIGNMENT) /\
     (r = - UFAT_ERR_BLOCK_SIZE <-> l2 < 9) /\
     (r = - UFAT_ERR_BLOCK_ALIGNMENT -> r16 sector 0x00b < 2 ^ l2) /\
     (r <> 0 ->
      type ufb' = type ufb /\ fat_count ufb' = fat_count ufb /\
      num_clusters ufb' = num_clusters ufb /\
      root_cluster ufb' = root_cluster ufb /\
      root_start ufb' = root_start ufb /\
      cluster_start ufb' = cluster_start ufb)).
Proof.
  split.
  - intros Hz. unfold parse_bpb. by rewrite Hz.
  - intros Hnz.
    destruct (parse_bpb l2 ufb sector) as [[r ufb']|] eqn:Hparse.
    + exists r, ufb'. split; [done |]. by apply (parse_bpb_returned l2 ufb sector).
    + exfalso. revert Hparse. unfold parse_bpb.
      destruct (Z.eqb_spec (r16 sector 11) 0) as [Hz|_]; [done |]. done.
Qed.

(** X21.  A boot sector without the signature 0xAA55 is rejected with
    [-UFAT_ERR_INVALID_BPB], whatever its other fields hold, and the
    geometry is not touched. *)
Theorem parse_bpb_bad_signature (l2 : Z) (ufb : ufat_bpb)
    (sector : list byte) :
  9 <= l2 -> r16 sector 0x00b <> 0 -> r16 sector 0x1fe <> 0xaa55 ->
  parse_bpb l2 ufb sector = Some (- UFAT_ERR_INVALID_BPB, ufb).
Proof.
  intros Hl2 Hbps Hsig. unfold parse_bpb.
  destruct (Z.eqb_spec (r16 sector 11) 0) as [|_]; [done |].
  destruct (Z.ltb_spec l2 9) as [|_]; [lia |].
  destruct (log2_exact (r16 sector 11) 0) as [e1 lbps].
  destruct (e1 <? 0); [done |].
  destruct (log2_exact (byte_at sector 13) 0) as [e2 lspc].
  destruct (e2 <? 0); [done |].
  destruct (Z.eqb_spec (r16 sector 510) 43605) as [|_]; [done |].
  done.
Qed.

(** X22.  A cluster smaller than a block cannot be mounted: with a valid
    signature, [2 ^ k] bytes per sector and [2 ^ m] sectors per cluster,
    a block of [2 ^ l2] bytes that is larger than a cluster is rejected
    with [-UFAT_ERR_BLOCK_ALIGNMENT] and the geometry is not touched. *)
Theorem parse_bpb_cluster_smaller_than_block (l2 k m : Z) (ufb : ufat_bpb)
    (sector : list byte) :
  9 <= l2 -> 0 <= k -> 0 <= m ->
  r16 sector 0x00b = 2 ^ k -> byte_at sector 0x00d = 2 ^ m ->
  r16 sector 0x1fe = 0xaa55 ->
  k + m < l2 ->
  parse_bpb l2 ufb sector = Some (- UFAT_ERR_BLOCK_ALIGNMENT, ufb).
Proof.
  intros Hl2 Hk Hm Hbps Hspc Hsig Hlt. unfold parse_bpb.
  assert (0 < 2 ^ k) by (apply Z.pow_pos_nonneg; lia).
  destruct (Z.eqb_spec (r16 sector 11) 0) as [|_]; [lia |].
  destruct (Z.ltb_spec l2 9) as [|_]; [lia |].
  rewrite (proj1 (log2_exact_exact _ 0) k Hk Hbps).
  rewrite (proj1 (log2_exact_exact _ 0) m Hm Hspc).
  simpl. rewrite Hsig. simpl.
  destruct (Z.gtb_spec l2 k) as [_|]; [| lia].
  destruct (Z.ltb_spec m (l2 - k)) as [_|]; [| lia].
  done.
Qed.

(** ** More on the FAT decoder *)

(** X23.  [ufat_read_fat] returns 0 or a negative value; when it returns a
    negative value the output parameter is not written; when it returns 0
    the index was below [num_clusters], the volume is not FAT12, and the
    value stored is EOC, BAD or a cluster number below the reserved range
    (below 0xFFF0 on FAT16, below 0x0FFFFFF0 on FAT32). *)
Theorem read_fat_results (uf : ufat) (index out ret out' : Z) (uf' : ufat) :
  ufat_read_fat uf index out = Some (ret, out', uf') ->
  ret <= 0 /\
  (ret < 0 -> out' = out) /\
  (ret = 0 ->
   index < num_clusters (bpb uf) /\
   type (bpb uf) <> UFAT_TYPE_FAT12 /\
   (out' = UFAT_CLUSTER_EOC \/ out' = UFAT_CLUSTER_BAD \/
    0 <= out' < first_reserved (type (bpb uf)))).
Proof.
  unfold ufat_read_fat.
  destruct (Z.geb_spec index (num_clusters (bpb uf))) as [Hge|Hlt].
  { intros H. inversion H; subst. unfold UFAT_ERR_INVALID_CLUSTER.
    repeat split; try lia. }
  destruct (type (bpb uf)) eqn:Htype.
  - unfold read_fat12. intros H. inversion H; subst. repeat split; lia.
  - unfold read_fat16.
    destruct (ufat_cache_open uf _) as [[i u]|]; [|discriminate]. simpl.
    destruct (Z.ltb_spec i 0) as [Hneg|Hnonneg].
    { intros H. inversion H; subst. repeat split; lia. }
    match goal with
    | |- context [r16 ?p ?o] => pose proof (r16_range p o) as Hraw;
                                set (raw := r16 p o) in *
    end.
    destruct (Z.geb_spec raw 65528) as [H8|H8];
      [| destruct (Z.geb_spec raw 65520) as [H0|H0]];
      intros H; inversion H; subst;
      (split; [lia |]); (split; [lia |]); intros _;
      (split; [lia |]); (split; [discriminate |]).
    + by left.
    + right. by left.
    + right. right. simpl. lia.
  - unfold read_fat32.
    destruct (ufat_cache_open uf _) as [[i u]|]; [|discriminate]. simpl.
    destruct (Z.ltb_spec i 0) as [Hneg|Hnonneg].
    { intros H. inversion H; subst. repeat split; lia. }
    match goal with
    | |- context [Z.land (r32 ?p ?o) UFAT_CLUSTER_MASK] =>
        pose proof (r32_range p o) as Hraw;
        assert (Hm : 0 <= Z.land (r32 p o) UFAT_CLUSTER_MASK)
          by (apply Z.land_nonneg; lia);
        set (raw := Z.land (r32 p o) UFAT_CLUSTER_MASK) in *
    end.
    destruct (Z.geb_spec raw 268435448) as [H8|H8];
      [| destruct (Z.geb_spec raw 268435440) as [H0|H0]];
      intros H; inversion H; subst;
      (split; [lia |]); (split; [lia |]); intros _;
      (split; [lia |]); (split; [discriminate |]).
    + by left.
    + right. by left.
    + right. right. simpl. lia.
Qed.

Lemma shift_mask_div_mod index s :
  0 <= s ->
  Z.shiftr index s = index / 2 ^ s /\
  Z.land index (Z.shiftl 1 s - 1) = index mod 2 ^ s.
Proof.
  intros Hs. split; [by apply Z.shiftr_div_pow2 |].
  replace (Z.shiftl 1 s - 1) with (Z.ones s)
    by (rewrite Z.ones_equiv, Z.shiftl_1_l; lia).
  by apply Z.land_ones.
Qed.

(** X24.  Where a FAT16 entry is read.  When [ufat_read_fat] succeeds on a
    FAT16 volume with blocks of [2 ^ l2] bytes, the value stored decodes
    the two bytes at byte [2 * index] of the FAT: they lie in block
    [fat_start + index / 2 ^ (l2 - 1)], which is in the cache afterwards,
    at the offset [2 * (index mod 2 ^ (l2 - 1))], and so never straddle
    two blocks. *)
Theorem read_fat16_address (uf : ufat) (index out out' : Z) (uf' : ufat) :
  type (bpb uf) = UFAT_TYPE_FAT16 ->
  0 <= index -> 1 <= log2_block_size (dev uf) ->
  ufat_read_fat uf index out = Some (0, out', uf') ->
  let l2 := log2_block_size (dev uf) in
  let blk := fat_start (bpb uf) + index / 2 ^ (l2 - 1) in
  let off := 2 * (index mod 2 ^ (l2 - 1)) in
  exists i,
    block_present_at uf' blk i /\
    out' = decode16 (r16 (ufat_cache_data uf' i) off) /\
    0 <= off <= 2 ^ l2 - 2 /\
    blk * 2 ^ l2 + off = fat_start (bpb uf) * 2 ^ l2 + 2 * index.
Proof.
  intros Htype Hidx Hl2 H l2 blk off. revert H. unfold ufat_read_fat.
  subst l2. set (l2 := log2_block_size (dev uf)) in *.
  destruct (index >=? num_clusters (bpb uf)); [intros H; inversion H |].
  rewrite Htype. unfold read_fat16.
  fold l2.
  destruct (shift_mask_div_mod index (l2 - 1)) as [-> ->]; [lia |].
  fold blk.
  destruct (ufat_cache_open uf blk) as [[i u]|] eqn:Hopen; [|discriminate].
  simpl. destruct (Z.ltb_spec i 0) as [Hneg|Hnonneg].
  { intros H. inversion H. lia. }
  replace (index mod 2 ^ (l2 - 1) * 2) with off by (unfold off; lia).
  intros H. exists i.
  assert (Hres : out' = decode16 (r16 (ufat_cache_data u i) off) /\ u = uf').
  { unfold decode16.
    destruct (_ >=? 65528); [inversion H; done |].
    destruct (_ >=? 65520); inversion H; done. }
  destruct Hres as [-> <-].
  split.
  { apply (open_post_present uf); [by apply ufat_cache_open_spec | done]. }
  split; [done |].
  assert (Hp : 2 ^ l2 = 2 * 2 ^ (l2 - 1)).
  { replace l2 with (Z.succ (l2 - 1)) at 1 by lia.
    rewrite Z.pow_succ_r by lia. done. }
  assert (Hpos : 0 < 2 ^ (l2 - 1)) by (apply Z.pow_pos_nonneg; lia).
  pose proof (Z.mod_pos_bound index (2 ^ (l2 - 1)) Hpos).
  pose proof (Z.div_mod index (2 ^ (l2 - 1))).
  unfold off, blk. split; [lia |]. rewrite Hp. nia.
Qed.

(** X25.  Where a FAT32 entry is read: the same for the four bytes at byte
    [4 * index] of the FAT, in block [fat_start + index / 2 ^ (l2 - 2)] at
    the offset [4 * (index mod 2 ^ (l2 - 2))]. *)
Theorem read_fat32_address (uf : ufat) (index out out' : Z) (uf' : ufat) :
  type (bpb uf) = UFAT_TYPE_FAT32 ->
  0 <= index -> 2 <= log2_block_size (dev uf) ->
  ufat_read_fat uf index out = Some (0, out', uf') ->
  let l2 := log2_block_size (dev uf) in
  let blk := fat_start (bpb uf) + index / 2 ^ (l2 - 2) in
  let off := 4 * (index mod 2 ^ (l2 - 2)) in
  exists i,
    block_present_at uf' blk i /\
    out' = decode32 (Z.land (r32 (ufat_cache_data uf' i) off)
                            UFAT_CLUSTER_MASK) /\
    0 <= off <= 2 ^ l2 - 4 /\
    blk * 2 ^ l2 + off = fat_start (bpb uf) * 2 ^ l2 + 4 * index.
Proof.
  intros Htype Hidx Hl2 H l2 blk off. revert H. unfold ufat_read_fat.
  subst l2. set (l2 := log2_block_size (dev uf)) in *.
  destruct (index >=? num_clusters (bpb uf)); [intros H; inversion H |].
  rewrite Htype. unfold read_fat32.
  fold l2.
  destruct (shift_mask_div_mod index (l2 - 2)) as [-> ->]; [lia |].
  fold blk.
  destruct (ufat_cache_open uf blk) as [[i u]|] eqn:Hopen; [|discriminate].
  simpl. destruct (Z.ltb_spec i 0) as [Hneg|Hnonneg].
  { intros H. inversion H. lia. }
  replace (index mod 2 ^ (l2 - 2) * 4) with off by (unfold off; lia).
  intros H. exists i.
  assert (Hres : out' = decode32 (Z.land (r32 (ufat_cache_data u i) off)
                                         UFAT_CLUSTER_MASK) /\ u = uf').
  { unfold decode32.
    destruct (_ >=? 268435448); [inversion H; done |].
    destruct (_ >=? 268435440); inversion H; done. }
  destruct Hres as [-> <-].
  split.
  { apply (open_post_present uf); [by apply ufat_cache_open_spec | done]. }
  split; [done |].
  assert (Hp : 2 ^ l2 = 4 * 2 ^ (l2 - 2)).
  { replace l2 with (Z.succ (Z.succ (l2 - 2))) at 1 by lia.
    rewrite !Z.pow_succ_r by lia. lia. }
  assert (Hpos : 0 < 2 ^ (l2 - 2)) by (apply Z.pow_pos_nonneg; lia).
  pose proof (Z.mod_pos_bound index (2 ^ (l2 - 2)) Hpos).
  pose proof (Z.div_mod index (2 ^ (l2 - 2))).
  unfold off, blk. split; [lia |]. rewrite Hp. nia.
Qed.

(** X26.  Reading the same FAT entry twice: after a successful
    [ufat_read_fat], a second call for the same index makes no device
    call and stores the same value. *)
Theorem read_fat_again (uf : ufat) (index out out2 v : Z) (uf1 : ufat) :
  unique_present uf ->
  ufat_read_fat uf index out = Some (0, v, uf1) ->
  exists uf2,
    ufat_read_fat uf1 index out2 = Some (0, v, uf2) /\
    io_log uf2 = io_log uf1.
Proof.
  intros Huniq. unfold ufat_read_fat.
  destruct (index >=? num_clusters (bpb uf)) eqn:Hrange;
    [intros H; inversion H |].
  assert (Hstep : forall blk i u,
            ufat_cache_open uf blk = Some (i, u) -> 0 <= i ->
            dev u = dev uf /\ bpb u = bpb uf /\
            exists u2, ufat_cache_open u blk = Some (i, u2) /\
                       io_log u2 = io_log u /\
                       ufat_cache_data u2 i = ufat_cache_data u i).
  { intros blk i u Hopen Hi.
    pose proof (ufat_cache_open_spec _ _ _ _ Hopen) as ((Hd & Hb & _) & _).
    destruct (ufat_cache_open_rehit uf blk i u Huniq Hopen Hi)
      as (u2 & Hopen2 & Hlog & Hdata).
    split; [done |]. split; [done |]. exists u2.
    split; [done |]. split; [done |].
    unfold ufat_cache_data. by rewrite Hdata. }
  destruct (type (bpb uf)) eqn:Htype.
  - unfold read_fat12. intros H. inversion H.
  - unfold read_fat16.
    destruct (ufat_cache_open uf _) as [[i u]|] eqn:Hopen; [|discriminate].
    simpl. destruct (Z.ltb_spec i 0) as [Hneg|Hnonneg].
    { intros H. inversion H. lia. }
    destruct (Hstep _ i u Hopen Hnonneg)
      as (Hdev & Hbpb & u2 & Hopen2 & Hlog & Hdata).
    intros H.
    assert (Hu : u = uf1).
    { destruct (_ >=? 65528); [by inversion H |].
      destruct (_ >=? 65520); by inversion H. }
    subst u. rewrite Hbpb, Hrange, Htype, Hdev, Hopen2. simpl.
    destruct (Z.ltb_spec i 0); [lia |]. rewrite Hdata.
    exists u2. split; [| done].
    destruct (_ >=? 65528); [inversion H; done |].
    destruct (_ >=? 65520); inversion H; done.
  - unfold read_fat32.
    destruct (ufat_cache_open uf _) as [[i u]|] eqn:Hopen; [|discriminate].
    simpl. destruct (Z.ltb_spec i 0) as [Hneg|Hnonneg].
    { intros H. inversion H. lia. }
    destruct (Hstep _ i u Hopen Hnonneg)
      as (Hdev & Hbpb & u2 & Hopen2 & Hlog & Hdata).
    intros H.
    assert (Hu : u = uf1).
    { destruct (_ >=? 268435448); [by inversion H |].
      destruct (_ >=? 268435440); by inversion H. }
    subst u. rewrite Hbpb, Hrange, Htype, Hdev, Hopen2. simpl.
    destruct (Z.ltb_spec i 0); [lia |]. rewrite Hdata.
    exists u2. split; [| done].
    destruct (_ >=? 268435448); [inversion H; done |].
    destruct (_ >=? 268435440); inversion H; done.
Qed.

(** ** [ufat_strerror] *)

(** X27.  [ufat_strerror] does not look at the sign: an error code and
    its negation get the same string (for every [int] but [INT_MIN]), and
    a code whose magnitude is [UFAT_MAX_ERR] or more gets
    "Invalid error code". *)
Theorem ufat_strerror_sign (err : Z) :
  - 2 ^ 31 < err < 2 ^ 31 ->
  ufat_strerror (- err) = ufat_strerror err /\
  (UFAT_MAX_ERR <= Z.abs err ->
   ufat_strerror err = Some (Some "Invalid error code"%string)).
Proof.
  intros Hrange. unfold ufat_strerror.
  destruct (Z.eqb_spec (- err) (- 2 ^ 31)) as [|_]; [lia |].
  destruct (Z.eqb_spec err (- 2 ^ 31)) as [|_]; [lia |].
  assert (Habs : (if - err <? 0 then - - err else - err) =
                 (if err <? 0 then - err else err)).
  { destruct (Z.ltb_spec (- err) 0), (Z.ltb_spec err 0); lia. }
  rewrite Habs. split; [done |].
  intros Hbig.
  replace (if err <? 0 then - err else err) with (Z.abs err)
    by (destruct (Z.ltb_spec err 0); lia).
  destruct (Z.geb_spec (Z.abs err) UFAT_MAX_ERR); [done | lia].
Qed.

(** X28.  When the table has room for the nine error codes
    ([UFAT_MAX_ERR] at least 9), every code from [UFAT_OK] to
    [UFAT_ERR_NOT_FILE], in either sign, gets a string of its own that is
    not "Invalid error code", and different codes get different
    strings. *)
Theorem ufat_strerror_known_codes (e1 e2 : Z) :
  9 <= UFAT_MAX_ERR ->
  0 <= e1 <= UFAT_ERR_NOT_FILE -> 0 <= e2 <= UFAT_ERR_NOT_FILE ->
  (exists msg,
      ufat_strerror e1 = Some (Some msg) /\
      ufat_strerror (- e1) = Some (Some msg) /\
      msg <> "Invalid error code"%string) /\
  (ufat_strerror e1 = ufat_strerror e2 -> e1 = e2).
Proof.
  intros Hmax H1 H2. unfold UFAT_ERR_NOT_FILE in *.
  assert (Hcode : forall e, 0 <= e <= 8 ->
            ufat_strerror e = Some (strerror_text e) /\
            ufat_strerror (- e) = Some (strerror_text e)).
  { intros e He. unfold ufat_strerror.
    destruct (Z.eqb_spec e (- 2 ^ 31)) as [|_]; [lia |].
    destruct (Z.eqb_spec (- e) (- 2 ^ 31)) as [|_]; [lia |].
    destruct (Z.ltb_spec e 0) as [|_]; [lia |].
    replace (if - e <? 0 then - - e else - e) with e
      by (destruct (Z.ltb_spec (- e) 0); lia).
    destruct (Z.geb_spec e UFAT_MAX_ERR); [lia | done]. }
  destruct (Hcode e1 H1) as [Hp1 Hn1]. destruct (Hcode e2 H2) as [Hp2 _].
  rewrite Hp1, Hn1, Hp2.
  assert (Hcases : forall e, 0 <= e <= 8 ->
            e = 0 \/ e = 1 \/ e = 2 \/ e = 3 \/ e = 4 \/ e = 5 \/ e = 6 \/
            e = 7 \/ e = 8) by (intros; lia).
  split.
  - destruct (Hcases e1 H1) as [-> | [-> | [-> | [-> | [-> | [-> | [-> |
                                [-> | ->]]]]]]]];
      eexists; (split; [reflexivity |]); (split; [reflexivity |]);
      discriminate.
  - destruct (Hcases e1 H1) as [-> | [-> | [-> | [-> | [-> | [-> | [-> |
                                [-> | ->]]]]]]]];
      destruct (Hcases e2 H2) as [-> | [-> | [-> | [-> | [-> | [-> | [-> |
                                  [-> | ->]]]]]]]];
      simpl; intros Heq; (done || discriminate Heq).
Qed.

End Cache.


(** * Closed instances *)

(** ** [parse_bpb] *)

Example parse_s1 :
  parse_bpb 9 zero_bpb s1_boot_sector = Some (0, s1_geometry).
Proof. vm_compute. reflexivity. Qed.

Example mount_s1 :
  ufat_open 1 2 8192 16 (blank_ufat 16) s1_device = Some (0, s1_mounted).
Proof. vm_compute. reflexivity. Qed.

Lemma u32_sub_chain a b c d :
  u32 (u32 (u32 (a - b) - u32 c) - d) = u32 (a - b - c - d).
Proof.
  unfold u32.
  rewrite Zminus_mod_idemp_l.
  replace ((a - b) mod 2 ^ 32 - c mod 2 ^ 32 - d)
    with ((a - b) mod 2 ^ 32 - (c mod 2 ^ 32 + d)) by lia.
  rewrite Zminus_mod_idemp_l.
  replace (a - b - (c mod 2 ^ 32 + d)) with (a - b - d - c mod 2 ^ 32) by lia.
  rewrite Zminus_mod_idemp_r. f_equal. lia.
Qed.

(** Whenever [parse_bpb] succeeds, [num_clusters] is the 32-bit wrapped
    difference of the total and the used sectors, shifted, plus 2: nothing
    compares the two. *)
Lemma parse_bpb_num_clusters l2 ufb sector ufb' :
  parse_bpb l2 ufb sector = Some (0, ufb') ->
  num_clusters ufb' =
  u32 (Z.shiftr (u32 (bpb_total_sectors sector - bpb_used_sectors sector))
                (snd (log2_exact (byte_at sector 0x00d) 0)) + 2).
Proof.
  unfold parse_bpb, bpb_total_sectors, bpb_used_sectors,
    bpb_sectors_per_fat, bpb_root_sectors.
  destruct (r16 sector 11 =? 0); [discriminate |].
  destruct (l2 <? 9); [intros H; inversion H |].
  destruct (log2_exact (r16 sector 11) 0) as [e1 lbps].
  destruct (e1 <? 0); [intros H; inversion H |].
  destruct (log2_exact (byte_at sector 13) 0) as [e2 lspc].
  destruct (e2 <? 0); [intros H; inversion H |].
  destruct (negb (r16 sector 510 =? 43605)); [intros H; inversion H |].
  rewrite u32_sub_chain.
  set (n := u32 (Z.shiftr (u32 _) lspc + 2)).
  replace (u32 (Z.shiftr (u32 _) (snd (e2, lspc)) + 2)) with n.
  2:{ subst n. simpl snd. do 3 f_equal. unfold u32. f_equal. lia. }
  clearbody n.
  destruct (l2 >? lbps).
  - destruct (lspc <? l2 - lbps); [intros H; inversion H |].
    destruct (negb (_ =? 0)); [intros H; inversion H |].
    simpl. destruct (byte_at sector 16 =? 0); [intros H; inversion H |].
    destruct (_ =? 0); simpl.
    + intros H. inversion H. done.
    + destruct (n <? 4085); intros H; inversion H; done.
  - simpl. destruct (byte_at sector 16 =? 0); [intros H; inversion H |].
    destruct (_ =? 0); simpl.
    + intros H. inversion H. done.
    + destruct (n <? 4085); intros H; inversion H; done.
Qed.

(** C10.  [parse_bpb] has no lower bound on the total sector count: the
    boot sector [short_boot_sector] passes every check although its total
    of 100 sectors is less than the 164 sectors of its reserved area, FATs
    and root directory; parsing returns 0 and [num_clusters] is the
    difference wrapped modulo 2^32, shifted by the cluster shift, plus 2,
    which is 1073741810 clusters. *)
Theorem parse_bpb_no_total_lower_bound :
  exists sector ufb',
    bpb_total_sectors sector = 100 /\ bpb_used_sectors sector = 164 /\
    bpb_total_sectors sector < bpb_used_sectors sector /\
    parse_bpb 9 zero_bpb sector = Some (0, ufb') /\
    num_clusters ufb' =
      Z.shiftr ((bpb_total_sectors sector - bpb_used_sectors sector)
                  mod 2 ^ 32) 2 + 2 /\
    num_clusters ufb' = 1073741810.
Proof.
  exists short_boot_sector.
  exists (mk_bpb UFAT_TYPE_FAT16 2 4 64 2 164 1073741810 132 32 0).
  vm_compute. repeat split; congruence.
Qed.

(** ** The block cache *)

(** C1 (the code as it is).  Flushing a dirty slot that holds block 4, the
    first block of the primary FAT of a volume with two FATs of 64 blocks,
    writes block 4 twice: the mirror write goes to [d->index] again and
    block 4 + 1 * 64 = 68 of the second FAT is never written. *)
Theorem cache_flush_mirror_same_block :
  exists uf',
    cache_flush 1 2 (dirty_fat_volume s1_device) 0 = Some (0, uf') /\
    io_log uf' =
      [IoWrite 4 1 dirty_fat_block 0; IoWrite 4 1 dirty_fat_block 0] /\
    4 + 1 * fat_size s1_geometry = 68 /\
    fat_count s1_geometry = 2.
Proof.
  eexists. split; [vm_compute; reflexivity |].
  vm_compute. repeat split; reflexivity.
Qed.

(** C2 (the code as it is).  With one dirty slot and a device whose writes
    fail, the flush of the slot returns [-UFAT_ERR_IO], the loop of
    [ufat_sync] leaves that error in [ret], and [ufat_sync] returns 0. *)
Theorem ufat_sync_drops_error :
  exists uf',
    cache_flush 1 2 (dirty_fat_volume write_fail_device) 0 =
      Some (- UFAT_ERR_IO, uf') /\
    sync_loop 1 2 1 0 0 (dirty_fat_volume write_fail_device) =
      Some (- UFAT_ERR_IO, uf') /\
    ufat_sync 1 2 (dirty_fat_volume write_fail_device) = Some (0, uf').
Proof.
  eexists. split; [vm_compute; reflexivity |].
  split; vm_compute; reflexivity.
Qed.

(** Against C3 as stated: when the device read fails, [ufat_cache_open]
    for block 7 on an empty cache returns, and block 7 is in no slot. *)
Lemma cache_open_failed_read_counterexample :
  ~ (forall (uf : ufat) (b r : Z) (uf' : ufat),
        cache_wf uf -> cache_empty 2 uf = true ->
        ufat_cache_open 1 2 uf b = Some (r, uf') ->
        holds_block 2 uf' b = true).
Proof.
  intros H.
  destruct (ufat_cache_open 1 2 (empty_volume s1_geometry read_fail_device) 7)
    as [[r uf']|] eqn:Hopen; [| vm_compute in Hopen; discriminate].
  assert (Hholds : holds_block 2 uf' 7 = true).
  { apply (H (empty_volume s1_geometry read_fail_device) 7 r uf');
      [unfold cache_wf; simpl; lia | reflexivity | exact Hopen]. }
  vm_compute in Hopen. inversion Hopen; subst r uf'.
  vm_compute in Hholds. discriminate.
Qed.

Lemma cache_open_sequence_invariant_witness :
  (exists rets uf',
      run_opens 1 2 (empty_volume s1_geometry s1_device) [10; 20]
        = Some (rets, uf') /\
      unique_present 2 uf' /\
      (forall x, holds_block 2 uf' x = true -> x ∈ [10; 20]) /\
      distinct_present 2 uf' = present_count 2 uf' /\
      distinct_present 2 uf' <= cache_size uf' /\
      cache_size uf' = cache_size (empty_volume s1_geometry s1_device)) /\
  (exists rets uf1 r uf',
      run_opens 1 2 (empty_volume s1_geometry s1_device) [10; 20]
        = Some (rets, uf1) /\
      ufat_cache_open 1 2 uf1 30 = Some (r, uf') /\
      run_opens 1 2 (empty_volume s1_geometry s1_device) ([10; 20] ++ [30])
        = Some (rets ++ [r], uf') /\
      length rets = length [10; 20] /\
      0 <= r /\ block_present_at 2 uf' 30 r /\ holds_block 2 uf' 30 = true).
Proof.
  destruct (cache_open_sequence_invariant 1 2 ltac:(lia) eq_refl
              (empty_volume s1_geometry s1_device) [10; 20] 30)
    as [H1 (rets & uf1 & r & uf' & Hrun & Hopen & Hsnoc & Hlen & _ & _ & Hok)].
  - unfold cache_wf. simpl. lia.
  - reflexivity.
  - split; [exact H1 |]. exists rets, uf1, r, uf'.
    do 4 (split; [assumption |]). apply Hok.
    intros log blk count buf. split; vm_compute; discriminate.
Defined.

(** Scenario S6: with two slots, opening blocks 10, 20 and 30 in turn
    reuses for 30 the slot that held 10. *)
Example open_10_20_30 :
  exists uf',
    run_opens 1 2 (empty_volume s1_geometry s1_device) [10; 20; 30]
      = Some ([1; 0; 1], uf') /\
    map index (cache_desc uf') = [20; 30].
Proof. eexists. split; vm_compute; reflexivity. Qed.

(** Against C4 as stated: on the mounted S1 volume with an unreadable
    block 9, two calls [ufat_cache_open] for block 9 fail and the counters
    still sum to 1, the miss of the mount's own read of block 0. *)
Lemma hit_miss_failed_open_counterexample :
  exists uf rets uf',
    ufat_open 1 2 8192 16 (blank_ufat 16) s1_flaky_device = Some (0, uf) /\
    run_opens 1 2 uf [9; 9] = Some (rets, uf') /\
    Z.of_nat (length [9; 9]) = 2 /\
    hit_plus_miss uf' = 1.
Proof.
  eexists. eexists. eexists.
  split; [vm_compute; reflexivity |].
  split; [vm_compute; reflexivity |].
  split; vm_compute; reflexivity.
Qed.

Lemma cache_hit_miss_counts_witness :
  ufat_open 1 2 8192 16 (blank_ufat 16) s1_device = Some (0, s1_mounted) /\
  exists rets uf',
    run_opens 1 2 s1_mounted [0; 4; 4; 7] = Some (rets, uf') /\
    length rets = length [0; 4; 4; 7] /\
    count_ok rets = 4 /\
    hit_plus_miss uf' = 1 + count_ok rets.
Proof.
  split; [vm_compute; reflexivity |].
  destruct (cache_hit_miss_counts 1 2 8192 16 (blank_ufat 16) s1_device
              s1_mounted [0; 4; 4; 7])
    as (rets & uf' & Hrun & Hlen & _ & Hexact).
  - simpl. lia.
  - simpl. lia.
  - vm_compute. reflexivity.
  - exists rets, uf'. split; [exact Hrun |]. split; [exact Hlen |].
    assert (Hcount : count_ok rets = 4).
    { vm_compute in Hrun. inversion Hrun. reflexivity. }
    split; [exact Hcount |]. apply Hexact. rewrite Hcount. reflexivity.
Defined.

(** ** Mounting *)

(** With the total cut to 0 the volume mounts with the same type and
    layout: the sector difference wraps and the cluster count is huge. *)
Example mount_s1_cut_total :
  exists uf,
    ufat_open 1 2 8192 16 (blank_ufat 16)
      (sim_device 9 (fat_image 0 s1_cut_boot_sector) no_err no_err)
      = Some (0, uf) /\
    type (bpb uf) = UFAT_TYPE_FAT16 /\
    root_size (bpb uf) = 32 /\
    cluster_start (bpb uf) = 164.
Proof. eexists. split; [vm_compute; reflexivity |]. vm_compute. done. Qed.

Lemma mount_fat16_scenario_witness :
  exists uf,
    ufat_open 1 2 8192 16 (blank_ufat 16) s1_device = Some (0, uf) /\
    type (bpb uf) = UFAT_TYPE_FAT16 /\
    root_size (bpb uf) = 32 /\
    cluster_start (bpb uf) = 164.
Proof.
  apply (mount_fat16_scenario 1 2 8192 16 (blank_ufat 16) s1_device
           s1_boot_sector 0).
  - reflexivity.
  - reflexivity.
  - reflexivity.
  - simpl. lia.
  - simpl. lia.
  - intros buf. reflexivity.
  - lia.
  - vm_compute. reflexivity.
  - vm_compute. reflexivity.
  - vm_compute. reflexivity.
  - vm_compute. reflexivity.
  - vm_compute. reflexivity.
  - vm_compute. reflexivity.
  - vm_compute. reflexivity.
  - vm_compute. reflexivity.
Defined.

(** ** The FAT decoder

    In these instances the sentinels are EOC = 0x0FFFFFF8 and
    BAD = 0x0FFFFFF7. *)

Lemma read_fat32_masks_witness :
  exists uf',
    ufat_read_fat 1 2 0x0FFFFFF8 0x0FFFFFF7
      (empty_volume fat32_geometry (fat32_device 7 0xF000ABCD)) 7 0
    = Some (0, 0x0000ABCD, uf').
Proof.
  destruct (ufat_cache_open 1 2
              (empty_volume fat32_geometry (fat32_device 7 0xF000ABCD)) 32)
    as [[i uf']|] eqn:Hopen; [| vm_compute in Hopen; discriminate].
  assert (Hi : i = 1) by (vm_compute in Hopen; congruence).
  destruct (read_fat32_masks 1 2 0x0FFFFFF8 0x0FFFFFF7
              (empty_volume fat32_geometry (fat32_device 7 0xF000ABCD))
              7 0 i uf')
    as (result & Hread & _ & _ & _ & Hraw).
  - reflexivity.
  - reflexivity.
  - exact Hopen.
  - lia.
  - exists uf'. rewrite Hread, Hraw; [reflexivity |].
    vm_compute in Hopen. inversion Hopen; subst i uf'.
    vm_compute. reflexivity.
Defined.

Lemma read_fat16_decode_witness :
  exists uf',
    ufat_read_fat 1 2 0x0FFFFFF8 0x0FFFFFF7
      (empty_volume s1_geometry (fat16_device 5 0xFFFF)) 5 0
    = Some (0, 0x0FFFFFF8, uf').
Proof.
  destruct (ufat_cache_open 1 2
              (empty_volume s1_geometry (fat16_device 5 0xFFFF)) 4)
    as [[i uf']|] eqn:Hopen; [| vm_compute in Hopen; discriminate].
  assert (Hi : i = 1) by (vm_compute in Hopen; congruence).
  destruct (read_fat16_decode 1 2 0x0FFFFFF8 0x0FFFFFF7
              (empty_volume s1_geometry (fat16_device 5 0xFFFF)) 5 0 i uf')
    as (result & Hread & _ & _ & _ & Heoc & _).
  - reflexivity.
  - reflexivity.
  - exact Hopen.
  - lia.
  - exists uf'. rewrite Hread, Heoc; [reflexivity |].
    vm_compute in Hopen. inversion Hopen; subst i uf'.
    vm_compute. reflexivity.
Defined.

(** Scenario S4, the two other entries. *)
Example read_fat16_bad :
  exists uf',
    ufat_read_fat 1 2 0x0FFFFFF8 0x0FFFFFF7
      (empty_volume s1_geometry (fat16_device 5 0xFFF7)) 5 0
    = Some (0, 0x0FFFFFF7, uf').
Proof. eexists. vm_compute. reflexivity. Qed.

Example read_fat16_plain :
  exists uf',
    ufat_read_fat 1 2 0x0FFFFFF8 0x0FFFFFF7
      (empty_volume s1_geometry (fat16_device 5 0x1234)) 5 0
    = Some (0, 0x1234, uf').
Proof. eexists. vm_compute. reflexivity. Qed.



Lemma read_fat12_unimplemented_witness :
  ufat_read_fat 1 2 0x0FFFFFF8 0x0FFFFFF7
    (empty_volume fat12_geometry s1_device) 5 77
  = Some (-1, 77, empty_volume fat12_geometry s1_device) /\
  -1 = - UFAT_ERR_IO.
Proof.
  apply (read_fat12_unimplemented 1 2 0x0FFFFFF8 0x0FFFFFF7).
  - reflexivity.
  - reflexivity.
Defined.

(** * Closed instances of the further properties *)

Lemma cache_open_hit_witness :
  exists uf',
    ufat_cache_open 1 2 (set_stat full_stat (full_volume s1_device 2)) 20
      = Some (1, uf') /\
    io_log uf' = [] /\
    cache_data uf' = cache_data (full_volume s1_device 2) /\
    stat uf' =
      mk_stat 0xFFFFFFFF 0xFFFFFFFF 0xFFFFFFFF 0xFFFFFFFF 0 0xFFFFFFFF.
Proof.
  destruct (cache_open_hit 1 2 (set_stat full_stat (full_volume s1_device 2))
              20 1)
    as (uf' & Hopen & Hlog & Hdata & Hhit & Hmiss & Hr & Hw & Hrb & Hwb & _).
  - split; [simpl; lia |]. eexists. split; [reflexivity |].
    split; reflexivity.
  - intros j dj Hj Hdj Hp Hidx. assert (j = 0) as -> by lia.
    vm_compute in Hdj. inversion Hdj; subst dj.
    vm_compute in Hidx. discriminate.
  - exists uf'. split; [exact Hopen |]. split; [exact Hlog |].
    split; [exact Hdata |].
    destruct (stat uf'). simpl in *. subst. reflexivity.
Defined.

Lemma cache_open_free_slot_no_writeback_witness :
  exists r uf',
    ufat_cache_open 1 2 (empty_volume s1_geometry s1_device) 7
      = Some (r, uf') /\
    (io_log uf' = io_log (empty_volume s1_geometry s1_device) \/
     exists data ret,
       io_log uf' =
       io_log (empty_volume s1_geometry s1_device) ++ [IoRead 7 1 data ret]).
Proof.
  destruct (ufat_cache_open 1 2 (empty_volume s1_geometry s1_device) 7)
    as [[r uf']|] eqn:Hopen; [| vm_compute in Hopen; discriminate].
  exists r, uf'. split; [reflexivity |].
  apply (cache_open_free_slot_no_writeback 1 2
           (empty_volume s1_geometry s1_device) 7 r uf').
  - reflexivity.
  - exact Hopen.
Defined.

Lemma cache_open_evicts_oldest_witness :
  exists r uf' dr,
    ufat_cache_open 1 2 (full_volume s1_device 2) 30 = Some (r, uf') /\
    desc_at (full_volume s1_device 2) r = Some dr /\
    forall j dj,
      0 <= j < cache_size (full_volume s1_device 2) ->
      desc_at (full_volume s1_device 2) j = Some dj ->
      slot_age (full_volume s1_device 2) dj <=
      slot_age (full_volume s1_device 2) dr.
Proof.
  destruct (ufat_cache_open 1 2 (full_volume s1_device 2) 30)
    as [[r uf']|] eqn:Hopen; [| vm_compute in Hopen; discriminate].
  assert (Hr : 0 <= r) by (vm_compute in Hopen; inversion Hopen; lia).
  destruct (cache_open_evicts_oldest 1 2 (full_volume s1_device 2) 30 r uf')
    as (dr & Hdr & Hmax).
  - reflexivity.
  - reflexivity.
  - exact Hopen.
  - exact Hr.
  - by exists r, uf', dr.
Defined.

Lemma cache_open_again_witness :
  exists r uf1 uf2,
    ufat_cache_open 1 2 (empty_volume s1_geometry s1_device) 7
      = Some (r, uf1) /\
    ufat_cache_open 1 2 uf1 7 = Some (r, uf2) /\
    io_log uf2 = io_log uf1 /\ cache_data uf2 = cache_data uf1.
Proof.
  destruct (ufat_cache_open 1 2 (empty_volume s1_geometry s1_device) 7)
    as [[r uf1]|] eqn:Hopen; [| vm_compute in Hopen; discriminate].
  assert (Hr : 0 <= r) by (vm_compute in Hopen; inversion Hopen; lia).
  destruct (cache_open_again 1 2 ltac:(lia) ltac:(reflexivity)
              (empty_volume s1_geometry s1_device) 7 r uf1)
    as (uf2 & Hopen2 & Hlog & Hdata).
  - two_slots_unique.
  - exact Hopen.
  - exact Hr.
  - by exists r, uf1, uf2.
Defined.

Lemma cache_open_miss_fills_witness :
  exists r uf' pre ret,
    ufat_cache_open 1 2
      (set_stat full_stat (empty_volume s1_geometry s1_device)) 0
      = Some (r, uf') /\
    io_log uf' = pre ++ [IoRead 0 1 s1_boot_sector ret] /\
    ufat_cache_data uf' r = s1_boot_sector /\
    stat_read (stat uf') = 0 /\ read_blocks (stat uf') = 0 /\
    cache_miss (stat uf') = 0 /\ cache_hit (stat uf') = 0xFFFFFFFF.
Proof.
  destruct (ufat_cache_open 1 2
              (set_stat full_stat (empty_volume s1_geometry s1_device)) 0)
    as [[r uf']|] eqn:Hopen; [| vm_compute in Hopen; discriminate].
  assert (Hr : 0 <= r) by (vm_compute in Hopen; inversion Hopen; lia).
  destruct (cache_open_miss_fills 1 2
              (set_stat full_stat (empty_volume s1_geometry s1_device))
              0 r uf')
    as (pre & data & ret & Hlog & _ & Hdata & _ & Hsr & Hrb & Hcm & Hch).
  - unfold cache_wf. simpl. lia.
  - reflexivity.
  - exact Hopen.
  - exact Hr.
  - exists r, uf', pre, ret. split; [reflexivity |].
    assert (Hd : data = s1_boot_sector).
    { rewrite <- Hdata. vm_compute in Hopen. inversion Hopen; subst r uf'.
      vm_compute. reflexivity. }
    rewrite <- Hd. split; [exact Hlog |]. split; [exact Hdata |].
    rewrite Hsr, Hrb, Hcm, Hch. repeat split; reflexivity.
Defined.


Lemma cache_open_stamps_slot_witness :
  exists r uf' d',
    ufat_cache_open 1 2 (full_volume s1_device 2) 30 = Some (r, uf') /\
    next_seq uf' = 3 /\ desc_at uf' r = Some d' /\ seq d' = 2 /\
    slot_age uf' d' = 1.
Proof.
  destruct (ufat_cache_open 1 2 (full_volume s1_device 2) 30)
    as [[r uf']|] eqn:Hopen; [| vm_compute in Hopen; discriminate].
  assert (Hr : 0 <= r) by (vm_compute in Hopen; inversion Hopen; lia).
  destruct (proj1 (cache_open_stamps_slot 1 2 (full_volume s1_device 2)
                     30 r uf' Hopen) Hr)
    as (Hseq & d' & Hd' & Hs & Hage).
  exists r, uf', d'. split; [reflexivity |]. done.
Defined.

Lemma cache_flush_twice_witness :
  exists uf1,
    cache_flush 1 2 (dirty_fat_volume s1_device) 0 = Some (0, uf1) /\
    (exists d1, desc_at uf1 0 = Some d1 /\ needs_flush 1 2 d1 = false) /\
    cache_flush 1 2 uf1 0 = Some (0, uf1).
Proof.
  destruct (cache_flush 1 2 (dirty_fat_volume s1_device) 0)
    as [[r uf1]|] eqn:Hflush; [| vm_compute in Hflush; discriminate].
  assert (Hr : r = 0) by (vm_compute in Hflush; inversion Hflush; lia).
  subst r. exists uf1. split; [reflexivity |].
  apply (cache_flush_twice 1 2 (dirty_fat_volume s1_device) 0 uf1).
  exact Hflush.
Defined.

Lemma cache_flush_failure_witness :
  exists uf',
    cache_flush 1 2 (dirty_fat_volume write_fail_device) 0
      = Some (- UFAT_ERR_IO, uf') /\
    cache_desc uf' = cache_desc (dirty_fat_volume write_fail_device) /\
    stat uf' = stat (dirty_fat_volume write_fail_device).
Proof.
  destruct (cache_flush 1 2 (dirty_fat_volume write_fail_device) 0)
    as [[r uf']|] eqn:Hflush; [| vm_compute in Hflush; discriminate].
  assert (Hr : r <> 0) by (vm_compute in Hflush; inversion Hflush; lia).
  destruct (cache_flush_failure 1 2 (dirty_fat_volume write_fail_device)
              0 r uf' Hflush Hr)
    as (-> & Hdesc & _ & Hstat & _).
  by exists uf'.
Defined.

Lemma cache_flush_success_witness :
  exists uf' w evs,
    cache_flush 1 2 (set_stat full_stat (dirty_fat_volume s1_device)) 0
      = Some (0, uf') /\
    io_log uf' = IoWrite 4 1 dirty_fat_block w :: evs /\
    length evs = 1%nat /\
    stat_write (stat uf') = 1 /\ write_blocks (stat uf') = 1.
Proof.
  destruct (cache_flush 1 2 (set_stat full_stat (dirty_fat_volume s1_device))
              0)
    as [[r uf']|] eqn:Hflush; [| vm_compute in Hflush; discriminate].
  assert (Hr : r = 0) by (vm_compute in Hflush; inversion Hflush; lia).
  subst r.
  destruct (cache_flush_success 1 2
              (set_stat full_stat (dirty_fat_volume s1_device)) 0
              (mk_desc 3 0 4) uf')
    as (w & evs & _ & Hlog & _ & Hlen & Hsw & Hwb & _).
  - exact Hflush.
  - reflexivity.
  - reflexivity.
  - exists uf', w, evs. split; [reflexivity |].
    split; [exact Hlog |]. split; [exact Hlen |].
    rewrite Hsw, Hwb, Hlen. split; reflexivity.
Defined.

Lemma ufat_sync_writes_dirty_slots_witness :
  exists r uf' evs,
    ufat_sync 1 2 (dirty_fat_volume s1_device) = Some (r, uf') /\
    io_log uf' = io_log (dirty_fat_volume s1_device) ++ evs /\
    Forall (flushable_write 1 2 (dirty_fat_volume s1_device) 0
              (cache_size (dirty_fat_volume s1_device))) evs.
Proof.
  destruct (ufat_sync 1 2 (dirty_fat_volume s1_device))
    as [[r uf']|] eqn:Hsync; [| vm_compute in Hsync; discriminate].
  destruct (ufat_sync_writes_dirty_slots 1 2 (dirty_fat_volume s1_device)
              r uf' Hsync)
    as (_ & _ & _ & _ & _ & evs & Hlog & Hev).
  by exists r, uf', evs.
Defined.

Lemma ufat_sync_cleans_witness :
  exists uf',
    ufat_sync 1 2 (dirty_fat_volume s1_device) = Some (0, uf') /\
    cache_clean 1 2 uf' /\ ufat_sync 1 2 uf' = Some (0, uf').
Proof.
  destruct (ufat_sync 1 2 (dirty_fat_volume s1_device))
    as [[r uf']|] eqn:Hsync; [| vm_compute in Hsync; discriminate].
  assert (Hr : r = 0) by (vm_compute in Hsync; inversion Hsync; lia).
  subst r. exists uf'. split; [reflexivity |].
  apply (ufat_sync_cleans 1 2 (dirty_fat_volume s1_device) 0 uf'
           [IoWrite 4 1 dirty_fat_block 0; IoWrite 4 1 dirty_fat_block 0]).
  - simpl. lia.
  - exact Hsync.
  - vm_compute in Hsync. inversion Hsync; subst uf'. vm_compute. reflexivity.
  - reflexivity.
Defined.

Lemma mounted_stat_coherent_witness :
  exists rets uf',
    run_opens 1 2 s1_mounted [0; 4; 4; 7] = Some (rets, uf') /\
    stat_coherent uf'.
Proof.
  apply (mounted_stat_coherent 1 2 8192 16 (blank_ufat 16) s1_device).
  - simpl. lia.
  - simpl. lia.
  - vm_compute. reflexivity.
Defined.

Lemma ufat_open_parses_block0_witness :
  exists uf,
    ufat_open 1 2 8192 16 (blank_ufat 16) s1_device = Some (0, uf) /\
    bpb uf = s1_geometry /\
    io_log uf = [IoRead 0 1 s1_boot_sector 0] /\
    stat uf = mk_stat 1 0 1 0 0 1 /\
    block_present_at 2 uf 0 15.
Proof.
  destruct (ufat_open_parses_block0 1 2 8192 16 ltac:(lia)
              (blank_ufat 16) s1_device s1_boot_sector 0 0 s1_geometry)
    as (uf & Hopen & Hbpb & _ & Hsize & Hlog & Hstat & _ & Hpres & _).
  - reflexivity.
  - reflexivity.
  - simpl. lia.
  - simpl. lia.
  - intros buf. reflexivity.
  - lia.
  - vm_compute. reflexivity.
  - exists uf. split; [exact Hopen |]. split; [exact Hbpb |].
    split; [exact Hlog |]. split; [exact Hstat |].
    rewrite Hsize in Hpres. exact Hpres.
Defined.

Lemma ufat_open_read_failure_witness :
  exists uf,
    ufat_open 1 2 8192 16 (blank_ufat 16) dead_device = Some (-1, uf) /\
    cache_empty 2 uf = true /\ stat uf = zero_stat.
Proof.
  destruct (ufat_open_read_failure 1 2 8192 16 (blank_ufat 16) dead_device
              [] (-1))
    as (uf & Hopen & _ & Hempty & Hstat & _).
  - reflexivity.
  - reflexivity.
  - simpl. lia.
  - simpl. lia.
  - intros buf. reflexivity.
  - lia.
  - by exists uf.
Defined.

Lemma log2_exact_spec_witness :
  log2_exact 512 0 = (0, 9) /\
  (forall n, 0 <= n -> 768 <> 2 ^ n).
Proof.
  split.
  - apply (proj1 (log2_exact_spec 512 0) 9); [lia | reflexivity].
  - destruct (proj2 (log2_exact_spec 768 0) (-1) 0)
      as [(Hr & _) | (_ & _ & Hno)]; [reflexivity | lia | exact Hno].
Defined.

Lemma parse_bpb_validates_witness :
  9 <= 9 /\
  r16 s1_boot_sector 0x1fe = 0xaa55 /\
  (exists k, 0 <= k /\ r16 s1_boot_sector 0x00b = 2 ^ k) /\
  (exists k, 0 <= k /\ byte_at s1_boot_sector 0x00d = 2 ^ k) /\
  1 <= fat_count s1_geometry /\
  fat_count s1_geometry = byte_at s1_boot_sector 0x010.
Proof.
  apply (parse_bpb_validates 9 zero_bpb s1_boot_sector s1_geometry).
  vm_compute. reflexivity.
Defined.

(** The S1 volume on blocks of 1024 bytes: the FAT starts at block 2. *)
Lemma parse_bpb_converts_exactly_witness :
  exists ufb',
    parse_bpb 10 zero_bpb s1_boot_sector = Some (0, ufb') /\
    fat_start ufb' * 2 ^ 10 = 4 * 512 /\
    root_size ufb' * 2 ^ 10 = 32 * 512 /\
    fat_size ufb' * 2 ^ 10 = 64 * 512.
Proof.
  destruct (parse_bpb 10 zero_bpb s1_boot_sector) as [[r ufb']|] eqn:Hparse;
    [| vm_compute in Hparse; discriminate].
  assert (Hr : r = 0) by (vm_compute in Hparse; inversion Hparse; lia).
  subst r.
  destruct (parse_bpb_converts_exactly 10 zero_bpb s1_boot_sector ufb' Hparse)
    as (Hfs & Hrs & _ & _ & Hsz).
  exists ufb'. split; [reflexivity |].
  split; [exact Hfs |]. split; [exact Hrs |].
  apply Hsz. vm_compute. reflexivity.
Defined.

Lemma parse_bpb_layout_witness :
  root_start s1_geometry =
    fat_start s1_geometry + fat_size s1_geometry * fat_count s1_geometry /\
  cluster_start s1_geometry = root_start s1_geometry + root_size s1_geometry /\
  (type s1_geometry = UFAT_TYPE_FAT16 <-> 4085 <= num_clusters s1_geometry).
Proof.
  destruct (parse_bpb_layout 9 zero_bpb s1_boot_sector s1_geometry)
    as (Hrs & Hcs & _ & _ & Hnot32).
  - vm_compute. reflexivity.
  - destruct Hnot32 as (_ & _ & H16); [discriminate |].
    split; [exact Hrs |]. split; [exact Hcs | exact H16].
Defined.

Lemma parse_bpb_results_witness :
  parse_bpb 8 zero_bpb (zero_block 512) = None /\
  exists r ufb',
    parse_bpb 8 zero_bpb s1_boot_sector = Some (r, ufb') /\
    (r = - UFAT_ERR_BLOCK_SIZE <-> 8 < 9) /\
    (r <> 0 -> type ufb' = type zero_bpb).
Proof.
  split.
  - apply (parse_bpb_results 8 zero_bpb (zero_block 512)). reflexivity.
  - destruct (parse_bpb_results 8 zero_bpb s1_boot_sector) as [_ H].
    destruct H as (r & ufb' & Hparse & _ & Hsize & _ & Herr).
    + vm_compute. discriminate.
    + exists r, ufb'. split; [exact Hparse |]. split; [exact Hsize |].
      intros Hr. apply (Herr Hr).
Defined.

Lemma parse_bpb_bad_signature_witness :
  parse_bpb 9 zero_bpb unsigned_boot_sector =
  Some (- UFAT_ERR_INVALID_BPB, zero_bpb).
Proof.
  apply (parse_bpb_bad_signature 9 zero_bpb unsigned_boot_sector).
  - lia.
  - vm_compute. discriminate.
  - vm_compute. discriminate.
Defined.

(** Scenario S3: one sector of 512 bytes per cluster, blocks of 1024
    bytes. *)
Lemma parse_bpb_cluster_smaller_than_block_witness :
  parse_bpb 10 zero_bpb s3_boot_sector =
  Some (- UFAT_ERR_BLOCK_ALIGNMENT, zero_bpb).
Proof.
  apply (parse_bpb_cluster_smaller_than_block 10 9 0 zero_bpb s3_boot_sector).
  - lia.
  - lia.
  - lia.
  - vm_compute. reflexivity.
  - vm_compute. reflexivity.
  - vm_compute. reflexivity.
  - lia.
Defined.

Lemma read_fat_results_witness :
  exists ret out' uf',
    ufat_read_fat 1 2 0x0FFFFFF8 0x0FFFFFF7
      (empty_volume s1_geometry (fat16_device 5 0x1234)) 5 0
      = Some (ret, out', uf') /\
    ret <= 0 /\
    (ret = 0 ->
     out' = 0x0FFFFFF8 \/ out' = 0x0FFFFFF7 \/ 0 <= out' < 0xFFF0).
Proof.
  destruct (ufat_read_fat 1 2 0x0FFFFFF8 0x0FFFFFF7
              (empty_volume s1_geometry (fat16_device 5 0x1234)) 5 0)
    as [[[ret out'] uf']|] eqn:Hread; [| vm_compute in Hread; discriminate].
  destruct (read_fat_results 1 2 0x0FFFFFF8 0x0FFFFFF7
              (empty_volume s1_geometry (fat16_device 5 0x1234))
              5 0 ret out' uf' Hread)
    as (Hret & _ & Hok).
  exists ret, out', uf'. split; [reflexivity |]. split; [exact Hret |].
  intros H0. destruct (Hok H0) as (_ & _ & Hval). exact Hval.
Defined.

Lemma read_fat16_address_witness :
  exists out' uf' i,
    ufat_read_fat 1 2 0x0FFFFFF8 0x0FFFFFF7
      (empty_volume s1_geometry (fat16_device 300 0x1234)) 300 0
      = Some (0, out', uf') /\
    block_present_at 2 uf' (4 + 300 / 2 ^ 8) i /\
    out' = decode16 0x0FFFFFF8 0x0FFFFFF7
             (r16 (ufat_cache_data uf' i) (2 * (300 mod 2 ^ 8))).
Proof.
  destruct (ufat_read_fat 1 2 0x0FFFFFF8 0x0FFFFFF7
              (empty_volume s1_geometry (fat16_device 300 0x1234)) 300 0)
    as [[[ret out'] uf']|] eqn:Hread; [| vm_compute in Hread; discriminate].
  assert (Hr : ret = 0) by (vm_compute in Hread; inversion Hread; lia).
  subst ret.
  destruct (read_fat16_address 1 2 0x0FFFFFF8 0x0FFFFFF7 ltac:(lia)
              (empty_volume s1_geometry (fat16_device 300 0x1234))
              300 0 out' uf')
    as (i & Hpres & Hout & _).
  - reflexivity.
  - lia.
  - simpl. lia.
  - exact Hread.
  - exists out', uf', i. split; [reflexivity |]. split; [exact Hpres |].
    exact Hout.
Defined.

Lemma read_fat32_address_witness :
  exists out' uf' i,
    ufat_read_fat 1 2 0x0FFFFFF8 0x0FFFFFF7
      (empty_volume fat32_geometry (fat32_device 7 0xF000ABCD)) 7 0
      = Some (0, out', uf') /\
    block_present_at 2 uf' (32 + 7 / 2 ^ 7) i /\
    out' = decode32 0x0FFFFFF8 0x0FFFFFF7
             (Z.land (r32 (ufat_cache_data uf' i) (4 * (7 mod 2 ^ 7)))
                     UFAT_CLUSTER_MASK).
Proof.
  destruct (ufat_read_fat 1 2 0x0FFFFFF8 0x0FFFFFF7
              (empty_volume fat32_geometry (fat32_device 7 0xF000ABCD)) 7 0)
    as [[[ret out'] uf']|] eqn:Hread; [| vm_compute in Hread; discriminate].
  assert (Hr : ret = 0) by (vm_compute in Hread; inversion Hread; lia).
  subst ret.
  destruct (read_fat32_address 1 2 0x0FFFFFF8 0x0FFFFFF7 ltac:(lia)
              (empty_volume fat32_geometry (fat32_device 7 0xF000ABCD))
              7 0 out' uf')
    as (i & Hpres & Hout & _).
  - reflexivity.
  - lia.
  - simpl. lia.
  - exact Hread.
  - exists out', uf', i. split; [reflexivity |]. split; [exact Hpres |].
    exact Hout.
Defined.

Lemma read_fat_again_witness :
  exists v uf1 uf2,
    ufat_read_fat 1 2 0x0FFFFFF8 0x0FFFFFF7
      (empty_volume s1_geometry (fat16_device 5 0x1234)) 5 0
      = Some (0, v, uf1) /\
    ufat_read_fat 1 2 0x0FFFFFF8 0x0FFFFFF7 uf1 5 v = Some (0, v, uf2) /\
    io_log uf2 = io_log uf1.
Proof.
  destruct (ufat_read_fat 1 2 0x0FFFFFF8 0x0FFFFFF7
              (empty_volume s1_geometry (fat16_device 5 0x1234)) 5 0)
    as [[[ret v] uf1]|] eqn:Hread; [| vm_compute in Hread; discriminate].
  assert (Hr : ret = 0) by (vm_compute in Hread; inversion Hread; lia).
  subst ret.
  destruct (read_fat_again 1 2 0x0FFFFFF8 0x0FFFFFF7 ltac:(lia)
              ltac:(reflexivity)
              (empty_volume s1_geometry (fat16_device 5 0x1234))
              5 0 v v uf1)
    as (uf2 & Hread2 & Hlog).
  - two_slots_unique.
  - exact Hread.
  - by exists v, uf1, uf2.
Defined.

Lemma ufat_strerror_sign_witness :
  ufat_strerror 9 (- -3) = ufat_strerror 9 (-3) /\
  ufat_strerror 9 (-12) = Some (Some "Invalid error code"%string).
Proof.
  split.
  - apply (ufat_strerror_sign 9 (-3)). lia.
  - apply (ufat_strerror_sign 9 (-12)); lia.
Defined.

Lemma ufat_strerror_known_codes_witness :
  (exists msg,
      ufat_strerror 9 3 = Some (Some msg) /\
      ufat_strerror 9 (- 3) = Some (Some msg) /\
      msg <> "Invalid error code"%string) /\
  (ufat_strerror 9 3 = ufat_strerror 9 5 -> 3 = 5).
Proof.
  apply (ufat_strerror_known_codes 9 3 5).
  - lia.
  - unfold UFAT_ERR_NOT_FILE. lia.
  - unfold UFAT_ERR_NOT_FILE. lia.
Defined.
